(** * The ArangoDB starter: setup persistence, relaunch, local slaves, and
      the gone-detection waiter of the test harness.

    A shallow embedding of
      - [service/setup_config.go]  ([saveSetup], [relaunch]),
      - [service/local_slaves.go]  ([createAndStartLocalSlaves], [startLocalSlaves]),
      - [test/util.go]             ([WaitUntilStarterGone]),
    followed by the properties of the specification that concern them. *)

From stdpp Require Import base option list gmap strings pretty.
From Stdlib Require Import ZArith Lia Ascii.

Local Open Scope string_scope.
Local Open Scope list_scope.
Local Open Scope Z_scope.

Reserved Notation "x <- m ;; k"
  (at level 100, m at next level, right associativity).
Reserved Notation "m ;;; k"
  (at level 100, k at level 200, right associativity).

(** ** Go values *)

(** A Go call returning [(T, error)]: either the value or the error. *)
Inductive result (E A : Type) : Type :=
| Ok (a : A)
| Err (e : E).
Arguments Ok {E A} a.
Arguments Err {E A} e.

(** How a call ends: it returns, or it panics at run time. *)
Inductive Completion (A : Type) : Type :=
| Returns (a : A)
| Panics (msg : string).
Arguments Returns {A} a.
Arguments Panics {A} msg.

(** Go's [[]byte]. *)
Abbreviation bytes := (list Byte.byte).

(** [sync.WaitGroup]: the number of goroutines added to the group.  The
    counter of a group has 32 bits, and [wg.Add] panics once it passes them;
    the number is kept here without that limit, which takes [2^31]
    goroutines running at once to reach. *)
Abbreviation WaitGroup := Z (only parsing).

(** ** package service: the persisted data

    [Peer] and [peers] are declared elsewhere in the package;
    [setup_config.go] and [local_slaves.go] use them through the fields
    below. *)

Module Peer.
(** Modelled from the spec: the declaration of [Peer] is missing.  The spec
    gives a peer an opaque unique string id, a data directory and a network
    location (address and port); the code reads and writes [ID] and
    [DataDir], and [Peer{}] leaves every other field at its zero value. *)
Record t : Type := Build
  { ID : string;
    Address : string;
    Port : Z;
    DataDir : string }.

(** [Peer{}] *)
Definition zero : t :=
  {| ID := ""; Address := ""; Port := 0; DataDir := "" |}.

Definition with_ID (v : string) (p : t) : t :=
  {| ID := v; Address := Address p; Port := Port p; DataDir := DataDir p |}.
Definition with_DataDir (v : string) (p : t) : t :=
  {| ID := ID p; Address := Address p; Port := Port p; DataDir := v |}.
End Peer.

Module peers.
(** Modelled from the spec: the declaration of [peers] is missing.  The
    spec's peer registry is the ordered sequence of peers together with the
    agency size; [relaunch] reads exactly these two fields
    ([cfg.Peers.Peers] and [s.myPeers.AgencySize]). *)
Record t : Type := Build
  { Peers : list Peer.t;
    AgencySize : Z }.
End peers.

(** [SetupConfigVersion] and [setupFileName] *)
Definition SetupConfigVersion : string := "0.2.1".
Definition setupFileName : string := "setup.json".

Module SetupConfigFile.
(** The JSON structure stored in the setup file:
    [version], [id], [peers] and [start-local-slaves,omitempty]. *)
Record t : Type := Build
  { Version : string;
    ID : string;
    Peers : peers.t;
    StartLocalSlaves : bool }.

(** [var cfg SetupConfigFile] *)
Definition zero : t :=
  {| Version := ""; ID := "";
     Peers := {| peers.Peers := []; peers.AgencySize := 0 |};
     StartLocalSlaves := false |}.
End SetupConfigFile.

Module Config.
(** The fields of the service configuration that the two files read or
    write; [Service] embeds [Config], so [s.ID] is [s.Config.ID]. *)
Record t : Type := Build
  { ID : string;
    AgencySize : Z;
    DataDir : string;
    OwnAddress : string;
    MasterAddress : string;
    StartLocalSlaves : bool }.

Definition with_ID (v : string) (c : t) : t :=
  {| ID := v; AgencySize := AgencySize c; DataDir := DataDir c;
     OwnAddress := OwnAddress c; MasterAddress := MasterAddress c;
     StartLocalSlaves := StartLocalSlaves c |}.
Definition with_AgencySize (v : Z) (c : t) : t :=
  {| ID := ID c; AgencySize := v; DataDir := DataDir c;
     OwnAddress := OwnAddress c; MasterAddress := MasterAddress c;
     StartLocalSlaves := StartLocalSlaves c |}.
Definition with_DataDir (v : string) (c : t) : t :=
  {| ID := ID c; AgencySize := AgencySize c; DataDir := v;
     OwnAddress := OwnAddress c; MasterAddress := MasterAddress c;
     StartLocalSlaves := StartLocalSlaves c |}.
Definition with_MasterAddress (v : string) (c : t) : t :=
  {| ID := ID c; AgencySize := AgencySize c; DataDir := DataDir c;
     OwnAddress := OwnAddress c; MasterAddress := v;
     StartLocalSlaves := StartLocalSlaves c |}.
Definition with_StartLocalSlaves (v : bool) (c : t) : t :=
  {| ID := ID c; AgencySize := AgencySize c; DataDir := DataDir c;
     OwnAddress := OwnAddress c; MasterAddress := MasterAddress c;
     StartLocalSlaves := v |}.
End Config.

(** ** What the package calls but does not define

    The Go standard library ([encoding/json], [path/filepath], [net]) and the
    helpers of the package that live outside the two files.  They are kept
    abstract, first the types, then the functions: every theorem holds for
    any implementation, and says so when it needs a property of one of
    them. *)
Class Types : Type :=
  { error : Type;
    Logger : Type;
    Runner : Type;
    context_Context : Type }.

Class External `{Types} : Type :=
  { (** the error of [ioutil.ReadFile] on a path that does not exist *)
    ErrNotExist : error;
    (** the error of reading a directory, or of opening one for writing,
        and the error of a path that goes through something that is not a
        directory *)
    EISDIR : error;
    ENOTDIR : error;
    (** what opening a file for reading, and for writing, gives once this
        process has created it with the permission bits [perm]: nil, unless
        the umask or the file system take the bit of the owner away *)
    created_read : Z -> option error;
    created_write : Z -> option error;
    (** the largest capacity [make([]Peer, 0, cap)] grants,
        [maxAlloc / unsafe.Sizeof(Peer{})]: beyond it [make] panics *)
    make_Peers_max : Z;
    maskAny : error -> error;
    mustCreateIDLogger : string -> Logger;
    filepath_Join : string -> string -> string;
    net_JoinHostPort : string -> string -> string;
    (** [json.Marshal(cfg)] *)
    json_Marshal : SetupConfigFile.t -> result error bytes;
    (** [json.Unmarshal(b, &cfg)] on a zero [cfg]: the decoded value when the
        error is nil *)
    json_Unmarshal : bytes -> result error SetupConfigFile.t;
    (** the outcome of the [n]-th call of [createUniqueID] in a run *)
    createUniqueID_result : nat -> result error string }.

(** [strconv.Itoa] and the verb [%d]: the decimal numeral. *)
Definition strconv_Itoa (i : Z) : string := pretty i.

(** ** package service: the running instance and its world *)

Section service.
Context {T : Types} {E : External}.

(** Arguments of the [log] calls. *)
Inductive Arg : Type :=
| AString (s : string)
| AInt (i : Z)
| AError (e : error).

Inductive Level : Type := LInfo | LWarning | LError.

(** One call of [Infof], [Warningf] or [Errorf]: the logger it went through,
    the format string and the arguments. *)
Record LogEntry : Type := mkLogEntry
  { via : Logger;
    level : Level;
    format : string;
    args : list Arg }.

(** [Service]: the embedded [Config] and the fields the two files use. *)
Record Service : Type := mkService
  { Config_ : Config.t;
    log : Logger;
    announcePort : Z;
    myPeers : peers.t;
    ctx : context_Context }.

(** The constructor of the package, [NewService(log, config, isLocalSlave)],
    is defined outside the two files. *)
Variable NewService : Logger -> Config.t -> bool -> result error Service.

(** What is at a path: a regular file, with its content and with what
    opening it for reading ([O_RDONLY]) and for writing ([O_WRONLY]) gives
    this process, [None] when the open succeeds (a file of mode 0200 can be
    written and not read, one of mode 0400 read and not written); or a
    directory.  A path without entry does not exist.  Paths are compared as
    the strings the program uses: two spellings of one path are two
    entries. *)
Inductive node : Type :=
| File (content : bytes) (rd wr : option error)
| Dir.

(** What the disk does to the next [ioutil.WriteFile]. *)
Inductive WriteFault : Type :=
| NoFault
| OpenFails (e : error)
| WriteFails (written : nat) (e : error).

(** What the instance does to the world around it, in order. *)
Inductive Event : Type :=
| StartHTTPServer
| StartRunning (runner : Runner)
| MkdirAll (path : string) (perm : Z)
(** [NewService(_, config, true)] gave [slave], and
    [go func() { defer wg.Done(); slave.Run(ctx) }()] *)
| GoRun (config : Config.t) (slave : Service) (c : context_Context)
(** [wg.Wait()] on a group with [pending] goroutines added *)
| WgWait (pending : Z).

(** The state the methods of [*Service] run in: the receiver [s], the files,
    every earlier state of the files (what a reader running at the same time
    may have seen), the log output, the events, the number of identifiers
    drawn so far, the fault of the next write, and the paths at which the
    system refuses to make a directory. *)
Record World : Type := mkWorld
  { s_ : Service;
    fs : gmap string node;
    fs_seen : list (gmap string node);
    logged : list LogEntry;
    events : list Event;
    ids_drawn : nat;
    next_write : WriteFault;
    mkdir_denied : string -> bool }.

(** *** The state monad of the methods *)

Definition M (A : Type) : Type := World -> A * World.

Definition ret {A} (a : A) : M A := fun w => (a, w).
Definition bind {A B} (m : M A) (k : A -> M B) : M B :=
  fun w => let '(a, w') := m w in k a w'.

Notation "x <- m ;; k" := (bind m (fun x => k)).
Notation "m ;;; k" := (bind m (fun _ => k)).

Definition self : M Service := fun w => (s_ w, w).

Definition set_self (s : Service) : M unit := fun w =>
  (tt, {| s_ := s; fs := fs w; fs_seen := fs_seen w; logged := logged w;
          events := events w; ids_drawn := ids_drawn w;
          next_write := next_write w;
          mkdir_denied := mkdir_denied w |}).

Definition emit (e : Event) : M unit := fun w =>
  (tt, {| s_ := s_ w; fs := fs w; fs_seen := fs_seen w; logged := logged w;
          events := events w ++ [e]; ids_drawn := ids_drawn w;
          next_write := next_write w;
          mkdir_denied := mkdir_denied w |}).

Definition logf (l : Level) (fmt : string) (a : list Arg) : M unit := fun w =>
  (tt, {| s_ := s_ w; fs := fs w; fs_seen := fs_seen w;
          logged := logged w ++
            [{| via := log (s_ w); level := l; format := fmt; args := a |}];
          events := events w; ids_drawn := ids_drawn w;
          next_write := next_write w;
          mkdir_denied := mkdir_denied w |}).

Definition Infof := logf LInfo.
Definition Warningf := logf LWarning.
Definition Errorf := logf LError.

(** One atomic change of the files; the state before it stays on record. *)
Definition fs_step (f : gmap string node -> gmap string node) : M unit :=
  fun w =>
  (tt, {| s_ := s_ w; fs := f (fs w); fs_seen := fs_seen w ++ [fs w];
          logged := logged w; events := events w; ids_drawn := ids_drawn w;
          next_write := next_write w;
          mkdir_denied := mkdir_denied w |}).

(** Field updates of the receiver. *)
Definition set_Config (c : Config.t) (s : Service) : Service :=
  {| Config_ := c; log := log s; announcePort := announcePort s;
     myPeers := myPeers s; ctx := ctx s |}.
Definition set_log (l : Logger) (s : Service) : Service :=
  {| Config_ := Config_ s; log := l; announcePort := announcePort s;
     myPeers := myPeers s; ctx := ctx s |}.
Definition set_myPeers (p : peers.t) (s : Service) : Service :=
  {| Config_ := Config_ s; log := log s; announcePort := announcePort s;
     myPeers := p; ctx := ctx s |}.

(** *** The calls into the standard library and the rest of the package *)

(** [ioutil.ReadFile]: the whole content, or the error. *)
Definition ioutil_ReadFile (filename : string) : M (result error bytes) :=
  fun w =>
  (match fs w !! filename with
   | None => Err ErrNotExist
   | Some (File b None _) => Ok b
   | Some (File _ (Some e) _) => Err e
   | Some Dir => Err EISDIR
   end, w).

Definition IsPathSeparator (c : ascii) : bool := Ascii.eqb c "/".

Fixpoint skip_while (f : ascii -> bool) (l : list ascii) : list ascii :=
  match l with
  | [] => []
  | c :: l' => if f c then skip_while f l' else l
  end.

(** The directory a path is in, as [os.MkdirAll] finds the parent it makes
    first, [path[0:j-1]]: it skips the trailing separators of [path], then
    scans backward over the last element, which leaves the first [j] bytes;
    there is a parent when [j > 1], and otherwise the path is in the root or
    in the working directory, which are there. *)
Definition parent_dir (path : string) : option string :=
  let r := rev (String.list_ascii_of_string path) in
  let r := skip_while IsPathSeparator r in
  let r := skip_while (fun c => negb (IsPathSeparator c)) r in
  if decide (1 < length r)%nat
  then Some (String.string_of_list_ascii (rev (tail r)))
  else None.

(** [ioutil.WriteFile]: [os.OpenFile] with [O_WRONLY|O_CREATE|O_TRUNC]
    (the file exists and is empty from here on), then [f.Write(data)], then
    [f.Close()].  "If the file does not exist, WriteFile creates it with
    permissions perm; otherwise WriteFile truncates it before writing."
    [None] is the nil error. *)
Definition ioutil_WriteFile (filename : string) (data : bytes) (perm : Z)
  : M (option error) :=
  fun w =>
  (* the file as it is once opened: an existing file keeps its mode, a new
     one is made in the directory the path is in *)
  let opened :=
    match fs w !! filename with
    | Some Dir => Err EISDIR
    | Some (File _ _ (Some e)) => Err e
    | Some (File _ rd None) => Ok (rd, None)
    | None =>
        match parent_dir filename with
        | None => Ok (created_read perm, created_write perm)
        | Some parent =>
            match fs w !! parent with
            | Some Dir => Ok (created_read perm, created_write perm)
            | Some (File _ _ _) => Err ENOTDIR
            | None => Err ErrNotExist
            end
        end
    end in
  match opened with
  | Err e => (Some e, w)
  | Ok (rd, wr) =>
      match next_write w with
      | OpenFails e => (Some e, w)
      | NoFault =>
          (fs_step (insert filename (File [] rd wr)) ;;;
           fs_step (insert filename (File data rd wr)) ;;;
           ret None) w
      | WriteFails n e =>
          (fs_step (insert filename (File [] rd wr)) ;;;
           fs_step (insert filename (File (take n data) rd wr)) ;;;
           ret (Some e)) w
      end
  end.

(** [os.Mkdir(path, perm)] once the parent is there: the directory is made
    unless the path is taken, is empty, or the system refuses.  The result
    tells whether the error is nil. *)
Definition os_Mkdir (path : string) : M bool := fun w =>
  match fs w !! path with
  | Some _ => (false, w)
  | None =>
      if bool_decide (path = "") || mkdir_denied w path then (false, w)
      else (fs_step (insert path Dir) ;;; ret true) w
  end.

(** [os.Lstat(path)] gives a directory. *)
Definition IsDir (path : string) : M bool := fun w =>
  (match fs w !! path with
   | Some Dir => true
   | _ => false
   end, w).

(** [os.MkdirAll]: nothing to do when [path] is a directory, an error when
    it is something else; otherwise the parent first, then [os.Mkdir] of
    [path], whose error does not count when [path] is a directory after
    all.  The parent is a shorter string, so the recursion is at most as
    deep as [path] is long, which is what [fuel] starts from.  The result
    tells whether the error is nil. *)
Fixpoint MkdirAll_from (fuel : nat) (path : string) : M bool := fun w =>
  match fs w !! path with
  | Some Dir => (true, w)
  | Some (File _ _ _) => (false, w)
  | None =>
      match fuel with
      | O => (false, w)
      | S fuel' =>
          (ok <- match parent_dir path with
                 | Some parent => MkdirAll_from fuel' parent
                 | None => ret true
                 end ;;
           if ok then
             made <- os_Mkdir path ;;
             if made then ret true else IsDir path
           else ret false) w
      end
  end.

(** [os.MkdirAll(path, perm)], as the package calls it: the error is
    dropped. *)
Definition os_MkdirAll (path : string) (perm : Z) : M unit :=
  emit (MkdirAll path perm) ;;;
  MkdirAll_from (S (String.length path)) path ;;;
  ret tt.

(** [createUniqueID()]: the next outcome of the generator. *)
Definition createUniqueID : M (result error string) := fun w =>
  (createUniqueID_result (ids_drawn w),
   {| s_ := s_ w; fs := fs w; fs_seen := fs_seen w; logged := logged w;
      events := events w; ids_drawn := S (ids_drawn w);
      next_write := next_write w;
          mkdir_denied := mkdir_denied w |}).

(** [s.startHTTPServer()] and [s.startRunning(runner)] *)
Definition startHTTPServer : M unit := emit StartHTTPServer.
Definition startRunning (runner : Runner) : M unit := emit (StartRunning runner).

(** *** [setup_config.go] *)

(** [filepath.Join(s.DataDir, setupFileName)], the path both [saveSetup] and
    [relaunch] compute. *)
Definition setup_path (s : Service) : string :=
  filepath_Join (Config.DataDir (Config_ s)) setupFileName.

(** [saveSetup] saves the current peer configuration to disk.  The result is
    the returned error, [None] for nil. *)
Definition saveSetup : M (option error) :=
  s <- self ;;
  let cfg :=
    {| SetupConfigFile.Version := SetupConfigVersion;
       SetupConfigFile.ID := Config.ID (Config_ s);
       SetupConfigFile.Peers := myPeers s;
       SetupConfigFile.StartLocalSlaves :=
         Config.StartLocalSlaves (Config_ s) |} in
  match json_Marshal cfg with
  | Err err =>
      Errorf "Cannot serialize config: %#v" [AError err] ;;;
      ret (Some (maskAny err))
  | Ok b =>
      r <- ioutil_WriteFile
             (filepath_Join (Config.DataDir (Config_ s)) setupFileName)
             b 420 (* 0644 *) ;;
      match r with
      | Some err =>
          Errorf "Error writing setup: %#v" [AError err] ;;;
          ret (Some (maskAny err))
      | None => ret None
      end
  end.

(** *** [local_slaves.go] *)

(** [for index, p := range peers { body }] with the loop state [acc]. *)
Fixpoint range_loop {A St} (body : nat -> A -> St -> M St)
  (index : nat) (l : list A) (acc : St) : M St :=
  match l with
  | [] => ret acc
  | p :: l' =>
      acc' <- body index p acc ;;
      range_loop body (S index) l' acc'
  end.

(** The body of the loop of [startLocalSlaves]. *)
Definition startLocalSlave (masterAddr : string)
  (index : nat) (p : Peer.t) (wg : WaitGroup) : M WaitGroup :=
  s <- self ;;
  if bool_decide (Peer.ID p = Config.ID (Config_ s)) then
    ret wg                                             (* continue *)
  else
    let config := Config_ s in
    let config := Config.with_ID (Peer.ID p) config in
    let config := Config.with_DataDir (Peer.DataDir p) config in
    let config := Config.with_MasterAddress masterAddr config in
    let config := Config.with_StartLocalSlaves false config in
    os_MkdirAll (Config.DataDir config) 493 (* 0755 *) ;;;
    match NewService (mustCreateIDLogger (Config.ID config)) config true with
    | Err err =>
        Errorf "Failed to create local slave service %d: %#v"
          [AInt (Z.of_nat index); AError err] ;;;
        ret wg                                         (* continue *)
    | Ok slaveService =>
        emit (GoRun config slaveService (ctx s)) ;;;
        ret (wg + 1)                                   (* wg.Add(1) *)
    end.

(** The master address every slave of [s] is given. *)
Definition masterAddr_of (s : Service) : string :=
  let masterAddr := Config.OwnAddress (Config_ s) in
  let masterAddr :=
    if bool_decide (masterAddr = "") then "127.0.0.1" else masterAddr in
  net_JoinHostPort masterAddr (strconv_Itoa (announcePort s)).

(** [startLocalSlaves] starts additional services for local slaves based on
    the given peers. *)
Definition startLocalSlaves (wg : WaitGroup) (peers : list Peer.t)
  : M WaitGroup :=
  s <- self ;;
  set_self (set_log (mustCreateIDLogger (Config.ID (Config_ s))) s) ;;;
  Infof "Starting %d local slaves..." [AInt (Z.of_nat (length peers) - 1)] ;;;
  s <- self ;;
  let masterAddr := masterAddr_of s in
  range_loop (startLocalSlave masterAddr) 0%nat peers wg.

(** [fmt.Sprintf("local-slave-%d", k)] *)
Definition local_slave_name (k : Z) : string :=
  "local-slave-" +:+ strconv_Itoa k.

(** The body of the loop of [createAndStartLocalSlaves]. *)
Definition createLocalPeer (index : Z) (peers : list Peer.t)
  : M (list Peer.t) :=
  let p := Peer.zero in
  r <- createUniqueID ;;
  match r with
  | Err err =>
      Errorf "Failed to create unique ID: %#v" [AError err] ;;;
      ret peers                                        (* continue *)
  | Ok id =>
      let p := Peer.with_ID id p in
      s <- self ;;
      let p :=
        Peer.with_DataDir
          (filepath_Join (Config.DataDir (Config_ s))
             (local_slave_name (index - 1))) p in
      ret (peers ++ [p])
  end.

(** [for index := 2; index <= s.AgencySize; index++ { body }]: the body runs
    for [index] = 2, 3, ..., [AgencySize], which is [seqZ 2 (AgencySize - 1)]
    (empty when [AgencySize < 2]). *)
Fixpoint for_loop {St} (body : Z -> St -> M St) (indices : list Z)
  (acc : St) : M St :=
  match indices with
  | [] => ret acc
  | index :: rest =>
      acc' <- body index acc ;;
      for_loop body rest acc'
  end.

(** [createAndStartLocalSlaves] creates additional peers for local slaves and
    starts services for them.  [make([]Peer, 0, s.AgencySize)] panics at run
    time when the capacity is negative or larger than [make_Peers_max]; a
    capacity that is granted is far below the largest [int], so [index]
    never wraps around. *)
Definition createAndStartLocalSlaves (wg : WaitGroup)
  : M (Completion WaitGroup) :=
  s <- self ;;
  if (Config.AgencySize (Config_ s) <? 0)
     || (make_Peers_max <? Config.AgencySize (Config_ s)) then
    ret (Panics "makeslice: cap out of range")
  else
    peers <- for_loop createLocalPeer
               (seqZ 2 (Config.AgencySize (Config_ s) - 1)) [] ;;
    wg' <- startLocalSlaves wg peers ;;
    ret (Returns wg').

(** *** [setup_config.go], continued *)

(** [relaunch] tries to read a setup.json config file and relaunch when that
    file exists and is valid.  Returns true on relaunch or false to continue
    with a fresh start. *)
Definition relaunch (runner : Runner) : M bool :=
  s <- self ;;
  r <- ioutil_ReadFile
         (filepath_Join (Config.DataDir (Config_ s)) setupFileName) ;;
  match r with
  | Ok setupContent =>
      (* Could read file *)
      match json_Unmarshal setupContent with
      | Ok cfg =>
          if bool_decide (SetupConfigFile.Version cfg = SetupConfigVersion)
          then
            s <- self ;;
            set_self (set_myPeers (SetupConfigFile.Peers cfg) s) ;;;
            s <- self ;;
            set_self (set_Config
                        (Config.with_ID (SetupConfigFile.ID cfg) (Config_ s))
                        s) ;;;
            s <- self ;;
            set_self (set_Config
                        (Config.with_AgencySize
                           (peers.AgencySize (myPeers s)) (Config_ s))
                        s) ;;;
            s <- self ;;
            Infof "Relaunching service with id '%s' on %s:%d..."
              [AString (Config.ID (Config_ s));
               AString (Config.OwnAddress (Config_ s));
               AInt (announcePort s)] ;;;
            startHTTPServer ;;;
            let wg : WaitGroup := 0 in
            wg <- (if SetupConfigFile.StartLocalSlaves cfg
                   then startLocalSlaves wg
                          (peers.Peers (SetupConfigFile.Peers cfg))
                   else ret wg) ;;
            startRunning runner ;;;
            emit (WgWait wg) ;;;
            ret true
          else
            Warningf "%s is outdated. Starting fresh..."
              [AString setupFileName] ;;;
            ret false
      | Err err =>
          Warningf "Failed to unmarshal existing %s: %#v"
            [AString setupFileName; AError err] ;;;
          ret false
      end
  | Err _ => ret false
  end.

(** *** What a service does when it runs *)

(** Modelled from the spec: [Service.Run], the method that the goroutine of
    a slave calls, is not under src/.  Section 2 of the spec: "on start, a
    coordinator instance first consults the Setup Persistence Engine; if a
    valid prior setup is found it relaunches directly into Running state
    [...] Otherwise it proceeds through a [...] peer-negotiation phase",
    which is out of scope and leaves no trace here; section 4.3 has the
    local orchestration for "a single host [...] configured to run multiple
    agency peers", which is the flag [StartLocalSlaves] of the
    configuration. *)
Definition Run (runner : Runner) : M (Completion unit) :=
  relaunched <- relaunch runner ;;
  if relaunched then ret (Returns tt)
  else
    s <- self ;;
    if Config.StartLocalSlaves (Config_ s) then
      r <- createAndStartLocalSlaves 0 ;;
      ret (match r with
           | Returns _ => Returns tt
           | Panics msg => Panics msg
           end)
    else ret (Returns tt).

(** Modelled from the spec: the constructor [NewService] is not under src/.
    Section 9 of the spec: "a single recursive constructor guarded by an
    explicit is-child flag that forces startLocalSlaves=false"; the service
    it makes runs on the configuration it was given. *)
Definition keeps_config : Prop :=
  forall l config isLocalSlave slave,
    NewService l config isLocalSlave = Ok slave ->
    Config_ slave =
      if isLocalSlave then Config.with_StartLocalSlaves false config
      else config.

(** *** Vocabulary of the statements *)

(** The slaves started so far: the configuration each was built from and the
    service that runs, oldest first. *)
Definition launched (evs : list Event) : list (Config.t * Service) :=
  omap (fun e => match e with
                 | GoRun config slave _ => Some (config, slave)
                 | _ => None
                 end) evs.

(** The setup file cannot be read: it is not there, or it is there and
    reading it fails (no permission to read, a directory). *)
Definition setup_absent (w : World) : Prop :=
  fs w !! setup_path (s_ w) = None.
Definition setup_unreadable (w : World) : Prop :=
  (exists b e wr, fs w !! setup_path (s_ w) = Some (File b (Some e) wr)) \/
  fs w !! setup_path (s_ w) = Some Dir.
(** The setup file holds the bytes [b] and can be read. *)
Definition setup_content (w : World) (b : bytes) : Prop :=
  exists wr, fs w !! setup_path (s_ w) = Some (File b None wr).
(** The setup file is read but is not the JSON of a [SetupConfigFile]. *)
Definition setup_unparsable (w : World) : Prop :=
  exists b err, setup_content w b /\ json_Unmarshal b = Err err.
(** The setup file parses, with another version than [SetupConfigVersion]. *)
Definition setup_outdated (w : World) : Prop :=
  exists b cfg,
    setup_content w b /\ json_Unmarshal b = Ok cfg /\
    SetupConfigFile.Version cfg <> SetupConfigVersion.
(** The setup file parses to [cfg], of the current version. *)
Definition setup_valid (w : World) (cfg : SetupConfigFile.t) : Prop :=
  exists b,
    setup_content w b /\ json_Unmarshal b = Ok cfg /\
    SetupConfigFile.Version cfg = SetupConfigVersion.

(** What opening the setup file for reading and for writing gives once
    [saveSetup] has written it: an existing file keeps its mode, a new one
    has the mode of a file created with 0644. *)
Definition setup_mode (w : World) : option error * option error :=
  match fs w !! setup_path (s_ w) with
  | Some (File _ rd wr) => (rd, wr)
  | _ => (created_read 420, created_write 420)
  end.

(** The record [saveSetup] builds from the instance. *)
Definition setup_of (s : Service) : SetupConfigFile.t :=
  {| SetupConfigFile.Version := SetupConfigVersion;
     SetupConfigFile.ID := Config.ID (Config_ s);
     SetupConfigFile.Peers := myPeers s;
     SetupConfigFile.StartLocalSlaves :=
       Config.StartLocalSlaves (Config_ s) |}.

(** A record is well-formed when [encoding/json] can write it and reads what
    it wrote back to the same record (its strings are valid UTF-8, ...). *)
Definition well_formed (cfg : SetupConfigFile.t) : Prop :=
  exists b, json_Marshal cfg = Ok b /\ json_Unmarshal b = Ok cfg.

(** From [m] to [m'] directories have been made where there was nothing, and
    nothing else has changed. *)
Definition dirs_added (m m' : gmap string node) : Prop :=
  forall q, m' !! q = m !! q \/ (m !! q = None /\ m' !! q = Some Dir).

(** What a call leaves as it was whatever it does to the files and the
    events. *)
Definition same_instance (w w' : World) : Prop :=
  s_ w' = s_ w /\ logged w' = logged w /\ ids_drawn w' = ids_drawn w /\
  next_write w' = next_write w /\ mkdir_denied w' = mkdir_denied w.

(** The files between [w] and [w']: every state a reader can find has the
    files of [w] and, besides, new directories only. *)
Definition only_dirs_added (w w' : World) : Prop :=
  dirs_added (fs w) (fs w') /\
  exists seen,
    fs_seen w' = fs_seen w ++ seen /\ Forall (dirs_added (fs w)) seen.

(** The path and the directories above it, nearest first, the way
    [os.MkdirAll] goes up. *)
Fixpoint ancestors (fuel : nat) (path : string) : list string :=
  match fuel with
  | O => []
  | S fuel' =>
      path ::
      match parent_dir path with
      | Some parent => ancestors fuel' parent
      | None => []
      end
  end.

(** Nothing keeps [path] from being made a directory: it is not the empty
    path, no file sits at the path or above it, and the system refuses to
    make none of these directories. *)
Definition can_make (w : World) (path : string) : Prop :=
  path <> "" /\
  Forall (fun q =>
            mkdir_denied w q = false /\
            forall b rd wr, fs w !! q <> Some (File b rd wr))
    (ancestors (S (String.length path)) path).

(** The states of the files from [w] to [w'], in order: what a reader running
    next to the call can find. *)
Definition observable (w w' : World) : list (gmap string node) :=
  drop (length (fs_seen w)) (fs_seen w') ++ [fs w'].

(** The file at [path] is replaced atomically between [w] and [w']: whenever
    one looks, it is as before the call or as after it. *)
Definition replaced_atomically (path : string) (w w' : World) : Prop :=
  forall m, m ∈ observable w w' ->
    m !! path = fs w !! path \/ m !! path = fs w' !! path.

(** The configuration [startLocalSlaves] gives the slave of peer [p]: the
    clone of the parent's with the four overrides. *)
Definition slave_config (s : Service) (p : Peer.t) : Config.t :=
  Config.with_StartLocalSlaves false
    (Config.with_MasterAddress (masterAddr_of s)
       (Config.with_DataDir (Peer.DataDir p)
          (Config.with_ID (Peer.ID p) (Config_ s)))).

(** The slave started for peer [p], if one is. *)
Definition slave_of (s : Service) (p : Peer.t) : option (Config.t * Service) :=
  if bool_decide (Peer.ID p = Config.ID (Config_ s)) then None
  else
    match NewService (mustCreateIDLogger (Peer.ID p)) (slave_config s p) true
    with
    | Ok slave => Some (slave_config s p, slave)
    | Err _ => None
    end.

(** The peer [createAndStartLocalSlaves] makes in the round [index] of its
    loop from the identifier [id] it drew. *)
Definition local_peer (s : Service) (id : string) (index : Z) : Peer.t :=
  {| Peer.ID := id; Peer.Address := ""; Peer.Port := 0;
     Peer.DataDir :=
       filepath_Join (Config.DataDir (Config_ s))
         (local_slave_name (index - 1)) |}.

(** The receiver after the three assignments of a relaunch from [cfg]:
    [s.myPeers = cfg.Peers], [s.ID = cfg.ID],
    [s.AgencySize = s.myPeers.AgencySize]. *)
Definition restored (cfg : SetupConfigFile.t) (s : Service) : Service :=
  let s := set_myPeers (SetupConfigFile.Peers cfg) s in
  let s := set_Config (Config.with_ID (SetupConfigFile.ID cfg) (Config_ s)) s in
  set_Config
    (Config.with_AgencySize (peers.AgencySize (myPeers s)) (Config_ s)) s.

End service.

Notation "x <- m ;; k" := (bind m (fun x => k)).
Notation "m ;;; k" := (bind m (fun _ => k)).

(** *** More vocabulary: what each peer of a list leaves behind *)

Section service_trace.
Context {T : Types} {E : External}.
Variable NewService : Logger -> Config.t -> bool -> result error Service.

(** The events of one round of the loop of [startLocalSlaves]: none for a
    skipped peer, else the [os.MkdirAll], and the goroutine when the
    constructor succeeds. *)
Definition peer_events (s : Service) (p : Peer.t) : list Event :=
  if bool_decide (Peer.ID p = Config.ID (Config_ s)) then []
  else
    MkdirAll (Peer.DataDir p) 493 ::
    match NewService (mustCreateIDLogger (Peer.ID p)) (slave_config s p) true
    with
    | Ok slave => [GoRun (slave_config s p) slave (ctx s)]
    | Err _ => []
    end.

(** The peers of a list that [startLocalSlaves] does not skip, and among
    them those whose constructor fails, with the error. *)
Definition candidates (s : Service) (l : list Peer.t) : list Peer.t :=
  filter (fun p => Peer.ID p <> Config.ID (Config_ s)) l.

Definition construction_error (s : Service) (p : Peer.t) : option error :=
  if bool_decide (Peer.ID p = Config.ID (Config_ s)) then None
  else
    match NewService (mustCreateIDLogger (Peer.ID p)) (slave_config s p) true
    with
    | Ok _ => None
    | Err err => Some err
    end.

(** The log entries at error level. *)
Definition is_error (entry : LogEntry) : bool :=
  match level entry with
  | LError => true
  | _ => false
  end.

Definition errors (entries : list LogEntry) : list LogEntry :=
  List.filter is_error entries.

(** What the round [i] of the loop of [createAndStartLocalSlaves] adds to
    the peers when the draws so far number [d]: the identifier drawn and the
    ordinal [i + 1] of the data directory, or nothing when the draw fails. *)
Definition drawn_peer (s : Service) (d i : nat) : option Peer.t :=
  match createUniqueID_result (d + i) with
  | Ok id => Some (local_peer s id (Z.of_nat i + 2))
  | Err _ => None
  end.

Definition draw_failed (d i : nat) : bool :=
  match createUniqueID_result (d + i) with
  | Ok _ => false
  | Err _ => true
  end.

End service_trace.

(** ** package test: [WaitUntilStarterGone] *)

Module test.

(** The loop of [WaitUntilStarterGone].  [fails k] tells whether the
    [k]-th call (counting from 0) of [c.Version] returns a non-nil error:
    the starter at the endpoint is outside the program, its answers are the
    input.  [failures] is the Go [int] counter; [k] counts the queries made
    so far.  The loop has no exit but the [break], so the model runs on
    fuel: [Some k] means the [break] was taken right after query [k],
    [None] that the loop is still running when the fuel is spent. *)
Fixpoint gone_loop (fails : nat -> bool) (fuel k : nat) (failures : Z)
  : option nat :=
  match fuel with
  | O => None
  | S fuel' =>
      let failures :=
        if fails k then failures + 1  (* Version request failed *)
        else 0 in
      if failures >? 2 then Some k     (* break *)
      else                             (* time.Sleep(200ms) *)
        gone_loop fails fuel' (S k) failures
  end.

Definition WaitUntilStarterGone (fails : nat -> bool) (fuel : nat)
  : option nat :=
  gone_loop fails fuel 0%nat 0.

(** Queries [k-2], [k-1] and [k] all fail. *)
Definition three_failures_end_at (fails : nat -> bool) (k : nat) : Prop :=
  (2 <= k)%nat /\
  fails (k - 2)%nat = true /\ fails (k - 1)%nat = true /\ fails k = true.

(** The number of failed queries in a row right before query [k]. *)
Fixpoint failures_before (fails : nat -> bool) (k : nat) : nat :=
  match k with
  | O => O
  | S k' => if fails k' then S (failures_before fails k') else O
  end.

End test.

(** ** package test: the helpers of [util.go] and [server_util.go] *)

Module testutil.

(** *** [testing.T] *)

(** Arguments of the formatted messages. *)
Inductive Value : Type :=
| VString (s : string)
| VInt (i : Z)
| VBool (b : bool).

(** What a test leaves behind, in order: the calls on [t] and the requests
    it sends.  [Failed] is [t.Errorf] (the test has failed and goes on),
    [FailedNow] is [t.Fatalf] and [Skipped] is [t.Skipf] (both end the
    calling goroutine). *)
Inductive Entry : Type :=
| Logged (format : string) (args : list Value)
| Failed (format : string) (args : list Value)
| FailedNow (format : string) (args : list Value)
| Skipped (format : string) (args : list Value)
| HttpGet (url : string)
| ShutdownRequest (force : bool).

(** How a helper ends: it returns, the goroutine has exited (after
    [t.Fatalf] or [t.Skipf]), it is still in its loop when the fuel is
    spent, or a panic has ended the program. *)
Inductive Outcome (A : Type) : Type :=
| Returned (a : A)
| Exited
| Looping
| Panicked.
Arguments Returned {A} a.
Arguments Exited {A}.
Arguments Looping {A}.
Arguments Panicked {A}.

Definition Test (A : Type) : Type := list Entry -> Outcome A * list Entry.

Definition ret {A} (a : A) : Test A := fun t => (Returned a, t).
Definition bind {A B} (m : Test A) (k : A -> Test B) : Test B :=
  fun t =>
    match m t with
    | (Returned a, t') => k a t'
    | (Exited, t') => (Exited, t')
    | (Looping, t') => (Looping, t')
    | (Panicked, t') => (Panicked, t')
    end.

Definition record (e : Entry) : Test unit := fun t => (Returned tt, t ++ [e]).
Definition t_Logf (format : string) (args : list Value) : Test unit :=
  record (Logged format args).
Definition t_Errorf (format : string) (args : list Value) : Test unit :=
  record (Failed format args).
Definition t_Fatalf {A} (format : string) (args : list Value) : Test A :=
  fun t => (Exited, t ++ [FailedNow format args]).
Definition t_Skipf {A} (format : string) (args : list Value) : Test A :=
  fun t => (Exited, t ++ [Skipped format args]).

(** [t.Failed()]: some entry marks the test as failed. *)
Definition is_failure (e : Entry) : bool :=
  match e with
  | Failed _ _ | FailedNow _ _ => true
  | _ => false
  end.
Definition failures (t : list Entry) : list Entry := List.filter is_failure t.

(** *** [init] and [needTestMode] *)

(** [strings.Split(s, " ")]: the pieces of [s] between its spaces, as many
    as there are spaces plus one. *)
Fixpoint strings_Split_space (s : string) : list string :=
  match s with
  | EmptyString => [EmptyString]
  | String c s' =>
      if bool_decide (c = " "%char) then EmptyString :: strings_Split_space s'
      else
        match strings_Split_space s' with
        | piece :: pieces => String c piece :: pieces
        | [] => [String c EmptyString]
        end
  end.

(** [strings.Join(words, " ")] *)
Fixpoint strings_Join_space (words : list string) : string :=
  match words with
  | [] => EmptyString
  | [word] => word
  | word :: rest => word +:+ " " +:+ strings_Join_space rest
  end.

(** A word: a string without a space. *)
Fixpoint has_space (s : string) : bool :=
  match s with
  | EmptyString => false
  | String c s' => bool_decide (c = " "%char) || has_space s'
  end.

(** [init]: the package variables [isVerbose] and [testModes] from the
    environment ([os.Getenv] gives the empty string for an unset name). *)
Definition init (Getenv : string -> string) : bool * list string :=
  let isVerbose := negb (bool_decide (Getenv "VERBOSE" = "")) in
  let testModes := strings_Split_space (Getenv "TEST_MODES") in
  let testModes :=
    if bool_decide (length testModes = 1%nat) &&
       bool_decide (testModes !! 0%nat = Some EmptyString)
    then [] else testModes in
  (isVerbose, testModes).

(** [for _, x := range testModes { if x == testMode { return } }]: whether
    the loop returns. *)
Fixpoint mode_listed (testModes : list string) (testMode : string) : bool :=
  match testModes with
  | [] => false
  | x :: rest =>
      if bool_decide (x = testMode) then true else mode_listed rest testMode
  end.

Definition needTestMode (testModes : list string) (testMode : string)
  : Test unit :=
  if mode_listed testModes testMode then ret tt
  else if bool_decide (length testModes = 0%nat) then ret tt
  else t_Skipf "Test mode '%s' not set" [VString testMode].

(** *** The starter endpoints of [server_util.go] *)

Section endpoints.
(** [service.DefaultMasterPort], a constant of the package [service], and
    [strconv.IntSize], the size of an [int] in bits (32 or 64). *)
Variable DefaultMasterPort : Z.
Variable IntSize : Z.

(** The sum of two [int]: it wraps around in two's complement. *)
Definition int_add (a b : Z) : Z :=
  (a + b + 2 ^ (IntSize - 1)) mod 2 ^ IntSize - 2 ^ (IntSize - 1).

(** The values of an [int]. *)
Definition is_int (a : Z) : Prop :=
  - 2 ^ (IntSize - 1) <= a < 2 ^ (IntSize - 1).

Definition basePort : Z := DefaultMasterPort.

(** [fmt.Sprintf("http://localhost:%d", basePort+portOffset)] *)
Definition insecureStarterEndpoint (portOffset : Z) : string :=
  "http://localhost:" +:+ strconv_Itoa (int_add basePort portOffset).

(** [fmt.Sprintf("https://localhost:%d", basePort+portOffset)] *)
Definition secureStarterEndpoint (portOffset : Z) : string :=
  "https://localhost:" +:+ strconv_Itoa (int_add basePort portOffset).
End endpoints.

(** *** The client of the starter *)

(** Modelled from the spec: the server process descriptor of the package
    [client], which is declared elsewhere: a role tag (agent, coordinator,
    db-server, single), an IP, a port and the [isSecure] flag. *)
Inductive ServerType : Type :=
| ServerTypeAgent
| ServerTypeCoordinator
| ServerTypeDBServer
| ServerTypeSingle.

Record ServerProcess : Type := mkServerProcess
  { Type_ : ServerType;
    IP : string;
    Port : Z;
    IsSecure : bool }.

(** Modelled from the spec: the answer of the version query, a version and a
    build. *)
Record VersionInfo : Type := mkVersionInfo
  { Version : string;
    Build : string }.

(** What the helpers call and the package does not define: errors and how
    they print, the URL parser, the client of the starter and its answers,
    the HTTP client, the processes under [gexpect]. *)
Class Harness : Type :=
  { error : Type;
    errors_Cause : error -> error;
    (** [err.Error()], which is also the verb [%v] *)
    Error : error -> string;
    (** the verb [%#v] *)
    GoSyntax : error -> string;
    (** [string(c)] for the [c] of [json.Marshal] *)
    json_of : error -> string;
    URL : Type;
    url_Parse : string -> result error URL;
    API : Type;
    NewArangoStarterClient : URL -> result error API;
    ProcessList : Type;
    ServerByType : ProcessList -> ServerType -> option ServerProcess;
    (** [c.Version(ctx)] and [c.Processes(ctx)] as asked once by
        [testProcesses]; [c.Shutdown(ctx, force)]; whether the [k]-th
        version query of the gone-detection loop fails *)
    c_Version : API -> result error VersionInfo;
    c_Processes : API -> result error ProcessList;
    c_Shutdown : API -> bool -> option error;
    version_fails : API -> nat -> bool;
    (** [httpClient.Get(url)]: the error, [None] for nil *)
    httpClient_Get : string -> option error;
    SubProcess : Type;
    (** [regexp.MustCompile(str)]: the compiled expression, [None] when the
        expression does not compile and the call panics *)
    Regexp : Type;
    regexp_MustCompile : string -> option Regexp;
    (** [starter.ExpectTimeout(timeout, pattern)]: the error, [None] for
        nil *)
    ExpectTimeout : SubProcess -> Z -> Regexp -> option error;
    (** the package variable [isVerbose] *)
    isVerbose : bool }.

Section helpers.
Context {H : Harness}.

(** [describe] returns a string description of the given error. *)
Definition describe (err : option error) : string :=
  match err with
  | None => "nil"
  | Some err =>
      let cause := errors_Cause err in
      let c := json_of cause in
      let cStr := GoSyntax cause +:+ " (" +:+ c +:+ ")" in
      if negb (bool_decide (Error cause = Error err)) then
        Error err +:+ " caused by " +:+ cStr
      else cStr
  end.

(** [NewStarterClient] creates a new starter API instance for the given
    endpoint, failing the test on errors. *)
Definition NewStarterClient (endpoint : string) : Test API :=
  match url_Parse endpoint with
  | Err err =>
      t_Fatalf "Failed to parse starter endpoint: %s"
        [VString (describe (Some err))]
  | Ok ep =>
      match NewArangoStarterClient ep with
      | Err err =>
          t_Fatalf "Failed to create starter client: %s"
            [VString (describe (Some err))]
      | Ok c => ret c
      end
  end.

(** [WaitUntilStarterGone] with its client: the loop is [test.gone_loop] on
    the answers the client gets. *)
Definition WaitUntilStarterGone (endpoint : string) (fuel : nat)
  : Test unit :=
  bind (NewStarterClient endpoint) (fun c =>
  match test.gone_loop (version_fails c) fuel 0%nat 0 with
  | Some _ => ret tt
  | None => fun t => (Looping, t)
  end).

(** [ShutdownStarter] calls the starter the shutdown via the HTTP API. *)
Definition ShutdownStarter (endpoint : string) (fuel : nat) : Test unit :=
  bind (NewStarterClient endpoint) (fun c =>
  bind (record (ShutdownRequest false)) (fun _ =>
  bind (match c_Shutdown c false with
        | Some err =>
            t_Errorf "Shutdown failed: %s" [VString (describe (Some err))]
        | None => ret tt
        end) (fun _ =>
  WaitUntilStarterGone endpoint fuel))).

(** 60 seconds in nanoseconds, [time.Minute]. *)
Definition time_Minute : Z := 60000000000.

(** [fmt.Sprintf("Your %s can now be accessed with a browser at", what)] *)
Definition ready_pattern (what : string) : string :=
  "Your " +:+ what +:+ " can now be accessed with a browser at".

(** [WaitUntilStarterReady] waits until all given starter processes have
    reached the "Your cluster is ready state".  One goroutine per starter
    compiles the pattern, waits for it and, on an error, sets [result] to
    false and calls [t.Errorf]; [order] is the order in which the goroutines
    get there, [g.Wait()] lets all of them finish.  A pattern that does not
    compile makes [regexp.MustCompile] panic in the first goroutine that
    runs, which ends the program. *)
Fixpoint ready_loop (what : string) (starters : list SubProcess)
  (order : list nat) (result : bool) : Test bool :=
  match order with
  | [] => ret result
  | i :: order' =>
      match starters !! i with
      | Some starter =>
          match regexp_MustCompile (ready_pattern what) with
          | None => fun t => (Panicked, t)
          | Some pattern =>
              match ExpectTimeout starter time_Minute pattern with
              | Some err =>
                  bind (t_Errorf "Starter is not ready in time: %s"
                          [VString (describe (Some err))]) (fun _ =>
                  ready_loop what starters order' false)
              | None => ready_loop what starters order' result
              end
          end
      | None => ready_loop what starters order' result
      end
  end.

Definition WaitUntilStarterReady (what : string) (starters : list SubProcess)
  (order : list nat) : Test bool :=
  ready_loop what starters order true.

(** [testArangodReachable] tries to call some HTTP API methods of the given
    server process to make sure it is reachable. *)
Definition arangod_url (sp : ServerProcess) : string :=
  let scheme := "http" in
  let scheme := if IsSecure sp then "https" else scheme in
  scheme +:+ "://" +:+ IP sp +:+ ":" +:+ strconv_Itoa (Port sp) +:+
  "/_api/version".

Definition testArangodReachable (sp : ServerProcess) : Test unit :=
  let url := arangod_url sp in
  bind (record (HttpGet url)) (fun _ =>
  match httpClient_Get url with
  | Some _ =>
      t_Errorf "Failed to reach arangod at %s:%d"
        [VString (IP sp); VInt (Port sp)]
  | None => ret tt
  end).

Definition when (b : bool) (m : Test unit) : Test unit :=
  if b then m else ret tt.

(** [testProcesses] runs a series of tests to verify a good series of
    database servers. *)
Definition testProcesses (c : API) (mode starterEndpoint : string)
  (isSecure : bool) : Test unit :=
  (* Fetch version *)
  bind (match c_Version c with
        | Err err =>
            t_Errorf "Failed to get starter version: %s"
              [VString (describe (Some err))]
        | Ok info =>
            when isVerbose
              (t_Logf "Found starter version %s, %s"
                 [VString (Version info); VString (Build info)])
        end) (fun _ =>
  (* Fetch server processes *)
  match c_Processes c with
  | Err err =>
      t_Fatalf "Failed to get server processes: %s"
        [VString (describe (Some err))]
  | Ok processes =>
      (* Check agent *)
      bind (match ServerByType processes ServerTypeAgent with
            | Some sp =>
                bind (when (negb (Bool.eqb (IsSecure sp) isSecure))
                        (t_Errorf
                           "Invalid IsSecure on agent. Expected %v, got %v"
                           [VBool isSecure; VBool (IsSecure sp)])) (fun _ =>
                if bool_decide (mode = "single") then
                  t_Errorf "Found agent, not allowed in single mode" []
                else
                  bind (when isVerbose
                          (t_Logf "Found agent at %s:%d"
                             [VString (IP sp); VInt (Port sp)])) (fun _ =>
                  testArangodReachable sp))
            | None => ret tt
            end) (fun _ =>
      (* Check coordinator *)
      bind (match ServerByType processes ServerTypeCoordinator with
            | Some sp =>
                bind (when (negb (Bool.eqb (IsSecure sp) isSecure))
                        (t_Errorf
                           "Invalid IsSecure on coordinator. Expected %v, got %v"
                           [VBool isSecure; VBool (IsSecure sp)])) (fun _ =>
                if bool_decide (mode = "single") then
                  t_Errorf "Found coordinator, not allowed in single mode" []
                else
                  bind (when isVerbose
                          (t_Logf "Found coordinator at %s:%d"
                             [VString (IP sp); VInt (Port sp)])) (fun _ =>
                  testArangodReachable sp))
            | None =>
                when (bool_decide (mode = "cluster"))
                  (t_Errorf "No coordinator found in %s"
                     [VString starterEndpoint])
            end) (fun _ =>
      (* Check dbserver *)
      bind (match ServerByType processes ServerTypeDBServer with
            | Some sp =>
                bind (when (negb (Bool.eqb (IsSecure sp) isSecure))
                        (t_Errorf
                           "Invalid IsSecure on dbserver. Expected %v, got %v"
                           [VBool isSecure; VBool (IsSecure sp)])) (fun _ =>
                if bool_decide (mode = "single") then
                  t_Errorf "Found dbserver, not allowed in single mode" []
                else
                  bind (when isVerbose
                          (t_Logf "Found dbserver at %s:%d"
                             [VString (IP sp); VInt (Port sp)])) (fun _ =>
                  testArangodReachable sp))
            | None =>
                when (bool_decide (mode = "cluster"))
                  (t_Errorf "No dbserver found in %s"
                     [VString starterEndpoint])
            end) (fun _ =>
      (* Check single *)
      match ServerByType processes ServerTypeSingle with
      | Some sp =>
          bind (when (negb (Bool.eqb (IsSecure sp) isSecure))
                  (t_Errorf
                     "Invalid IsSecure on single. Expected %v, got %v"
                     [VBool isSecure; VBool (IsSecure sp)])) (fun _ =>
          if bool_decide (mode = "cluster") then
            t_Errorf "Found single, not allowed in cluster mode" []
          else
            bind (when isVerbose
                    (t_Logf "Found single at %s:%d"
                       [VString (IP sp); VInt (Port sp)])) (fun _ =>
            testArangodReachable sp))
      | None =>
          when (bool_decide (mode = "single"))
            (t_Errorf "No single found in %s" [VString starterEndpoint])
      end)))
  end).

(** [testCluster] and [testSingle] run a series of tests to verify a good
    cluster, a good single server. *)
Definition testCluster (starterEndpoint : string) (isSecure : bool)
  : Test API :=
  bind (NewStarterClient starterEndpoint) (fun c =>
  bind (testProcesses c "cluster" starterEndpoint isSecure) (fun _ =>
  ret c)).

Definition testSingle (starterEndpoint : string) (isSecure : bool)
  : Test API :=
  bind (NewStarterClient starterEndpoint) (fun c =>
  bind (testProcesses c "single" starterEndpoint isSecure) (fun _ =>
  ret c)).

(** *** Vocabulary of the statements *)

(** A server process is as the test expects it: its [IsSecure] is the
    expected one and its version URL answers. *)
Definition server_ok (isSecure : bool) (sp : ServerProcess) : Prop :=
  IsSecure sp = isSecure /\ httpClient_Get (arangod_url sp) = None.

(** The URLs requested, in order. *)
Definition requests (t : list Entry) : list string :=
  omap (fun e => match e with HttpGet url => Some url | _ => None end) t.

(** A helper that always returns, fails the test unless [C] holds, and
    requests the URLs [R]. *)
Definition passes (m : Test unit) (C : Prop) (R : list string) : Prop :=
  forall t, exists new,
    m t = (Returned tt, t ++ new) /\
    (failures new = [] <-> C) /\
    requests new = R.

(** The client [NewStarterClient] gets for an endpoint, if it gets one. *)
Definition client_of (endpoint : string) : option API :=
  match url_Parse endpoint with
  | Ok ep =>
      match NewArangoStarterClient ep with
      | Ok c => Some c
      | Err _ => None
      end
  | Err _ => None
  end.

(** The pattern [WaitUntilStarterReady] waits for shows up within the
    minute in the output of [starter]; the entry of the test log when it
    does not. *)
Definition ready (pattern : Regexp) (starter : SubProcess) : bool :=
  match ExpectTimeout starter time_Minute pattern with
  | None => true
  | Some _ => false
  end.

Definition not_ready_entry (pattern : Regexp) (starter : SubProcess)
  : option Entry :=
  err ← ExpectTimeout starter time_Minute pattern;
  Some (Failed "Starter is not ready in time: %s"
          [VString (describe (Some err))]).

End helpers.

End testutil.

(** * A concrete instance

    One implementation of what the theorems leave abstract, to run the
    embedding on concrete inputs: a JSON printer and parser in the place of
    [encoding/json], a plain [filepath.Join] and [net.JoinHostPort] for clean
    inputs, a counter in the place of the random identifiers. *)

Local Set Warnings "-register-all".

Module Json.

Inductive value : Type :=
| Null
| Bool (b : bool)
| Number (z : Z)
| Str (s : string)
| Array (l : list value)
| Object (l : list (string * value)).

Definition quote : ascii := Ascii.ascii_of_nat 34.
Definition backslash : ascii := Ascii.ascii_of_nat 92.

Fixpoint escape (s : string) : string :=
  match s with
  | EmptyString => EmptyString
  | String c s' =>
      if bool_decide (c = quote) || bool_decide (c = backslash)
      then String backslash (String c (escape s'))
      else String c (escape s')
  end.

Definition quoted (s : string) : string :=
  String quote (escape s) +:+ String quote EmptyString.

Fixpoint print (v : value) : string :=
  match v with
  | Null => "null"
  | Bool true => "true"
  | Bool false => "false"
  | Number z => pretty z
  | Str s => quoted s
  | Array l =>
      "[" +:+
      (fix elems (l : list value) : string :=
         match l with
         | [] => ""
         | [v] => print v
         | v :: l' => print v +:+ "," +:+ elems l'
         end) l +:+ "]"
  | Object l =>
      "{" +:+
      (fix members (l : list (string * value)) : string :=
         match l with
         | [] => ""
         | [(k, v)] => quoted k +:+ ":" +:+ print v
         | (k, v) :: l' => quoted k +:+ ":" +:+ print v +:+ "," +:+ members l'
         end) l +:+ "}"
  end.

Definition is_space (c : ascii) : bool :=
  let n := Ascii.nat_of_ascii c in
  bool_decide (n = 32 \/ n = 9 \/ n = 10 \/ n = 13)%nat.

Fixpoint skip_space (s : string) : string :=
  match s with
  | String c s' => if is_space c then skip_space s' else s
  | EmptyString => s
  end.

Fixpoint strip_prefix (p s : string) : option string :=
  match p, s with
  | EmptyString, _ => Some s
  | String a p', String b s' =>
      if bool_decide (a = b) then strip_prefix p' s' else None
  | _, _ => None
  end.

(** After the opening quote: the content up to the closing quote, and the
    rest of the text. *)
Fixpoint string_body (s : string) : option (string * string) :=
  match s with
  | EmptyString => None
  | String c s' =>
      if bool_decide (c = quote) then Some (EmptyString, s')
      else if bool_decide (c = backslash) then
        match s' with
        | String d s'' =>
            if bool_decide (d = quote) || bool_decide (d = backslash) then
              match string_body s'' with
              | Some (r, rest) => Some (String d r, rest)
              | None => None
              end
            else None
        | EmptyString => None
        end
      else
        match string_body s' with
        | Some (r, rest) => Some (String c r, rest)
        | None => None
        end
  end.

Definition digit (c : ascii) : option Z :=
  let n := Ascii.nat_of_ascii c in
  if bool_decide (48 <= n <= 57)%nat then Some (Z.of_nat n - 48) else None.

Fixpoint digits (s : string) (acc : Z) : Z * string :=
  match s with
  | String c s' =>
      match digit c with
      | Some d => digits s' (10 * acc + d)
      | None => (acc, s)
      end
  | EmptyString => (acc, s)
  end.

Definition natural (s : string) : option (Z * string) :=
  match s with
  | String c _ =>
      match digit c with
      | Some _ => Some (digits s 0)
      | None => None
      end
  | EmptyString => None
  end.

Fixpoint parse (fuel : nat) (s : string) : option (value * string) :=
  match fuel with
  | O => None
  | S fuel =>
      let s := skip_space s in
      match s with
      | EmptyString => None
      | String c s' =>
          if bool_decide (c = quote) then
            match string_body s' with
            | Some (r, rest) => Some (Str r, rest)
            | None => None
            end
          else if bool_decide (c = "["%char) then
            match skip_space s' with
            | String "]" rest => Some (Array [], rest)
            | _ => elements fuel s' []
            end
          else if bool_decide (c = "{"%char) then
            match skip_space s' with
            | String "}" rest => Some (Object [], rest)
            | _ => members fuel s' []
            end
          else if bool_decide (c = "-"%char) then
            match natural s' with
            | Some (z, rest) => Some (Number (- z), rest)
            | None => None
            end
          else
            match natural s with
            | Some (z, rest) => Some (Number z, rest)
            | None =>
                match strip_prefix "null" s with
                | Some rest => Some (Null, rest)
                | None =>
                    match strip_prefix "true" s with
                    | Some rest => Some (Bool true, rest)
                    | None =>
                        match strip_prefix "false" s with
                        | Some rest => Some (Bool false, rest)
                        | None => None
                        end
                    end
                end
            end
      end
  end
with elements (fuel : nat) (s : string) (acc : list value)
  : option (value * string) :=
  match fuel with
  | O => None
  | S fuel =>
      match parse fuel s with
      | Some (v, rest) =>
          match skip_space rest with
          | String "," rest' => elements fuel rest' (acc ++ [v])
          | String "]" rest' => Some (Array (acc ++ [v]), rest')
          | _ => None
          end
      | None => None
      end
  end
with members (fuel : nat) (s : string) (acc : list (string * value))
  : option (value * string) :=
  match fuel with
  | O => None
  | S fuel =>
      match skip_space s with
      | String c s' =>
          if bool_decide (c = quote) then
            match string_body s' with
            | Some (k, rest) =>
                match skip_space rest with
                | String ":" rest' =>
                    match parse fuel rest' with
                    | Some (v, rest'') =>
                        match skip_space rest'' with
                        | String "," r => members fuel r (acc ++ [(k, v)])
                        | String "}" r => Some (Object (acc ++ [(k, v)]), r)
                        | _ => None
                        end
                    | None => None
                    end
                | _ => None
                end
            | None => None
            end
          else None
      | EmptyString => None
      end
  end.

(** The whole text is one value. *)
Definition parse_text (s : string) : option value :=
  match parse (String.length s + 1) s with
  | Some (v, rest) =>
      match skip_space rest with
      | EmptyString => Some v
      | _ => None
      end
  | None => None
  end.

End Json.

Module Demo.

(** Plain ASCII text as bytes, and back. *)
Definition to_bytes (s : string) : bytes := String.list_byte_of_string s.
Definition of_bytes (b : bytes) : string := String.string_of_list_byte b.

(** The struct tags of [SetupConfigFile]; [Peer] and [peers] carry no tag in
    this model, their keys are the field names. *)
Definition encode_peer (p : Peer.t) : Json.value :=
  Json.Object
    [("ID", Json.Str (Peer.ID p)); ("Address", Json.Str (Peer.Address p));
     ("Port", Json.Number (Peer.Port p));
     ("DataDir", Json.Str (Peer.DataDir p))].

Definition encode_peers (P : peers.t) : Json.value :=
  Json.Object
    [("Peers", Json.Array (encode_peer <$> peers.Peers P));
     ("AgencySize", Json.Number (peers.AgencySize P))].

Definition encode_setup (cfg : SetupConfigFile.t) : Json.value :=
  Json.Object
    ([("version", Json.Str (SetupConfigFile.Version cfg));
      ("id", Json.Str (SetupConfigFile.ID cfg));
      ("peers", encode_peers (SetupConfigFile.Peers cfg))]
     ++ (* omitempty *)
     if SetupConfigFile.StartLocalSlaves cfg
     then [("start-local-slaves", Json.Bool true)] else []).

(** The member of an object for a key, the last one when it is repeated. *)
Definition member (k : string) (l : list (string * Json.value))
  : option Json.value :=
  (fun found => snd (snd found))
    <$> list_find (fun kv => fst kv = k) (reverse l).

(** A missing member or [null] leaves the zero value; a value of another
    type is an error. *)
Definition as_string (v : option Json.value) : option string :=
  match v with
  | None | Some Json.Null => Some ""
  | Some (Json.Str s) => Some s
  | _ => None
  end.
Definition as_int (v : option Json.value) : option Z :=
  match v with
  | None | Some Json.Null => Some 0
  | Some (Json.Number z) => Some z
  | _ => None
  end.
Definition as_bool (v : option Json.value) : option bool :=
  match v with
  | None | Some Json.Null => Some false
  | Some (Json.Bool b) => Some b
  | _ => None
  end.

Definition decode_peer (v : Json.value) : option Peer.t :=
  match v with
  | Json.Null => Some Peer.zero
  | Json.Object l =>
      id ← as_string (member "ID" l);
      address ← as_string (member "Address" l);
      port ← as_int (member "Port" l);
      dataDir ← as_string (member "DataDir" l);
      Some {| Peer.ID := id; Peer.Address := address; Peer.Port := port;
              Peer.DataDir := dataDir |}
  | _ => None
  end.

Definition decode_peers (v : option Json.value) : option peers.t :=
  match v with
  | None | Some Json.Null => Some (SetupConfigFile.Peers SetupConfigFile.zero)
  | Some (Json.Object l) =>
      P ← match member "Peers" l with
           | None | Some Json.Null => Some []
           | Some (Json.Array a) => mapM decode_peer a
           | _ => None
           end;
      n ← as_int (member "AgencySize" l);
      Some {| peers.Peers := P; peers.AgencySize := n |}
  | _ => None
  end.

Definition decode_setup (v : Json.value) : option SetupConfigFile.t :=
  match v with
  | Json.Null => Some SetupConfigFile.zero
  | Json.Object l =>
      version ← as_string (member "version" l);
      id ← as_string (member "id" l);
      P ← decode_peers (member "peers" l);
      flag ← as_bool (member "start-local-slaves" l);
      Some {| SetupConfigFile.Version := version; SetupConfigFile.ID := id;
              SetupConfigFile.Peers := P;
              SetupConfigFile.StartLocalSlaves := flag |}
  | _ => None
  end.

Definition Marshal (cfg : SetupConfigFile.t) : result string bytes :=
  Ok (to_bytes (Json.print (encode_setup cfg))).

Definition Unmarshal (b : bytes) : result string SetupConfigFile.t :=
  match Json.parse_text (of_bytes b) with
  | None => Err "invalid character"
  | Some v =>
      match decode_setup v with
      | None => Err "cannot unmarshal into Go value"
      | Some cfg => Ok cfg
      end
  end.

(** [filepath.Join] of a clean directory and a single name. *)
Definition Join (dir name : string) : string :=
  if bool_decide (dir = "") then name else dir +:+ "/" +:+ name.

Definition types : Types :=
  {| error := string;
     Logger := string;
     Runner := unit;
     context_Context := unit |}.

#[local] Existing Instance types.

Definition ext : External :=
  {| ErrNotExist := "no such file or directory";
     EISDIR := "is a directory";
     ENOTDIR := "not a directory";
     created_read := fun _ => None;
     created_write := fun _ => None;
     make_Peers_max := 5026338869832 (* 2^48 / 56 *);
     maskAny := fun e => e;
     mustCreateIDLogger := fun id => id;
     filepath_Join := Join;
     net_JoinHostPort := fun host port => host +:+ ":" +:+ port;
     json_Marshal := Marshal;
     json_Unmarshal := Unmarshal;
     createUniqueID_result := fun n => Ok ("slave-" +:+ pretty n) |}.

#[local] Existing Instance ext.

(** A constructor that keeps the configuration, forces the flag off for a
    local slave, and fails for none. *)
Definition NewService (l : Logger) (config : Config.t) (isLocalSlave : bool)
  : result error Service :=
  Ok {| Config_ :=
          if isLocalSlave then Config.with_StartLocalSlaves false config
          else config;
        log := l; announcePort := 8528;
        myPeers := SetupConfigFile.Peers SetupConfigFile.zero; ctx := tt |}.

(** A master with an agency of three on one host. *)
Definition master_config : Config.t :=
  {| Config.ID := "master"; Config.AgencySize := 3;
     Config.DataDir := "/data"; Config.OwnAddress := "";
     Config.MasterAddress := ""; Config.StartLocalSlaves := true |}.

Definition master_peers : peers.t :=
  {| peers.Peers :=
       [{| Peer.ID := "master"; Peer.Address := "192.168.1.7";
           Peer.Port := 8528; Peer.DataDir := "/data" |};
        {| Peer.ID := "s1"; Peer.Address := "192.168.1.7";
           Peer.Port := 8533; Peer.DataDir := "/data/local-slave-1" |};
        {| Peer.ID := "s2"; Peer.Address := "192.168.1.7";
           Peer.Port := 8538; Peer.DataDir := "/data/local-slave-2" |}];
     peers.AgencySize := 3 |}.

Definition master : Service :=
  {| Config_ := master_config; log := "main"; announcePort := 8528;
     myPeers := master_peers; ctx := tt |}.

(** The instance [s] next to the files [files] in the data directory
    [/data] of the master. *)
Definition world_of (s : Service) (files : gmap string node) : World :=
  {| s_ := s; fs := <["/data" := Dir]> files; fs_seen := []; logged := [];
     events := []; ids_drawn := 0; next_write := NoFault;
     mkdir_denied := fun _ => false |}.

Definition world (files : gmap string node) : World := world_of master files.

(** No setup file; one that cannot be read; one that is not JSON; one of an
    older version; one that was saved by an older run of this master. *)
Definition w_fresh : World := world ∅.
Definition w_locked : World :=
  world {[ "/data/setup.json" :=
             File (to_bytes "{}") (Some "permission denied")
               (Some "permission denied") ]}.
Definition w_garbage : World :=
  world {[ "/data/setup.json" :=
             File (to_bytes "{version: 0.2.1") None None ]}.
Definition old_setup : SetupConfigFile.t :=
  {| SetupConfigFile.Version := "0.1.0"; SetupConfigFile.ID := "before";
     SetupConfigFile.Peers := master_peers;
     SetupConfigFile.StartLocalSlaves := true |}.
Definition w_outdated : World :=
  world {[ "/data/setup.json" :=
             File (to_bytes (Json.print (encode_setup old_setup)))
               None None ]}.
Definition w_saved : World := snd (saveSetup w_fresh).

(** The setup file of an older run, of mode 0200: this run may write it and
    may not read it. *)
Definition w_write_only : World :=
  world {[ "/data/setup.json" :=
             File (to_bytes (Json.print (encode_setup old_setup)))
               (Some "permission denied") None ]}.

(** A process that starts with another identity, no peers and another
    agency size in the data directory where the master saved its setup. *)
Definition newcomer : Service :=
  {| Config_ :=
       {| Config.ID := "fresh"; Config.AgencySize := 5;
          Config.DataDir := "/data"; Config.OwnAddress := "192.168.1.7";
          Config.MasterAddress := ""; Config.StartLocalSlaves := false |};
     log := "main"; announcePort := 8528;
     myPeers := SetupConfigFile.Peers SetupConfigFile.zero; ctx := tt |}.

Definition w_restart : World := world_of newcomer (fs w_saved).

(** The slave that the master starts for its peer [s1], and the data
    directory of that slave holding the setup record of an older run that
    had a local slave of its own. *)
Definition slave1_config : Config.t :=
  {| Config.ID := "s1"; Config.AgencySize := 3;
     Config.DataDir := "/data/local-slave-1"; Config.OwnAddress := "";
     Config.MasterAddress := "127.0.0.1:8528";
     Config.StartLocalSlaves := false |}.

Definition slave1 : Service :=
  {| Config_ := slave1_config; log := "s1"; announcePort := 8528;
     myPeers := SetupConfigFile.Peers SetupConfigFile.zero; ctx := tt |}.

Definition stale_setup : SetupConfigFile.t :=
  {| SetupConfigFile.Version := SetupConfigVersion;
     SetupConfigFile.ID := "s1";
     SetupConfigFile.Peers :=
       {| peers.Peers :=
            [{| Peer.ID := "s1"; Peer.Address := "192.168.1.7";
                Peer.Port := 8533; Peer.DataDir := "/data/local-slave-1" |};
             {| Peer.ID := "x1"; Peer.Address := "192.168.1.7";
                Peer.Port := 8543;
                Peer.DataDir := "/data/local-slave-1/local-slave-1" |}];
          peers.AgencySize := 2 |};
     SetupConfigFile.StartLocalSlaves := true |}.

Definition w_stale : World :=
  world_of slave1
    {[ "/data/local-slave-1" := Dir;
       "/data/local-slave-1/setup.json" :=
         File (to_bytes (Json.print (encode_setup stale_setup)))
           None None ]}.

(** Queries 0 and 1 fail, query 2 succeeds, every later one fails. *)
Definition blip (k : nat) : bool := negb (Nat.eqb k 2).

(** The same externals with a first draw of [createUniqueID] that fails. *)
Definition ext_flaky : External :=
  {| ErrNotExist := "no such file or directory";
     EISDIR := "is a directory";
     ENOTDIR := "not a directory";
     created_read := fun _ => None;
     created_write := fun _ => None;
     make_Peers_max := 5026338869832 (* 2^48 / 56 *);
     maskAny := fun e => e;
     mustCreateIDLogger := fun id => id;
     filepath_Join := Join;
     net_JoinHostPort := fun host port => host +:+ ":" +:+ port;
     json_Marshal := Marshal;
     json_Unmarshal := Unmarshal;
     createUniqueID_result := fun n =>
       match n with
       | O => Err "unexpected EOF"
       | S _ => Ok ("slave-" +:+ pretty n)
       end |}.

(** The same externals with draws of [createUniqueID] that all give the
    same identifier. *)
Definition ext_colliding : External :=
  {| ErrNotExist := "no such file or directory";
     EISDIR := "is a directory";
     ENOTDIR := "not a directory";
     created_read := fun _ => None;
     created_write := fun _ => None;
     make_Peers_max := 5026338869832 (* 2^48 / 56 *);
     maskAny := fun e => e;
     mustCreateIDLogger := fun id => id;
     filepath_Join := Join;
     net_JoinHostPort := fun host port => host +:+ ":" +:+ port;
     json_Marshal := Marshal;
     json_Unmarshal := Unmarshal;
     createUniqueID_result := fun _ => Ok "deadbeef" |}.

(** TEST_MODES lists two modes, VERBOSE is not set. *)
Definition Getenv (key : string) : string :=
  if bool_decide (key = "TEST_MODES") then "localprocess docker" else "".

End Demo.

(** A starter in single mode at port 8528, one with a cluster at port 8533,
    one at port 8538 that does not list its processes; every starter
    answers two more version queries after a shutdown request. *)
Module DemoTest.
Import testutil.

Definition single_server : ServerProcess :=
  {| Type_ := ServerTypeSingle; IP := "127.0.0.1"; Port := 8529;
     IsSecure := false |}.

Definition cluster_servers : list ServerProcess :=
  [{| Type_ := ServerTypeAgent; IP := "127.0.0.1"; Port := 8534;
      IsSecure := false |};
   {| Type_ := ServerTypeCoordinator; IP := "127.0.0.1"; Port := 8535;
      IsSecure := false |};
   {| Type_ := ServerTypeDBServer; IP := "127.0.0.1"; Port := 8536;
      IsSecure := false |}].

Definition same_type (a b : ServerType) : bool :=
  match a, b with
  | ServerTypeAgent, ServerTypeAgent
  | ServerTypeCoordinator, ServerTypeCoordinator
  | ServerTypeDBServer, ServerTypeDBServer
  | ServerTypeSingle, ServerTypeSingle => true
  | _, _ => false
  end.

Definition harness : Harness :=
  {| error := string;
     errors_Cause := fun e => e;
     Error := fun e => e;
     GoSyntax := fun e => "&errors.errorString{s:" +:+ e +:+ "}";
     json_of := fun _ => "{}";
     URL := string;
     url_Parse := fun s =>
       match s with
       | String ":" _ => Err "missing protocol scheme"
       | _ => Ok s
       end;
     API := string;
     NewArangoStarterClient := fun u => Ok u;
     ProcessList := list ServerProcess;
     ServerByType := fun processes type_ =>
       List.find (fun sp => same_type (Type_ sp) type_) processes;
     c_Version := fun _ => Ok {| Version := "0.2.1"; Build := "dev" |};
     c_Processes := fun c =>
       if bool_decide (c = "http://localhost:8528") then Ok [single_server]
       else if bool_decide (c = "http://localhost:8533")
       then Ok cluster_servers
       else Err "connection refused";
     c_Shutdown := fun _ _ => None;
     version_fails := fun _ k => (2 <=? k)%nat;
     httpClient_Get := fun _ => None;
     SubProcess := bool;
     Regexp := string;
     regexp_MustCompile := fun str =>
       if bool_decide (str = ready_pattern "(") then None else Some str;
     ExpectTimeout := fun starter _ _ =>
       if starter then None else Some "timeout";
     isVerbose := true |}.

End DemoTest.

(** * Properties *)

Section service_facts.
Context {T : Types} {E : External}.
Variable NewService : Logger -> Config.t -> bool -> result error Service.

(** ** Reading the setup file back *)

Lemma relaunch_cannot_read (runner : Runner) (w : World) :
  setup_absent w \/ setup_unreadable w ->
  relaunch NewService runner w = (false, w).
Proof.
  intros Hr.
  unfold setup_absent, setup_unreadable, relaunch, bind, self,
    ioutil_ReadFile, setup_path in *.
  simpl. destruct Hr as [-> | [(b & e & wr & ->) | ->]]; reflexivity.
Qed.

Lemma relaunch_cannot_parse (runner : Runner) (w : World) b err :
  setup_content w b ->
  json_Unmarshal b = Err err ->
  relaunch NewService runner w =
    (false,
     snd (Warningf "Failed to unmarshal existing %s: %#v"
            [AString setupFileName; AError err] w)).
Proof.
  intros [wr Hf] Hu.
  unfold relaunch, bind, self, ioutil_ReadFile, setup_path in *.
  simpl. rewrite Hf, Hu. reflexivity.
Qed.

Lemma relaunch_outdated (runner : Runner) (w : World) b cfg :
  setup_content w b ->
  json_Unmarshal b = Ok cfg ->
  SetupConfigFile.Version cfg <> SetupConfigVersion ->
  relaunch NewService runner w =
    (false,
     snd (Warningf "%s is outdated. Starting fresh..."
            [AString setupFileName] w)).
Proof.
  intros [wr Hf] Hu Hv.
  unfold relaunch, bind, self, ioutil_ReadFile, setup_path in *.
  simpl. rewrite Hf, Hu. rewrite bool_decide_eq_false_2 by done. reflexivity.
Qed.



Lemma relaunch_valid (runner : Runner) (w : World) cfg :
  setup_valid w cfg ->
  relaunch NewService runner w =
    (let s1 := restored cfg (s_ w) in
     set_self s1 ;;;
     Infof "Relaunching service with id '%s' on %s:%d..."
       [AString (Config.ID (Config_ s1));
        AString (Config.OwnAddress (Config_ s1));
        AInt (announcePort s1)] ;;;
     startHTTPServer ;;;
     wg <- (if SetupConfigFile.StartLocalSlaves cfg
            then startLocalSlaves NewService 0
                   (peers.Peers (SetupConfigFile.Peers cfg))
            else ret 0) ;;
     startRunning runner ;;;
     emit (WgWait wg) ;;;
     ret true) w.
Proof.
  intros (b & [wr Hf] & Hu & Hv).
  unfold relaunch, bind, self, ioutil_ReadFile, setup_path in *.
  simpl. rewrite Hf, Hu. rewrite bool_decide_eq_true_2 by done. reflexivity.
Qed.


(** ** Starting the slaves *)

(** Directories are only ever added. *)
Lemma dirs_added_refl (m : gmap string node) : dirs_added m m.
Proof. intros q. by left. Qed.

Lemma dirs_added_trans (m1 m2 m3 : gmap string node) :
  dirs_added m1 m2 -> dirs_added m2 m3 -> dirs_added m1 m3.
Proof.
  intros H12 H23 q. destruct (H12 q) as [Ha | [Ha Ha']];
    destruct (H23 q) as [Hb | [Hb Hb']].
  - left. congruence.
  - right. split; congruence.
  - right. split; congruence.
  - congruence.
Qed.

Lemma dirs_added_insert (m : gmap string node) (path : string) :
  m !! path = None -> dirs_added m (<[path := Dir]> m).
Proof.
  intros Hnone q. destruct (decide (q = path)) as [-> | Hne].
  - right. by rewrite lookup_insert_eq.
  - left. by rewrite lookup_insert_ne.
Qed.

Lemma only_dirs_added_refl (w w' : World) :
  fs w' = fs w -> fs_seen w' = fs_seen w -> only_dirs_added w w'.
Proof.
  intros Hfs Hseen. split.
  - rewrite Hfs. apply dirs_added_refl.
  - exists []. by rewrite app_nil_r.
Qed.

Lemma only_dirs_added_trans (w1 w2 w3 : World) :
  only_dirs_added w1 w2 -> only_dirs_added w2 w3 -> only_dirs_added w1 w3.
Proof.
  intros [H12 (seen & Hseen & Hall)] [H23 (seen' & Hseen' & Hall')]. split.
  - by eapply dirs_added_trans.
  - exists (seen ++ seen'). split.
    + by rewrite Hseen', Hseen, app_assoc.
    + apply Forall_app. split; [exact Hall |].
      eapply Forall_impl; [exact Hall' |].
      intros m Hm. by eapply dirs_added_trans.
Qed.

Lemma os_Mkdir_run (path : string) (w : World) :
  let r := os_Mkdir path w in
  same_instance w (snd r) /\ events (snd r) = events w /\
  only_dirs_added w (snd r).
Proof.
  unfold os_Mkdir, same_instance. simpl.
  destruct (fs w !! path) eqn:Hp; [| destruct (_ || _)]; simpl.
  1, 2: repeat split; by apply only_dirs_added_refl.
  repeat split.
  - by apply dirs_added_insert.
  - exists [fs w]. split; [reflexivity |].
    constructor; [apply dirs_added_refl | constructor].
Qed.

Lemma MkdirAll_from_run (fuel : nat) :
  forall (path : string) (w : World),
    let r := MkdirAll_from fuel path w in
    same_instance w (snd r) /\ events (snd r) = events w /\
    only_dirs_added w (snd r).
Proof.
  unfold same_instance.
  induction fuel as [| fuel IH]; intros path w; cbn [MkdirAll_from].
  - destruct (fs w !! path) as [[] |]; simpl;
      repeat split; by apply only_dirs_added_refl.
  - destruct (fs w !! path) as [[] |]; simpl.
    1, 2: repeat split; by apply only_dirs_added_refl.
    unfold bind.
    destruct (parent_dir path) as [parent |].
    + specialize (IH parent w). cbv zeta in IH.
      destruct (MkdirAll_from fuel parent w) as [ok w1]. simpl in IH.
      destruct IH as ((Hs & Hl & Hi & Hn & Hd) & He & Hfs).
      destruct ok.
      * pose proof (os_Mkdir_run path w1) as Hm. cbv zeta in Hm.
        unfold same_instance in Hm.
        destruct (os_Mkdir path w1) as [ok2 w2]. simpl in Hm |- *.
        destruct Hm as ((Hs' & Hl' & Hi' & Hn' & Hd') & He' & Hfs').
        assert (only_dirs_added w w2) by (by eapply only_dirs_added_trans).
        destruct ok2; unfold ret, IsDir; simpl.
        all: split; [repeat split; congruence |].
        all: split; [congruence | done].
      * simpl. done.
    + unfold ret, IsDir.
      pose proof (os_Mkdir_run path w) as Hm. cbv zeta in Hm.
      destruct (os_Mkdir path w) as [[] w2]; exact Hm.
Qed.

Lemma os_MkdirAll_run (path : string) (perm : Z) (w : World) :
  let r := os_MkdirAll path perm w in
  same_instance w (snd r) /\
  events (snd r) = events w ++ [MkdirAll path perm] /\
  only_dirs_added w (snd r).
Proof.
  unfold os_MkdirAll. generalize (S (String.length path)). intros fuel.
  unfold bind, emit. simpl.
  match goal with
  | |- context [MkdirAll_from ?f ?p ?w1] =>
      pose proof (MkdirAll_from_run f p w1) as Hm
  end.
  cbv zeta in Hm. destruct (MkdirAll_from _ _ _) as [ok w2].
  simpl in Hm |- *. exact Hm.
Qed.

(** What one round of the loop leaves untouched, and what it starts. *)
Lemma startLocalSlave_run (index : nat) (p : Peer.t) (wg : WaitGroup)
  (w : World) :
  let r := startLocalSlave NewService (masterAddr_of (s_ w)) index p wg w in
  s_ (snd r) = s_ w /\ only_dirs_added w (snd r) /\
  mkdir_denied (snd r) = mkdir_denied w /\
  ids_drawn (snd r) = ids_drawn w /\
  launched (events (snd r)) =
    launched (events w) ++ option_list (slave_of NewService (s_ w) p) /\
  fst r = wg + Z.of_nat (length (option_list (slave_of NewService (s_ w) p))).
Proof.
  unfold startLocalSlave, slave_of, slave_config, bind, self. simpl.
  case_bool_decide as Hid; simpl.
  - rewrite app_nil_r. split; [reflexivity |].
    split; [by apply only_dirs_added_refl |]. repeat split; lia.
  - match goal with
    | |- context [os_MkdirAll ?d ?m w] =>
        pose proof (os_MkdirAll_run d m w) as Hm
    end.
    cbv zeta in Hm. unfold same_instance in Hm.
    destruct (os_MkdirAll _ _ w) as [[] w1]. simpl in Hm.
    destruct Hm as ((Hs & Hl & Hi & Hn & Hd) & He & Hfs).
    destruct (NewService _ _ true) as [slave | err]; simpl;
      rewrite ?He; unfold launched; rewrite ?omap_app; simpl;
      rewrite ?app_nil_r.
    all: split; [exact Hs |].
    all: split; [split; [apply Hfs | simpl; apply Hfs] |].
    all: repeat split; try done; lia.
Qed.

Lemma startLocalSlaves_loop (ma : string) (l : list Peer.t) :
  forall (index : nat) (wg : WaitGroup) (w : World),
    ma = masterAddr_of (s_ w) ->
    let r := range_loop (startLocalSlave NewService ma) index l wg w in
    s_ (snd r) = s_ w /\ only_dirs_added w (snd r) /\
    mkdir_denied (snd r) = mkdir_denied w /\
    ids_drawn (snd r) = ids_drawn w /\
    launched (events (snd r)) =
      launched (events w) ++ omap (slave_of NewService (s_ w)) l /\
    fst r = wg + Z.of_nat (length (omap (slave_of NewService (s_ w)) l)).
Proof.
  induction l as [| p l IH]; intros index wg w ->; simpl.
  - rewrite app_nil_r. split; [reflexivity |].
    split; [by apply only_dirs_added_refl |]. repeat split; lia.
  - unfold bind.
    pose proof (startLocalSlave_run index p wg w) as Hp. simpl in Hp.
    destruct (startLocalSlave NewService (masterAddr_of (s_ w)) index p wg w)
      as [wg1 w1]. simpl in Hp.
    destruct Hp as (Hs & Hfs & Hden & Hids & Hl & Hwg).
    specialize (IH (S index) wg1 w1). rewrite Hs in IH.
    specialize (IH eq_refl). simpl in IH.
    destruct IH as (Hs' & Hfs' & Hden' & Hids' & Hl' & Hwg').
    subst wg1. rewrite Hs', Hden', Hids', Hl', Hwg', Hl, Hden, Hids.
    split; [reflexivity |].
    split; [by eapply only_dirs_added_trans |].
    destruct (slave_of NewService (s_ w) p) as [x |]; simpl;
      rewrite <- ?app_assoc; simpl; rewrite ?app_nil_r;
      unfold omap; repeat split; lia.
Qed.


Lemma startLocalSlaves_run (wg : WaitGroup) (peers : list Peer.t) (w : World) :
  let r := startLocalSlaves NewService wg peers w in
  s_ (snd r) =
    set_log (mustCreateIDLogger (Config.ID (Config_ (s_ w)))) (s_ w) /\
  only_dirs_added w (snd r) /\
  mkdir_denied (snd r) = mkdir_denied w /\
  ids_drawn (snd r) = ids_drawn w /\
  launched (events (snd r)) =
    launched (events w) ++ omap (slave_of NewService (s_ w)) peers /\
  fst r = wg + Z.of_nat (length (omap (slave_of NewService (s_ w)) peers)).
Proof.
  unfold startLocalSlaves, bind, self, set_self, Infof, logf. simpl.
  match goal with
  | |- context [range_loop _ _ _ _ ?w1] =>
      pose proof (startLocalSlaves_loop (masterAddr_of (s_ w1)) peers
                    0%nat wg w1 eq_refl) as Hl
  end.
  simpl in Hl. exact Hl.
Qed.

(** ** Creating the peers of the slaves *)

Lemma createLocalPeer_ok (index : Z) (acc : list Peer.t) (w : World) id :
  createUniqueID_result (ids_drawn w) = Ok id ->
  createLocalPeer index acc w =
    (acc ++ [local_peer (s_ w) id index], snd (createUniqueID w)).
Proof.
  intros Hid. unfold createLocalPeer, bind, createUniqueID, self.
  rewrite Hid. reflexivity.
Qed.

Lemma createLocalPeers_loop (indices : list Z) :
  forall (ids : list string) (acc : list Peer.t) (w : World),
    length ids = length indices ->
    (forall i id, ids !! i = Some id ->
       createUniqueID_result (ids_drawn w + i)%nat = Ok id) ->
    let r := for_loop createLocalPeer indices acc w in
    fst r = acc ++ zip_with (local_peer (s_ w)) ids indices /\
    s_ (snd r) = s_ w /\ fs (snd r) = fs w /\ fs_seen (snd r) = fs_seen w /\
    logged (snd r) = logged w /\ events (snd r) = events w /\
    ids_drawn (snd r) = (ids_drawn w + length ids)%nat.
Proof.
  induction indices as [| index indices IH]; intros ids acc w Hlen Hids.
  - destruct ids; [| done]. simpl. rewrite app_nil_r. repeat split; lia.
  - destruct ids as [| id ids]; [done |]. simpl in Hlen.
    cbn [for_loop]. unfold bind.
    pose proof (Hids 0%nat id eq_refl) as H0. rewrite Nat.add_0_r in H0.
    rewrite (createLocalPeer_ok index acc w id H0).
    specialize (IH ids (acc ++ [local_peer (s_ w) id index])
                  (snd (createUniqueID w))).
    cbv zeta in IH.
    destruct IH as (Hr & Hs & Hfs & Hseen & Hlog & Hev & Hd).
    + lia.
    + intros i id' Hi. specialize (Hids (S i) id' Hi). simpl.
      rewrite <- Nat.add_succ_r. exact Hids.
    + cbv zeta. rewrite Hr, Hs, Hfs, Hseen, Hlog, Hev, Hd. simpl.
      rewrite <- app_assoc. repeat split; lia.
Qed.


(** ** Saving the setup *)

Lemma saveSetup_nil (w w' : World) :
  saveSetup w = (None, w') ->
  exists b,
    json_Marshal (setup_of (s_ w)) = Ok b /\
    s_ w' = s_ w /\
    fs w' =
      <[setup_path (s_ w) := File b (setup_mode w).1 (setup_mode w).2]>
        (fs w) /\
    fs_seen w' =
      fs_seen w ++
      [fs w;
       <[setup_path (s_ w) := File [] (setup_mode w).1 (setup_mode w).2]>
         (fs w)] /\
    logged w' = logged w /\ events w' = events w /\
    ids_drawn w' = ids_drawn w.
Proof.
  unfold saveSetup, bind, self, setup_of, setup_mode, setup_path. simpl.
  destruct (json_Marshal _) as [b | err]; simpl; [| discriminate].
  unfold ioutil_WriteFile, bind, fs_step, ret. simpl.
  intros Hsave. exists b. split; [reflexivity |].
  destruct (fs w !! filepath_Join _ _) as [[c rd [e |] |] |];
    simpl in Hsave; try discriminate.
  2: destruct (parent_dir _) as [parent |];
       [destruct (fs w !! parent) as [[] |] |];
       simpl in Hsave; try discriminate.
  all: destruct (next_write w); simpl in Hsave; try discriminate;
    injection Hsave as <-; simpl;
    rewrite insert_insert_eq, <- app_assoc; repeat split.
Qed.

(** [saveSetup] returns nil when the record can be serialized, the setup
    file is not there or can be opened for writing, and the disk plays
    along. *)
Lemma saveSetup_writes (w : World) b :
  json_Marshal (setup_of (s_ w)) = Ok b ->
  (exists c rd, fs w !! setup_path (s_ w) = Some (File c rd None)) ->
  next_write w = NoFault ->
  fst (saveSetup w) = None.
Proof.
  unfold saveSetup, bind, self, setup_of, setup_path. simpl.
  intros -> Hacc Hnf. simpl.
  unfold ioutil_WriteFile, bind, fs_step, ret. simpl. rewrite Hnf.
  destruct Hacc as (c & rd & ->). reflexivity.
Qed.

(** C1, as amended.  After [saveSetup] returned nil for an instance with
    peer list [P], identifier [id] and start-local-slaves flag [flag], the
    setup file holds exactly what [json.Marshal] gave for the record of
    [P], [id], [flag] and the version [SetupConfigVersion].  Reading the
    file back, as [relaunch] does, gives these bytes when the file can be
    opened for reading, and the error of the open otherwise: a file that
    can only be written is saved and not read back.  Decoding the bytes
    gives a record with these peers, this id, this flag and the current
    version exactly when the record is well-formed, that is when
    [json.Unmarshal] undoes [json.Marshal] on it. *)
Theorem setup_round_trip (P : peers.t) (id : string) (flag : bool)
  (w w' : World) :
  myPeers (s_ w) = P ->
  Config.ID (Config_ (s_ w)) = id ->
  Config.StartLocalSlaves (Config_ (s_ w)) = flag ->
  saveSetup w = (None, w') ->
  let record :=
    {| SetupConfigFile.Version := SetupConfigVersion;
       SetupConfigFile.ID := id;
       SetupConfigFile.Peers := P;
       SetupConfigFile.StartLocalSlaves := flag |} in
  exists b,
    json_Marshal record = Ok b /\
    fs w' !! setup_path (s_ w') =
      Some (File b (setup_mode w).1 (setup_mode w).2) /\
    ioutil_ReadFile (setup_path (s_ w')) w' =
      (match (setup_mode w).1 with
       | None => Ok b
       | Some e => Err e
       end, w') /\
    ((exists cfg,
        json_Unmarshal b = Ok cfg /\
        SetupConfigFile.Peers cfg = P /\
        SetupConfigFile.ID cfg = id /\
        SetupConfigFile.StartLocalSlaves cfg = flag /\
        SetupConfigFile.Version cfg = SetupConfigVersion) <->
     well_formed record).
Proof.
  intros HP Hid Hflag Hsave record.
  destruct (saveSetup_nil w w' Hsave) as (b & Hm & Hs & Hfs & _).
  unfold setup_of in Hm. rewrite HP, Hid, Hflag in Hm. fold record in Hm.
  assert (Hfile : fs w' !! setup_path (s_ w') =
                    Some (File b (setup_mode w).1 (setup_mode w).2))
    by (rewrite Hs, Hfs; apply lookup_insert_eq).
  exists b. split; [exact Hm |]. split; [exact Hfile |]. split.
  - unfold ioutil_ReadFile. rewrite Hfile.
    destruct (setup_mode w).1; reflexivity.
  - unfold well_formed. split.
    + intros (cfg & Hu & HP' & Hid' & Hflag' & Hv).
      exists b. split; [exact Hm |]. rewrite Hu. f_equal.
      destruct cfg; simpl in *. subst record. congruence.
    + intros (b' & Hm' & Hu). rewrite Hm in Hm'. injection Hm' as <-.
      exists record. split; [exact Hu |]. done.
Qed.

(** ** Relaunch or fresh start *)

Lemma relaunch_true_or_false (runner : Runner) (w : World) :
  (exists cfg, setup_valid w cfg) \/
  setup_absent w \/ setup_unreadable w \/ setup_unparsable w \/
  setup_outdated w.
Proof.
  unfold setup_valid, setup_absent, setup_unreadable, setup_unparsable,
    setup_outdated, setup_content.
  destruct (fs w !! setup_path (s_ w)) as [[b [e |] wr |] |] eqn:Hf.
  - right. right. left. left. exists b, e, wr. done.
  - destruct (json_Unmarshal b) as [cfg | err] eqn:Hu.
    + destruct (decide (SetupConfigFile.Version cfg = SetupConfigVersion)).
      * left. exists cfg, b. split; [by exists wr | done].
      * right. right. right. right. exists b, cfg.
        split; [by exists wr | done].
    + right. right. right. left. exists b, err.
      split; [by exists wr | done].
  - right. right. left. right. done.
  - right. left. done.
Qed.

Lemma relaunch_valid_true (runner : Runner) (w : World) cfg :
  setup_valid w cfg -> fst (relaunch NewService runner w) = true.
Proof.
  intros Hv. rewrite (relaunch_valid runner w cfg Hv).
  unfold bind, set_self, Infof, logf, startHTTPServer, startRunning, emit, ret.
  simpl.
  destruct (SetupConfigFile.StartLocalSlaves cfg); simpl.
  - destruct (startLocalSlaves _ _ _ _). reflexivity.
  - reflexivity.
Qed.

(** The four ways to a fresh start, with what each leaves behind. *)
Lemma relaunch_fresh (runner : Runner) (w : World) :
  setup_absent w \/ setup_unreadable w \/ setup_unparsable w \/
  setup_outdated w ->
  let r := relaunch NewService runner w in
  fst r = false /\
  s_ (snd r) = s_ w /\ fs (snd r) = fs w /\ fs_seen (snd r) = fs_seen w /\
  events (snd r) = events w /\ ids_drawn (snd r) = ids_drawn w.
Proof.
  intros [Ha | [Hr | [(b & err & Hf & Hu) | (b & cfg & Hf & Hu & Hv)]]].
  - rewrite relaunch_cannot_read by (left; exact Ha). done.
  - rewrite relaunch_cannot_read by (right; exact Hr). done.
  - rewrite (relaunch_cannot_parse runner w b err Hf Hu). done.
  - rewrite (relaunch_outdated runner w b cfg Hf Hu Hv). done.
Qed.

Lemma relaunch_false_inv (runner : Runner) (w : World) :
  fst (relaunch NewService runner w) = false ->
  setup_absent w \/ setup_unreadable w \/ setup_unparsable w \/
  setup_outdated w.
Proof.
  intros Hr. destruct (relaunch_true_or_false runner w) as [[cfg Hv] | Hc].
  - rewrite (relaunch_valid_true runner w cfg Hv) in Hr. discriminate.
  - exact Hc.
Qed.


Lemma relaunch_warns (runner : Runner) (w : World) :
  setup_unparsable w \/ setup_outdated w ->
  exists entry,
    level entry = LWarning /\ via entry = log (s_ w) /\
    logged (snd (relaunch NewService runner w)) = logged w ++ [entry].
Proof.
  intros [(b & err & Hf & Hu) | (b & cfg & Hf & Hu & Hv)].
  - rewrite (relaunch_cannot_parse runner w b err Hf Hu). simpl.
    eexists (mkLogEntry _ _ _ _). simpl. repeat split.
  - rewrite (relaunch_outdated runner w b cfg Hf Hu Hv). simpl.
    eexists (mkLogEntry _ _ _ _). simpl. repeat split.
Qed.

(** C2, as amended.  [relaunch] returns false in exactly four cases: the
    setup file does not exist, it exists but cannot be read, it is read but
    is not the JSON of a setup record, or it parses with a version other than
    [SetupConfigVersion].  In the last two cases one warning is logged.  The
    call always returns (never fatal), and with false it leaves the instance,
    the files and the events as they were: nothing is partly applied. *)
Theorem relaunch_fresh_start_cases (runner : Runner) (w : World) :
  let r := relaunch NewService runner w in
  (fst r = false <->
     setup_absent w \/ setup_unreadable w \/ setup_unparsable w \/
     setup_outdated w) /\
  (setup_unparsable w \/ setup_outdated w ->
     exists entry,
       level entry = LWarning /\ logged (snd r) = logged w ++ [entry]) /\
  (fst r = false ->
     s_ (snd r) = s_ w /\ fs (snd r) = fs w /\ fs_seen (snd r) = fs_seen w /\
     events (snd r) = events w).
Proof.
  cbv zeta. split; [split |]; [| | split].
  - apply relaunch_false_inv.
  - intros Hc. apply (relaunch_fresh runner w Hc).
  - intros Hc. destruct (relaunch_warns runner w Hc) as (entry & Hl & _ & He).
    exists entry. done.
  - intros Hr. apply relaunch_false_inv in Hr.
    destruct (relaunch_fresh runner w Hr) as (_ & Hs & Hfs & Hseen & Hev & _).
    done.
Qed.

(** C9.  A fresh start has no side effect on what the instance owns: when
    [relaunch] returns false, the identifier, the peer list and the agency
    size of the instance are unchanged, and no file was written, so the setup
    file is as it was and the next attempt decides the same way. *)
Theorem relaunch_fresh_start_frame (runner : Runner) (w : World) :
  fst (relaunch NewService runner w) = false ->
  let w' := snd (relaunch NewService runner w) in
  Config.ID (Config_ (s_ w')) = Config.ID (Config_ (s_ w)) /\
  myPeers (s_ w') = myPeers (s_ w) /\
  Config.AgencySize (Config_ (s_ w')) = Config.AgencySize (Config_ (s_ w)) /\
  fs w' = fs w /\ fs_seen w' = fs_seen w /\
  fs w' !! setup_path (s_ w') = fs w !! setup_path (s_ w) /\
  fst (relaunch NewService runner w') = false.
Proof.
  intros Hr. cbv zeta.
  pose proof (relaunch_false_inv runner w Hr) as Hc.
  destruct (relaunch_fresh runner w Hc) as (_ & Hs & Hfs & Hseen & _).
  rewrite Hs, Hfs, Hseen. repeat split.
  apply relaunch_fresh.
  unfold setup_absent, setup_unreadable, setup_unparsable, setup_outdated,
    setup_content in *.
  rewrite Hs, Hfs. exact Hc.
Qed.

(** C10.  A setup file that exists but cannot be read makes [relaunch]
    return false without a word: the world after the call is the world
    before it, log included, exactly as when the file does not exist.  The
    parse failure and the version mismatch return false too, but each adds a
    warning to the log. *)
Theorem relaunch_unreadable_silent (runner : Runner) (w : World) :
  (setup_unreadable w -> relaunch NewService runner w = (false, w)) /\
  (setup_absent w -> relaunch NewService runner w = (false, w)) /\
  (setup_unparsable w \/ setup_outdated w ->
     fst (relaunch NewService runner w) = false /\
     exists entry,
       level entry = LWarning /\
       logged (snd (relaunch NewService runner w)) = logged w ++ [entry]).
Proof.
  split; [| split].
  - intros Hr. apply relaunch_cannot_read. right. exact Hr.
  - intros Ha. apply relaunch_cannot_read. left. exact Ha.
  - intros Hc. split.
    + apply relaunch_fresh. right. right. exact Hc.
    + destruct (relaunch_warns runner w Hc) as (entry & Hl & _ & He).
      exists entry. done.
Qed.


(** ** The slaves of a relaunch *)

Lemma slave_of_Some (s : Service) (p : Peer.t) config slave :
  slave_of NewService s p = Some (config, slave) ->
  Peer.ID p <> Config.ID (Config_ s) /\
  config = slave_config s p /\
  NewService (mustCreateIDLogger (Peer.ID p)) config true = Ok slave.
Proof.
  unfold slave_of. case_bool_decide as Hid; [discriminate |].
  destruct (NewService _ _ true) as [sv | err] eqn:Hn; [| discriminate].
  intros [= <- <-]. done.
Qed.

Lemma launched_app (evs evs' : list Event) :
  launched (evs ++ evs') = launched evs ++ launched evs'.
Proof. apply omap_app. Qed.

(** C3.  With a setup file that parses to [cfg] at the current version,
    [relaunch] returns true with the identifier and the peer list of [cfg]
    in the instance and the agency size taken from that peer list; it draws
    no new identifier, and to the files it does nothing but add the
    directories of the slaves that are missing; and when the
    start-local-slaves flag of [cfg] is set it calls [startLocalSlaves] on
    the peer list of [cfg], so that every slave started comes from a peer of
    that list. *)
Theorem relaunch_restores (runner : Runner) (w : World)
  (cfg : SetupConfigFile.t) :
  setup_valid w cfg ->
  let r := relaunch NewService runner w in
  let w' := snd r in
  let P := peers.Peers (SetupConfigFile.Peers cfg) in
  fst r = true /\
  Config.ID (Config_ (s_ w')) = SetupConfigFile.ID cfg /\
  myPeers (s_ w') = SetupConfigFile.Peers cfg /\
  Config.AgencySize (Config_ (s_ w')) =
    peers.AgencySize (SetupConfigFile.Peers cfg) /\
  ids_drawn w' = ids_drawn w /\ only_dirs_added w w' /\
  (SetupConfigFile.StartLocalSlaves cfg = false ->
     launched (events w') = launched (events w)) /\
  (SetupConfigFile.StartLocalSlaves cfg = true ->
     (exists w1,
        s_ w1 = restored cfg (s_ w) /\
        events w1 = events w ++ [StartHTTPServer] /\
        ids_drawn w1 = ids_drawn w /\
        let r2 := startLocalSlaves NewService 0 P w1 in
        events w' = events (snd r2) ++ [StartRunning runner; WgWait (fst r2)])
     /\
     exists L,
       launched (events w') = launched (events w) ++ L /\
       forall config slave, (config, slave) ∈ L ->
         exists p, p ∈ P /\
           Config.ID config = Peer.ID p /\
           Config.DataDir config = Peer.DataDir p /\
           Config.AgencySize config =
             peers.AgencySize (SetupConfigFile.Peers cfg)).
Proof.
  intros Hv. cbv zeta. rewrite (relaunch_valid runner w cfg Hv).
  unfold bind, set_self, Infof, logf, startHTTPServer, startRunning, emit, ret.
  simpl.
  destruct (SetupConfigFile.StartLocalSlaves cfg) eqn:Hflag; simpl.
  - match goal with
    | |- context [startLocalSlaves _ _ _ ?w1] =>
        pose proof (startLocalSlaves_run 0 (peers.Peers (SetupConfigFile.Peers cfg)) w1)
          as Hrun;
        set (W1 := w1) in *
    end.
    cbv zeta in Hrun.
    destruct (startLocalSlaves NewService 0 _ W1) as [wg2 w2] eqn:Hsl.
    simpl in Hrun. destruct Hrun as (Hs & Hfs & _ & Hids & Hl & _).
    simpl. rewrite Hs, Hids. simpl.
    do 5 (split; [reflexivity |]).
    split; [exact Hfs |]. split; [discriminate |]. intros _. split.
    + exists W1. subst W1. simpl. repeat split.
      rewrite Hsl. simpl. rewrite <- app_assoc. reflexivity.
    + exists (omap (slave_of NewService (restored cfg (s_ w)))
                (peers.Peers (SetupConfigFile.Peers cfg))).
      split.
      * rewrite !launched_app, Hl. subst W1. simpl.
        rewrite launched_app. simpl. rewrite !app_nil_r. reflexivity.
      * intros config slave Hin.
        apply list_elem_of_omap in Hin as (p & Hp & Hsome).
        apply slave_of_Some in Hsome as (_ & -> & _).
        exists p. subst W1. done.
  - do 5 (split; [reflexivity |]).
    split; [by apply only_dirs_added_refl |].
    split; [| discriminate].
    intros _. rewrite !launched_app. simpl. rewrite !app_nil_r. reflexivity.
Qed.


Lemma saveSetup_observable (w w' : World) :
  saveSetup w = (None, w') ->
  exists b rd wr,
    json_Marshal (setup_of (s_ w)) = Ok b /\
    setup_mode w = (rd, wr) /\
    fs w' = <[setup_path (s_ w) := File b rd wr]> (fs w) /\
    observable w w' =
      [fs w;
       <[setup_path (s_ w) := File [] rd wr]> (fs w);
       <[setup_path (s_ w) := File b rd wr]> (fs w)].
Proof.
  intros Hsave.
  destruct (saveSetup_nil w w' Hsave) as (b & Hm & Hs & Hfs & Hseen & _).
  exists b, (setup_mode w).1, (setup_mode w).2.
  split; [exact Hm |]. split; [by destruct (setup_mode w) |].
  split; [exact Hfs |].
  unfold observable. rewrite Hseen, Hfs, drop_app_length. reflexivity.
Qed.

(** C4, as amended.  [saveSetup] replaces the setup record in place: its one
    [ioutil.WriteFile] on [<dataDir>/setup.json] first truncates that file
    and then writes the record, with no temporary file and no rename.  From
    the call to its nil return the files pass through three states (as
    before, setup file empty, setup file complete), the setup file ends
    holding the whole record, and no other path changes. *)
Theorem saveSetup_writes_in_place (w w' : World) :
  saveSetup w = (None, w') ->
  exists b rd wr,
    json_Marshal (setup_of (s_ w)) = Ok b /\
    observable w w' =
      [fs w;
       <[setup_path (s_ w) := File [] rd wr]> (fs w);
       <[setup_path (s_ w) := File b rd wr]> (fs w)] /\
    fs w' !! setup_path (s_ w) = Some (File b rd wr) /\
    forall m q, m ∈ observable w w' -> q <> setup_path (s_ w) ->
      m !! q = fs w !! q.
Proof.
  intros Hsave.
  destruct (saveSetup_observable w w' Hsave)
    as (b & rd & wr & Hm & _ & Hfs & Hobs).
  exists b, rd, wr. split; [exact Hm |]. split; [exact Hobs |]. split.
  - rewrite Hfs. apply lookup_insert_eq.
  - intros m q Hin Hq. rewrite Hobs in Hin.
    rewrite !elem_of_cons in Hin.
    destruct Hin as [-> | [-> | [-> | Hin]]].
    + reflexivity.
    + apply lookup_insert_ne. congruence.
    + apply lookup_insert_ne. congruence.
    + by apply elem_of_nil in Hin.
Qed.

(** ** The configuration of the slaves *)

(** C6.  Every slave that [startLocalSlaves] starts is given the same master
    address, computed from the parent alone: the host is [127.0.0.1] when the
    parent's own address is the empty string and the parent's own address,
    as it is, otherwise; the port is the parent's announce port in decimal;
    the two are joined by [net.JoinHostPort]. *)
Theorem slaves_master_address (wg : Z) (peers : list Peer.t) (w : World) :
  let s := s_ w in
  let w' := snd (startLocalSlaves NewService wg peers w) in
  exists L,
    launched (events w') = launched (events w) ++ L /\
    forall config slave, (config, slave) ∈ L ->
      (Config.OwnAddress (Config_ s) = "" ->
         Config.MasterAddress config =
           net_JoinHostPort "127.0.0.1" (strconv_Itoa (announcePort s))) /\
      (Config.OwnAddress (Config_ s) <> "" ->
         Config.MasterAddress config =
           net_JoinHostPort (Config.OwnAddress (Config_ s))
             (strconv_Itoa (announcePort s))).
Proof.
  cbv zeta.
  destruct (startLocalSlaves_run wg peers w) as (_ & _ & _ & _ & Hl & _).
  eexists. split; [exact Hl |].
  intros config slave Hin.
  apply list_elem_of_omap in Hin as (p & _ & Hsome).
  apply slave_of_Some in Hsome as (_ & -> & _).
  simpl. unfold masterAddr_of. split; intros Hown.
  - rewrite bool_decide_eq_true_2 by exact Hown. reflexivity.
  - rewrite bool_decide_eq_false_2 by exact Hown. reflexivity.
Qed.

(** A relaunch from a record whose flag is off starts no slave, and neither
    does a fresh start. *)
Lemma relaunch_flag_off (runner : Runner) (w : World) :
  (forall cfg, setup_valid w cfg ->
     SetupConfigFile.StartLocalSlaves cfg = false) ->
  let r := relaunch NewService runner w in
  launched (events (snd r)) = launched (events w) /\
  (fst r = false -> s_ (snd r) = s_ w).
Proof.
  intros Hoff. cbv zeta.
  destruct (relaunch_true_or_false runner w) as [[cfg Hv] | Hc].
  - rewrite (relaunch_valid runner w cfg Hv).
    unfold bind, set_self, Infof, logf, startHTTPServer, startRunning, emit,
      ret.
    simpl. rewrite (Hoff cfg Hv). simpl. split; [| discriminate].
    rewrite !launched_app. simpl. by rewrite !app_nil_r.
  - destruct (relaunch_fresh runner w Hc) as (_ & Hs & _ & _ & Hev & _).
    rewrite Hev. done.
Qed.

(** C7, as amended.  Every slave that [startLocalSlaves] starts is built,
    as a local slave, from a clone of the parent's configuration in which
    [StartLocalSlaves] is false; it stands for a peer of the list whose
    identifier and data directory it takes; and its identifier is not the
    parent's: a peer with the parent's own identifier is skipped.  With a
    constructor that keeps the configuration, the slave runs with the flag
    off, and when it runs it starts no slave unless its data directory holds
    a valid setup record whose flag is set: [relaunch] goes by the flag of
    the record, not by the flag of the configuration. *)
Theorem slaves_never_spawn_slaves (wg : Z) (peers : list Peer.t) (w : World) :
  keeps_config NewService ->
  let s := s_ w in
  let w' := snd (startLocalSlaves NewService wg peers w) in
  exists L,
    launched (events w') = launched (events w) ++ L /\
    forall config slave, (config, slave) ∈ L ->
      Config.StartLocalSlaves config = false /\
      Config.ID config <> Config.ID (Config_ s) /\
      NewService (mustCreateIDLogger (Config.ID config)) config true
        = Ok slave /\
      (exists p, p ∈ peers /\
         Config.ID config = Peer.ID p /\
         Config.DataDir config = Peer.DataDir p /\
         Config.AgencySize config = Config.AgencySize (Config_ s) /\
         Config.OwnAddress config = Config.OwnAddress (Config_ s)) /\
      Config_ slave = config /\
      forall (runner : Runner) (w2 : World),
        s_ w2 = slave ->
        (forall cfg, setup_valid w2 cfg ->
           SetupConfigFile.StartLocalSlaves cfg = false) ->
        launched (events (snd (Run NewService runner w2))) =
          launched (events w2).
Proof.
  intros Hkeep. cbv zeta.
  destruct (startLocalSlaves_run wg peers w) as (_ & _ & _ & _ & Hl & _).
  eexists. split; [exact Hl |].
  intros config slave Hin.
  apply list_elem_of_omap in Hin as (p & Hp & Hsome).
  apply slave_of_Some in Hsome as (Hid & -> & Hnew).
  pose proof (Hkeep _ _ _ _ Hnew) as Hcfg. simpl in Hcfg.
  split; [reflexivity |]. split; [exact Hid |]. split; [exact Hnew |].
  split; [exists p; done |]. split; [exact Hcfg |].
  intros runner w2 Hs2 Hoff.
  destruct (relaunch_flag_off runner w2 Hoff) as [Hsame Hfresh].
  unfold Run, bind, self.
  destruct (relaunch NewService runner w2) as [[] w3]; simpl in *.
  - exact Hsame.
  - rewrite (Hfresh eq_refl), Hs2, Hcfg. simpl. exact Hsame.
Qed.


(** ** How many slaves, and how they differ *)

Lemma local_slave_name_inj (a b : Z) :
  local_slave_name a = local_slave_name b -> a = b.
Proof.
  unfold local_slave_name, strconv_Itoa. intros Heq.
  apply (inj (String.app "local-slave-")) in Heq.
  by apply (inj pretty) in Heq.
Qed.

Lemma fmap_zip_with_snd {A B C D} (f : A -> B -> C) (g : C -> D) (h : B -> D)
  (l : list A) (k : list B) :
  (forall x y, g (f x y) = h y) ->
  length l = length k ->
  g <$> zip_with f l k = h <$> k.
Proof.
  intros Hg. revert k. induction l as [| x l IH]; intros [| y k] Hlen;
    simpl in *; try done.
  rewrite Hg. f_equal. apply IH. lia.
Qed.

Lemma fmap_zip_with_fst {A B C D} (f : A -> B -> C) (g : C -> D) (h : A -> D)
  (l : list A) (k : list B) :
  (forall x y, g (f x y) = h x) ->
  length l = length k ->
  g <$> zip_with f l k = h <$> l.
Proof.
  intros Hg. revert k. induction l as [| x l IH]; intros [| y k] Hlen;
    simpl in *; try done.
  rewrite Hg. f_equal. apply IH. lia.
Qed.

(** When no peer of the list has the parent's identifier and the constructor
    does not fail, every peer gets its slave. *)
Lemma slaves_of_all (s : Service) (l : list Peer.t) :
  (forall p, p ∈ l -> Peer.ID p <> Config.ID (Config_ s)) ->
  (forall c, exists slave,
     NewService (mustCreateIDLogger (Config.ID c)) c true = Ok slave) ->
  fst <$> omap (slave_of NewService s) l = slave_config s <$> l.
Proof.
  intros Hne Hnew. induction l as [| p l IH]; [reflexivity |].
  assert (Hp : slave_of NewService s p <> None).
  { unfold slave_of. rewrite bool_decide_eq_false_2
      by (apply Hne; apply elem_of_cons; by left).
    destruct (Hnew (slave_config s p)) as [slave Hs].
    simpl in Hs. rewrite Hs. discriminate. }
  simpl. destruct (slave_of NewService s p) as [[c slave] |] eqn:Hsl; [| done].
  apply slave_of_Some in Hsl as (_ & -> & _).
  simpl. f_equal.
  apply IH. intros q Hq. apply Hne. apply elem_of_cons. by right.
Qed.


Lemma filter_all {A} (P : A -> Prop) `{forall x, Decision (P x)}
  (l : list A) :
  Forall P l -> filter P l = l.
Proof.
  induction 1 as [| x l Hx _ IH]; [reflexivity |].
  rewrite filter_cons_True by exact Hx. by rewrite IH.
Qed.

Lemma slaves_of_candidates (s : Service) (l : list Peer.t) :
  (forall c, exists slave,
     NewService (mustCreateIDLogger (Config.ID c)) c true = Ok slave) ->
  (omap (slave_of NewService s) l).*1 = slave_config s <$> candidates s l.
Proof.
  intros Hnew. unfold candidates.
  induction l as [| p l IH]; [reflexivity |].
  rewrite filter_cons.
  change (omap (slave_of NewService s) (p :: l))
    with (match slave_of NewService s p with
          | Some y => y :: omap (slave_of NewService s) l
          | None => omap (slave_of NewService s) l
          end).
  set (L := omap (slave_of NewService s) l) in *.
  unfold slave_of. case_bool_decide as Hid.
  - rewrite decide_False by (intros Hne; by apply Hne). exact IH.
  - rewrite decide_True by exact Hid.
    destruct (Hnew (slave_config s p)) as [slave Hs]. simpl in Hs.
    rewrite Hs. simpl. f_equal. exact IH.
Qed.

Lemma candidates_ids (s : Service) (l : list Peer.t) :
  Peer.ID <$> candidates s l =
    filter (fun id => id <> Config.ID (Config_ s)) (Peer.ID <$> l).
Proof.
  unfold candidates. induction l as [| p l IH]; [reflexivity |].
  rewrite fmap_cons, !filter_cons.
  destruct (decide (Peer.ID p <> Config.ID (Config_ s)));
    rewrite ?fmap_cons; by rewrite IH.
Qed.

Lemma length_filter_all {A} (P : A -> Prop) `{forall x, Decision (P x)}
  (l : list A) :
  length (filter P l) = length l <-> Forall P l.
Proof.
  split.
  - intros Hlen. apply Forall_forall. intros x Hx.
    destruct (decide (P x)) as [HP | HP]; [exact HP |].
    pose proof (length_filter_lt P l x Hx HP). lia.
  - intros Hall. by rewrite filter_all.
Qed.

Lemma createAndStartLocalSlaves_none (wg : Z) (w : World) :
  Config.AgencySize (Config_ (s_ w)) <= 1 ->
  launched (events (snd (createAndStartLocalSlaves NewService wg w))) =
    launched (events w).
Proof.
  intros HN. unfold createAndStartLocalSlaves, bind, self. simpl.
  destruct (_ || _); [reflexivity |].
  rewrite seqZ_nil by lia. reflexivity.
Qed.

(** C5, as amended.  With an agency size [N] of at most 1,
    [createAndStartLocalSlaves] starts no slave.  With [N >= 2] within the
    capacity [make] grants, when the [N-1] draws of [createUniqueID] succeed
    and give the identifiers [ids], when [NewService] succeeds, and when
    [filepath.Join] keeps the names [local-slave-k] apart under the parent's
    data directory, it returns having started one slave for each drawn
    identifier that is not the parent's, in order and with that identifier:
    exactly [N-1] slaves when no draw gives the parent's identifier, fewer
    otherwise.  The data directories of the slaves are pairwise distinct and
    differ from the parent's, no slave has the parent's identifier, and the
    identifiers of the slaves are pairwise distinct exactly when the draws
    they come from are: the code compares a drawn identifier with the
    parent's only. *)
Theorem createAndStartLocalSlaves_count (wg : Z) (w : World)
  (ids : list string) :
  let s := s_ w in
  let N := Config.AgencySize (Config_ s) in
  let dir := Config.DataDir (Config_ s) in
  let own := Config.ID (Config_ s) in
  let r := createAndStartLocalSlaves NewService wg w in
  (N <= 1 -> launched (events (snd r)) = launched (events w)) /\
  (2 <= N -> N <= make_Peers_max ->
   length ids = Z.to_nat (N - 1) ->
   (forall i id, ids !! i = Some id ->
      createUniqueID_result (ids_drawn w + i)%nat = Ok id) ->
   (forall c, exists slave,
      NewService (mustCreateIDLogger (Config.ID c)) c true = Ok slave) ->
   (forall a b,
      filepath_Join dir (local_slave_name a) =
        filepath_Join dir (local_slave_name b) ->
      local_slave_name a = local_slave_name b) ->
   (forall a, filepath_Join dir (local_slave_name a) <> dir) ->
   exists L,
     launched (events (snd r)) = launched (events w) ++ L /\
     fst r = Returns (wg + Z.of_nat (length L)) /\
     Config.ID <$> L.*1 = filter (fun id => id <> own) ids /\
     (Z.of_nat (length L) = N - 1 <-> own ∉ ids) /\
     NoDup (Config.DataDir <$> L.*1) /\
     Forall (fun c => Config.DataDir c <> dir) L.*1 /\
     Forall (fun c => Config.ID c <> own) L.*1 /\
     (NoDup (Config.ID <$> L.*1) <->
      NoDup (filter (fun id => id <> own) ids))).
Proof.
  cbv zeta. split; [apply createAndStartLocalSlaves_none |].
  intros HN Hcap Hlen Hids Hnew Hjoin Hdir.
  set (s := s_ w) in *. set (N := Config.AgencySize (Config_ s)) in *.
  set (dir := Config.DataDir (Config_ s)) in *.
  set (own := Config.ID (Config_ s)) in *.
  unfold createAndStartLocalSlaves, bind, self. simpl. fold s. fold N.
  destruct (Z.ltb_spec N 0) as [Hneg | _]; [lia |].
  destruct (Z.ltb_spec make_Peers_max N) as [Hbig | _]; [lia |]. simpl.
  assert (Hlen' : length ids = length (seqZ 2 (N - 1)))
    by (rewrite length_seqZ; exact Hlen).
  destruct (createLocalPeers_loop (seqZ 2 (N - 1)) ids [] w Hlen' Hids)
    as (Hpeers & Hs1 & _ & _ & _ & Hev1 & _).
  destruct (for_loop createLocalPeer (seqZ 2 (N - 1)) [] w) as [peers w1].
  simpl in Hpeers, Hs1, Hev1. fold s in Hpeers, Hs1.
  destruct (startLocalSlaves_run wg peers w1) as (_ & _ & _ & _ & Hl & Hwg).
  destruct (startLocalSlaves NewService wg peers w1) as [wg2 w2].
  simpl in Hl, Hwg |- *. rewrite Hs1, Hev1 in Hl. rewrite Hs1 in Hwg.
  set (L := omap (slave_of NewService s) peers) in *.
  assert (HIDs : Peer.ID <$> peers = ids).
  { rewrite Hpeers.
    rewrite (fmap_zip_with_fst _ Peer.ID id) by done.
    apply list_fmap_id. }
  assert (Hcfg : L.*1 = slave_config s <$> candidates s peers)
    by (apply slaves_of_candidates; assumption).
  assert (Hcids : Config.ID <$> L.*1 = filter (fun id => id <> own) ids).
  { rewrite Hcfg, <- list_fmap_compose.
    rewrite (list_fmap_ext _ Peer.ID (candidates s peers)) by done.
    rewrite candidates_ids, HIDs. reflexivity. }
  assert (HlenL : length L = length (filter (fun id => id <> own) ids)).
  { rewrite <- Hcids, !length_fmap. reflexivity. }
  assert (Hsub : (Config.DataDir <$> L.*1) `sublist_of`
            ((fun index => filepath_Join dir (local_slave_name (index - 1)))
               <$> seqZ 2 (N - 1))).
  { rewrite Hcfg, <- list_fmap_compose.
    rewrite (list_fmap_ext _ Peer.DataDir (candidates s peers)) by done.
    transitivity (Peer.DataDir <$> peers).
    - apply fmap_sublist. unfold candidates. apply sublist_filter.
    - rewrite Hpeers.
      rewrite (fmap_zip_with_snd _ Peer.DataDir
                 (fun index =>
                    filepath_Join dir (local_slave_name (index - 1))))
        by done.
      reflexivity. }
  exists L. split; [exact Hl |]. split; [by rewrite Hwg |].
  split; [exact Hcids |]. split; [| split; [| split; [| split]]].
  - rewrite HlenL. split.
    + intros Heq Hin.
      assert (Hall : length (filter (fun id => id <> own) ids) = length ids)
        by lia.
      apply length_filter_all in Hall. rewrite Forall_forall in Hall.
      exact (Hall own Hin eq_refl).
    + intros Hn.
      assert (Hall : Forall (fun id => id <> own) ids)
        by (apply Forall_forall; intros x Hx ->; done).
      apply <- (length_filter_all (fun id => id <> own)) in Hall. lia.
  - eapply sublist_NoDup; [| exact Hsub].
    apply NoDup_fmap_2_strong; [| apply NoDup_seqZ].
    intros a b _ _ Hab. apply Hjoin in Hab.
    apply local_slave_name_inj in Hab. lia.
  - apply Forall_forall. intros c Hc.
    assert (Hin : Config.DataDir c ∈ Config.DataDir <$> L.*1)
      by (apply list_elem_of_fmap; exists c; done).
    eapply elem_of_sublist in Hin; [| exact Hsub].
    apply list_elem_of_fmap in Hin as (a & -> & _).
    apply Hdir.
  - apply Forall_forall. intros c Hc Heq.
    assert (Hin : Config.ID c ∈ Config.ID <$> L.*1)
      by (apply list_elem_of_fmap; exists c; done).
    rewrite Hcids in Hin. apply list_elem_of_filter in Hin as [Hne _].
    done.
  - by rewrite Hcids.
Qed.

End service_facts.

(** ** Gone-detection *)

Import test.

Section gone_detection.
Variable fails : nat -> bool.

Lemma failures_before_three (k : nat) :
  (3 <= failures_before fails (S k))%nat <-> three_failures_end_at fails k.
Proof.
  unfold three_failures_end_at. split.
  - intros H3. simpl in H3.
    destruct (fails k) eqn:Hk; [| lia].
    destruct k as [| k]; [simpl in H3; lia |]. simpl in H3.
    destruct (fails k) eqn:Hk1; [| lia].
    destruct k as [| k]; [simpl in H3; lia |]. simpl in H3.
    destruct (fails k) eqn:Hk2; [| lia].
    replace (S (S k) - 2)%nat with k by lia.
    replace (S (S k) - 1)%nat with (S k) by lia.
    repeat split; [lia | assumption ..].
  - intros (Hge & H2 & H1 & H0).
    destruct k as [| [| k]]; [lia | lia |].
    replace (S (S k) - 2)%nat with k in H2 by lia.
    replace (S (S k) - 1)%nat with (S k) in H1 by lia.
    simpl. rewrite H0, H1, H2. lia.
Qed.

Lemma gone_loop_step (fuel k : nat) :
  (failures_before fails k <= 2)%nat ->
  gone_loop fails (S fuel) k (Z.of_nat (failures_before fails k)) =
    if decide (3 <= failures_before fails (S k))%nat then Some k
    else gone_loop fails fuel (S k) (Z.of_nat (failures_before fails (S k))).
Proof.
  intros Hle. cbn [gone_loop failures_before]. destruct (fails k).
  - replace (Z.of_nat (failures_before fails k) + 1)
      with (Z.of_nat (S (failures_before fails k))) by lia.
    destruct (Z.gtb_spec (Z.of_nat (S (failures_before fails k))) 2);
      destruct (decide _); try lia; reflexivity.
  - change (0 >? 2) with false. cbn iota.
    destruct (decide _); [lia | reflexivity].
Qed.

Lemma gone_loop_sound (fuel : nat) :
  forall k j,
    (failures_before fails k <= 2)%nat ->
    gone_loop fails fuel k (Z.of_nat (failures_before fails k)) = Some j ->
    (k <= j < k + fuel)%nat /\
    three_failures_end_at fails j /\
    forall i, (k <= i < j)%nat -> ~ three_failures_end_at fails i.
Proof.
  induction fuel as [| fuel IH]; intros k j Hle Hrun; [discriminate |].
  rewrite gone_loop_step in Hrun by exact Hle.
  case_decide as H3.
  - injection Hrun as <-. split; [lia |]. split.
    + by apply failures_before_three.
    + intros i Hi. lia.
  - apply IH in Hrun as (Hj & Hthree & Hfirst); [| lia].
    split; [lia |]. split; [exact Hthree |].
    intros i Hi. destruct (decide (i = k)) as [-> | Hne].
    + rewrite <- failures_before_three. exact H3.
    + apply Hfirst. lia.
Qed.

Lemma gone_loop_complete (fuel : nat) :
  forall k j,
    (failures_before fails k <= 2)%nat ->
    (k <= j < k + fuel)%nat ->
    three_failures_end_at fails j ->
    (forall i, (k <= i < j)%nat -> ~ three_failures_end_at fails i) ->
    gone_loop fails fuel k (Z.of_nat (failures_before fails k)) = Some j.
Proof.
  induction fuel as [| fuel IH]; intros k j Hle Hj Hthree Hfirst; [lia |].
  rewrite gone_loop_step by exact Hle.
  case_decide as H3.
  - destruct (decide (k = j)) as [-> | Hne]; [reflexivity |].
    exfalso. apply (Hfirst k); [lia |]. by apply failures_before_three.
  - destruct (decide (k = j)) as [-> | Hne].
    + exfalso. apply H3. by apply failures_before_three.
    + apply IH; [lia | lia | exact Hthree |].
      intros i Hi. apply Hfirst. lia.
Qed.

Lemma three_failures_dec (k : nat) :
  {three_failures_end_at fails k} + {~ three_failures_end_at fails k}.
Proof.
  destruct (decide (3 <= failures_before fails (S k))%nat) as [H3 | H3].
  - left. by apply failures_before_three.
  - right. by rewrite <- failures_before_three.
Qed.

Lemma first_three_failures_below (n : nat) :
  (exists j, (j < n)%nat /\ three_failures_end_at fails j /\
     forall i, (i < j)%nat -> ~ three_failures_end_at fails i) \/
  (forall i, (i < n)%nat -> ~ three_failures_end_at fails i).
Proof.
  induction n as [| n [(j & Hj & Hthree & Hfirst) | Hnone]].
  - right. intros i Hi. lia.
  - left. exists j. split; [lia | done].
  - destruct (three_failures_dec n) as [Hn | Hn].
    + left. exists n. split; [lia | done].
    + right. intros i Hi. destruct (decide (i = n)) as [-> | Hne]; [done |].
      apply Hnone. lia.
Qed.

(** C8.  [WaitUntilStarterGone] returns exactly when three version queries
    in a row have failed, right after the third of the first such three:
    (1) if the loop ends after query [k], then queries [k-2], [k-1], [k]
    failed and no three in a row failed before; (2) if they did and none
    before, any run of more than [k] rounds ends after query [k]; (3) the
    loop never ends exactly when no three queries in a row ever fail; (4) a
    successful query puts the counter back to zero whatever it was; (5) two
    failures followed by a success leave the loop running with the counter
    at zero. *)
Theorem gone_after_three_failures :
  (forall fuel k,
     WaitUntilStarterGone fails fuel = Some k ->
     three_failures_end_at fails k /\
     (forall i, (i < k)%nat -> ~ three_failures_end_at fails i) /\
     (k < fuel)%nat) /\
  (forall fuel k,
     three_failures_end_at fails k ->
     (forall i, (i < k)%nat -> ~ three_failures_end_at fails i) ->
     (k < fuel)%nat ->
     WaitUntilStarterGone fails fuel = Some k) /\
  ((forall fuel, WaitUntilStarterGone fails fuel = None) <->
   (forall k, ~ three_failures_end_at fails k)) /\
  (forall fuel k failures,
     fails k = false ->
     gone_loop fails (S fuel) k failures = gone_loop fails fuel (S k) 0) /\
  (forall fuel k,
     fails k = true -> fails (S k) = true -> fails (S (S k)) = false ->
     gone_loop fails (3 + fuel) k 0 = gone_loop fails fuel (3 + k) 0).
Proof.
  assert (Hsound : forall fuel k,
            WaitUntilStarterGone fails fuel = Some k ->
            three_failures_end_at fails k /\
            (forall i, (i < k)%nat -> ~ three_failures_end_at fails i) /\
            (k < fuel)%nat).
  { intros fuel k Hrun.
    apply (gone_loop_sound fuel 0%nat k) in Hrun as (Hk & Hthree & Hfirst);
      [| simpl; lia].
    split; [exact Hthree |]. split; [| lia].
    intros i Hi. apply Hfirst. lia. }
  assert (Hcomplete : forall fuel k,
            three_failures_end_at fails k ->
            (forall i, (i < k)%nat -> ~ three_failures_end_at fails i) ->
            (k < fuel)%nat ->
            WaitUntilStarterGone fails fuel = Some k).
  { intros fuel k Hthree Hfirst Hk.
    apply (gone_loop_complete fuel 0%nat k); [simpl; lia | lia | done |].
    intros i Hi. apply Hfirst. lia. }
  split; [exact Hsound |]. split; [exact Hcomplete |].
  split; [split |]; [| | split].
  - intros Hnever k Hthree.
    destruct (first_three_failures_below (S k))
      as [(j & Hj & Hjt & Hjf) | Hnone].
    + specialize (Hcomplete (S j) j Hjt Hjf (Nat.lt_succ_diag_r j)).
      rewrite Hnever in Hcomplete. discriminate.
    + apply (Hnone k); [lia | exact Hthree].
  - intros Hnone fuel.
    destruct (WaitUntilStarterGone fails fuel) as [k |] eqn:Hrun;
      [| reflexivity].
    apply Hsound in Hrun as (Hthree & _). by apply Hnone in Hthree.
  - intros fuel k failures Hk. cbn [gone_loop]. rewrite Hk. reflexivity.
  - intros fuel k H0 H1 H2. cbn [gone_loop Nat.add]. rewrite H0, H1, H2.
    reflexivity.
Qed.

End gone_detection.

(** * More properties of the service *)

Section service_more.
Context {T : Types} {E : External}.
Variable NewService : Logger -> Config.t -> bool -> result error Service.

(** ** [saveSetup] when it fails *)

(** X1.  [saveSetup] never changes the instance, the events or the draws.
    When it returns nil nothing is logged.  When it returns an error, this
    is [maskAny] of the error of [json.Marshal] or [ioutil.WriteFile], that
    error is logged once at error level, and no path other than the setup
    file has changed; after a failed [json.Marshal] no file has. *)
Theorem saveSetup_failure (w : World) :
  let r := saveSetup w in
  let w' := snd r in
  s_ w' = s_ w /\ events w' = events w /\ ids_drawn w' = ids_drawn w /\
  (forall q, q <> setup_path (s_ w) -> fs w' !! q = fs w !! q) /\
  (fst r = None -> logged w' = logged w) /\
  (forall err, fst r = Some err ->
     exists cause,
       err = maskAny cause /\
       logged w' =
         logged w ++
         [{| via := log (s_ w); level := LError;
             format := match json_Marshal (setup_of (s_ w)) with
                       | Err _ => "Cannot serialize config: %#v"
                       | Ok _ => "Error writing setup: %#v"
                       end;
             args := [AError cause] |}]) /\
  (forall cause, json_Marshal (setup_of (s_ w)) = Err cause ->
     fst r = Some (maskAny cause) /\ fs w' = fs w /\ fs_seen w' = fs_seen w).
Proof.
  cbv zeta. unfold saveSetup, bind, self, setup_of, setup_path. simpl.
  destruct (json_Marshal _) as [b | cause] eqn:Hm; simpl.
  - unfold ioutil_WriteFile, bind, fs_step, ret.
    destruct (fs w !! filepath_Join _ _) as [[c rd [e0 |] |] |] eqn:Hn;
      simpl.
    4: destruct (parent_dir _) as [parent |];
         [destruct (fs w !! parent) as [[] |] |]; simpl.
    all: try destruct (next_write w) as [| e | n e]; simpl.
    all: split; [reflexivity |]; split; [reflexivity |];
      split; [reflexivity |]; split;
      [intros q Hq; rewrite ?lookup_insert_ne by congruence; reflexivity |];
      split; [try discriminate; reflexivity |]; split; [| discriminate].
    all: try discriminate.
    all: intros err [= <-]; eexists; split; reflexivity.
  - split; [reflexivity |]. split; [reflexivity |]. split; [reflexivity |].
    split; [reflexivity |]. split; [discriminate |]. split.
    + intros err [= <-]. exists cause. split; reflexivity.
    + intros ? [= <-]. repeat split.
Qed.

(** ** [startLocalSlaves], event by event *)

Lemma startLocalSlave_effects (index : nat) (p : Peer.t) (wg : Z) (w : World) :
  let r := startLocalSlave NewService (masterAddr_of (s_ w)) index p wg w in
  s_ (snd r) = s_ w /\ next_write (snd r) = next_write w /\
  events (snd r) = events w ++ peer_events NewService (s_ w) p /\
  exists new,
    logged (snd r) = logged w ++ new /\
    Forall (fun entry => level entry = LError /\ via entry = log (s_ w)) new /\
    length new =
      length (option_list (construction_error NewService (s_ w) p)).
Proof.
  unfold startLocalSlave, peer_events, construction_error, slave_config,
    bind, self. simpl.
  case_bool_decide as Hid; simpl.
  - rewrite app_nil_r. repeat split. exists []. rewrite app_nil_r. done.
  - match goal with
    | |- context [os_MkdirAll ?d ?m w] =>
        pose proof (os_MkdirAll_run d m w) as Hm
    end.
    cbv zeta in Hm. unfold same_instance in Hm.
    destruct (os_MkdirAll _ _ w) as [[] w1]. simpl in Hm.
    destruct Hm as ((Hs & Hl & Hi & Hn & Hd) & He & Hfs).
    destruct (NewService _ _ true) as [slave | err]; simpl;
      rewrite ?He, ?Hs, ?Hn, ?Hl.
    + rewrite <- app_assoc. repeat split. exists []. rewrite app_nil_r. done.
    + repeat split. eexists. split; [reflexivity |].
      split; [| reflexivity]. repeat constructor.
Qed.

Lemma startLocalSlaves_loop_effects (ma : string) (l : list Peer.t) :
  forall (index : nat) (wg : Z) (w : World),
    ma = masterAddr_of (s_ w) ->
    let r := range_loop (startLocalSlave NewService ma) index l wg w in
    s_ (snd r) = s_ w /\ next_write (snd r) = next_write w /\
    events (snd r) =
      events w ++ concat (peer_events NewService (s_ w) <$> l) /\
    exists new,
      logged (snd r) = logged w ++ new /\
      Forall (fun entry => level entry = LError /\ via entry = log (s_ w))
        new /\
      length new = length (omap (construction_error NewService (s_ w)) l).
Proof.
  induction l as [| p l IH]; intros index wg w ->; simpl.
  - rewrite app_nil_r. repeat split. exists []. rewrite app_nil_r. done.
  - unfold bind.
    pose proof (startLocalSlave_effects index p wg w) as Hp. cbv zeta in Hp.
    destruct (startLocalSlave NewService (masterAddr_of (s_ w)) index p wg w)
      as [wg1 w1]. simpl in Hp.
    destruct Hp as (Hs & Hnw & Hev & new1 & Hlog & Hall & Hlen).
    specialize (IH (S index) wg1 w1). rewrite Hs in IH.
    specialize (IH eq_refl). cbv zeta in IH.
    destruct IH as (Hs' & Hnw' & Hev' & new2 & Hlog' & Hall' & Hlen').
    rewrite Hs', Hnw', Hev', Hlog', Hev, Hlog, Hnw, <- !app_assoc.
    repeat split. exists (new1 ++ new2). split; [reflexivity |]. split.
    + apply Forall_app. done.
    + rewrite length_app, Hlen, Hlen'.
      destruct (construction_error NewService (s_ w) p); reflexivity.
Qed.

Lemma startLocalSlaves_effects (wg : Z) (peers : list Peer.t) (w : World) :
  let r := startLocalSlaves NewService wg peers w in
  let l := mustCreateIDLogger (Config.ID (Config_ (s_ w))) in
  s_ (snd r) = set_log l (s_ w) /\ next_write (snd r) = next_write w /\
  events (snd r) =
    events w ++ concat (peer_events NewService (s_ w) <$> peers) /\
  exists new,
    logged (snd r) =
      logged w ++
      {| via := l; level := LInfo; format := "Starting %d local slaves...";
         args := [AInt (Z.of_nat (length peers) - 1)] |} :: new /\
    Forall (fun entry => level entry = LError /\ via entry = l) new /\
    length new = length (omap (construction_error NewService (s_ w)) peers).
Proof.
  unfold startLocalSlaves, bind, self, set_self, Infof, logf. simpl.
  match goal with
  | |- context [range_loop _ _ _ _ ?w1] =>
      pose proof (startLocalSlaves_loop_effects (masterAddr_of (s_ w1)) peers
                    0%nat wg w1 eq_refl) as Hl
  end.
  cbv zeta in Hl. simpl in Hl.
  destruct Hl as (Hs & Hnw & Hev & new & Hlog & Hall & Hlen).
  split; [exact Hs |]. split; [exact Hnw |]. split; [exact Hev |].
  exists new. rewrite Hlog, <- app_assoc. done.
Qed.

Lemma launched_peer_events (s : Service) (l : list Peer.t) :
  launched (concat (peer_events NewService s <$> l)) =
    omap (slave_of NewService s) l.
Proof.
  induction l as [| p l IH]; [reflexivity |].
  change (concat (peer_events NewService s <$> p :: l))
    with (peer_events NewService s p ++
          concat (peer_events NewService s <$> l)).
  rewrite launched_app, IH.
  change (omap (slave_of NewService s) (p :: l))
    with (match slave_of NewService s p with
          | Some y => y :: omap (slave_of NewService s) l
          | None => omap (slave_of NewService s) l
          end).
  unfold peer_events, slave_of.
  case_bool_decide; [reflexivity |].
  destruct (NewService _ _ true); reflexivity.
Qed.

Lemma candidates_split (s : Service) (l : list Peer.t) :
  (length (omap (slave_of NewService s) l) +
   length (omap (construction_error NewService s) l))%nat =
  length (candidates s l).
Proof.
  unfold candidates.
  induction l as [| p l IH]; [reflexivity |].
  rewrite filter_cons.
  change (omap (slave_of NewService s) (p :: l))
    with (match slave_of NewService s p with
          | Some y => y :: omap (slave_of NewService s) l
          | None => omap (slave_of NewService s) l
          end).
  change (omap (construction_error NewService s) (p :: l))
    with (match construction_error NewService s p with
          | Some y => y :: omap (construction_error NewService s) l
          | None => omap (construction_error NewService s) l
          end).
  set (L1 := omap (slave_of NewService s) l) in *.
  set (L2 := omap (construction_error NewService s) l) in *.
  unfold slave_of, construction_error.
  case_bool_decide as Hid.
  - rewrite decide_False by (intros Hne; by apply Hne). exact IH.
  - rewrite decide_True by exact Hid.
    destruct (NewService _ _ true); simpl; lia.
Qed.

Lemma errors_all (new : list LogEntry) :
  Forall (fun entry => level entry = LError) new -> errors new = new.
Proof.
  induction 1 as [| entry new He _ IH]; [reflexivity |].
  unfold errors in *. simpl. unfold is_error at 1. rewrite He, IH. reflexivity.
Qed.

(** X2.  Whatever the constructor does, [startLocalSlaves] accounts for
    every peer it does not skip: the peer's slave is started or the failure
    of its construction is logged at error level, never both and never
    neither; and the wait group is raised once per slave started. *)
Theorem startLocalSlaves_accounts (wg : Z) (peers : list Peer.t) (w : World) :
  let r := startLocalSlaves NewService wg peers w in
  exists L new,
    launched (events (snd r)) = launched (events w) ++ L /\
    logged (snd r) = logged w ++ new /\
    fst r = wg + Z.of_nat (length L) /\
    (length L + length (errors new))%nat =
      length (candidates (s_ w) peers) /\
    (length (candidates (s_ w) peers) <= length peers)%nat.
Proof.
  cbv zeta.
  destruct (startLocalSlaves_run NewService wg peers w)
    as (_ & _ & _ & _ & Hl & Hwg).
  destruct (startLocalSlaves_effects wg peers w)
    as (_ & _ & _ & new & Hlog & Hall & Hlen).
  eexists _, _. split; [exact Hl |]. split; [exact Hlog |].
  split; [exact Hwg |]. split.
  - unfold errors. simpl. fold (errors new). rewrite errors_all.
    + rewrite Hlen. apply candidates_split.
    + eapply Forall_impl; [exact Hall |]. by intros entry [? _].
  - unfold candidates. apply length_filter.
Qed.

Lemma peer_events_order (s : Service) (l : list Peer.t) :
  forall i config slave c,
    concat (peer_events NewService s <$> l) !! i
      = Some (GoRun config slave c) ->
    c = ctx s /\
    exists j, i = S j /\
      concat (peer_events NewService s <$> l) !! j
        = Some (MkdirAll (Config.DataDir config) 493).
Proof.
  induction l as [| p l IH]; intros i config slave c Hi; [done |].
  change (concat (peer_events NewService s <$> p :: l))
    with (peer_events NewService s p ++
          concat (peer_events NewService s <$> l)) in *.
  unfold peer_events in *.
  case_bool_decide as Hid; [exact (IH i config slave c Hi) |].
  destruct (NewService _ _ true) as [sv | err].
  - destruct i as [| [| i]]; simpl in Hi; [done | |].
    + injection Hi as <- <- <-. split; [reflexivity |].
      exists 0%nat. done.
    + destruct (IH i config slave c Hi) as (-> & j & -> & Hj).
      split; [reflexivity |]. exists (S (S j)). done.
  - destruct i as [| i]; simpl in Hi; [done |].
    destruct (IH i config slave c Hi) as (-> & j & -> & Hj).
    split; [reflexivity |]. exists (S j). done.
Qed.

(** X3.  In the events of [startLocalSlaves], the goroutine of every slave
    comes right after the [os.MkdirAll] of that slave's data directory with
    mode 0755, and it runs the slave under the parent's context. *)
Theorem slaves_directory_first (wg : Z) (peers : list Peer.t) (w : World) :
  let w' := snd (startLocalSlaves NewService wg peers w) in
  forall i config slave c,
    (length (events w) <= i)%nat ->
    events w' !! i = Some (GoRun config slave c) ->
    c = ctx (s_ w) /\
    exists j, i = S j /\ (length (events w) <= j)%nat /\
      events w' !! j = Some (MkdirAll (Config.DataDir config) 493).
Proof.
  cbv zeta. intros i config slave c Hi Hgo.
  destruct (startLocalSlaves_effects wg peers w) as (_ & _ & Hev & _).
  rewrite Hev in Hgo |- *. rewrite lookup_app_r in Hgo by exact Hi.
  destruct (peer_events_order _ _ _ _ _ _ Hgo) as (-> & j & Hij & Hj).
  split; [reflexivity |].
  exists (length (events w) + j)%nat. split; [lia |]. split; [lia |].
  rewrite lookup_app_r by lia.
  replace (length (events w) + j - length (events w))%nat with j by lia.
  exact Hj.
Qed.

(** X4.  [startLocalSlaves] changes no file and removes none: all it does
    to the files is to make directories where there was nothing, and a
    reader looking at any moment of the call finds the files as they were
    with such directories added.  It draws no identifier; of the receiver it
    changes the logger alone, which becomes the logger of the receiver's own
    identifier, and everything it logs goes through that logger: first the
    announcement of [len(peers) - 1] slaves, then errors only. *)
Theorem startLocalSlaves_frame (wg : Z) (peers : list Peer.t) (w : World) :
  let w' := snd (startLocalSlaves NewService wg peers w) in
  let l := mustCreateIDLogger (Config.ID (Config_ (s_ w))) in
  dirs_added (fs w) (fs w') /\
  Forall (dirs_added (fs w)) (observable w w') /\
  ids_drawn w' = ids_drawn w /\
  next_write w' = next_write w /\
  s_ w' = set_log l (s_ w) /\
  exists new,
    logged w' =
      logged w ++
      {| via := l; level := LInfo; format := "Starting %d local slaves...";
         args := [AInt (Z.of_nat (length peers) - 1)] |} :: new /\
    Forall (fun entry => level entry = LError /\ via entry = l) new.
Proof.
  cbv zeta.
  destruct (startLocalSlaves_run NewService wg peers w)
    as (Hs & [Hfs (seen & Hseen & Hobs)] & _ & Hids & _).
  destruct (startLocalSlaves_effects wg peers w)
    as (_ & Hnw & _ & new & Hlog & Hall & _).
  split; [exact Hfs |]. split.
  { unfold observable. rewrite Hseen, drop_app_length.
    apply Forall_app. split; [exact Hobs |]. by constructor. }
  repeat split; try assumption. exists new. done.
Qed.

(** ** A relaunch, event by event *)

Lemma relaunch_valid_effects (runner : Runner) (w : World) cfg :
  setup_valid w cfg ->
  let r := relaunch NewService runner w in
  let s1 := restored cfg (s_ w) in
  let P := peers.Peers (SetupConfigFile.Peers cfg) in
  let S := if SetupConfigFile.StartLocalSlaves cfg
           then concat (peer_events NewService s1 <$> P) else [] in
  fst r = true /\
  events (snd r) =
    events w ++ StartHTTPServer :: S ++
    [StartRunning runner; WgWait (Z.of_nat (length (launched S)))] /\
  s_ (snd r) =
    (if SetupConfigFile.StartLocalSlaves cfg
     then set_log (mustCreateIDLogger (SetupConfigFile.ID cfg)) s1 else s1) /\
  only_dirs_added w (snd r) /\ ids_drawn (snd r) = ids_drawn w.
Proof.
  intros Hv. cbv zeta. rewrite (relaunch_valid NewService runner w cfg Hv).
  unfold bind, set_self, Infof, logf, startHTTPServer, startRunning, emit, ret.
  simpl.
  destruct (SetupConfigFile.StartLocalSlaves cfg) eqn:Hflag; simpl.
  - match goal with
    | |- context [startLocalSlaves _ _ ?P ?w1] =>
        pose proof (startLocalSlaves_run NewService 0 P w1) as Hrun;
        pose proof (startLocalSlaves_effects 0 P w1) as Heff
    end.
    cbv zeta in Hrun, Heff.
    destruct (startLocalSlaves NewService 0 _ _) as [wg2 w2].
    simpl in Hrun, Heff.
    destruct Hrun as (Hs & Hfs & _ & Hids & _ & Hwg).
    destruct Heff as (_ & _ & Hev & _).
    simpl. rewrite Hev, Hs, Hids, Hwg, launched_peer_events.
    rewrite <- !app_assoc. simpl.
    do 3 (split; [reflexivity |]). split; [exact Hfs | reflexivity].
  - rewrite <- !app_assoc.
    do 3 (split; [reflexivity |]).
    split; [by apply only_dirs_added_refl | reflexivity].
Qed.

(** X5.  The events of a relaunch come in this order: the HTTP server is
    started first, then the slaves (a [MkdirAll] and a goroutine each, none
    when the flag of the record is off), then the instance starts running,
    and last [wg.Wait] waits for exactly as many goroutines as slaves were
    started. *)
Theorem relaunch_event_order (runner : Runner) (w : World)
  (cfg : SetupConfigFile.t) :
  setup_valid w cfg ->
  exists S,
    events (snd (relaunch NewService runner w)) =
      events w ++ StartHTTPServer :: S ++
      [StartRunning runner; WgWait (Z.of_nat (length (launched S)))] /\
    Forall (fun e => match e with
                     | MkdirAll _ _ | GoRun _ _ _ => True
                     | _ => False
                     end) S /\
    (SetupConfigFile.StartLocalSlaves cfg = false -> S = []).
Proof.
  intros Hv.
  destruct (relaunch_valid_effects runner w cfg Hv) as (_ & Hev & _).
  eexists. split; [exact Hev |]. clear Hev. split.
  - destruct (SetupConfigFile.StartLocalSlaves cfg); [| constructor].
    induction (peers.Peers (SetupConfigFile.Peers cfg)) as [| p l IH];
      [constructor |].
    change (concat (peer_events NewService (restored cfg (s_ w)) <$> p :: l))
      with (peer_events NewService (restored cfg (s_ w)) p ++
            concat (peer_events NewService (restored cfg (s_ w)) <$> l)).
    apply Forall_app. split; [| exact IH].
    unfold peer_events. case_bool_decide; [constructor |].
    destruct (NewService _ _ true); repeat constructor.
  - intros ->. reflexivity.
Qed.

(** X6.  When the record of a relaunch has the flag set and the constructor
    does not fail, the slaves started are, in order, the peers of the record
    whose identifier is not the identifier of the record, each with the
    identifier and the data directory that the record stores for it: the
    identity that decides who is skipped is the restored one. *)
Theorem relaunch_starts_stored_peers (runner : Runner) (w : World)
  (cfg : SetupConfigFile.t) :
  setup_valid w cfg ->
  SetupConfigFile.StartLocalSlaves cfg = true ->
  (forall c, exists slave,
     NewService (mustCreateIDLogger (Config.ID c)) c true = Ok slave) ->
  exists L,
    launched (events (snd (relaunch NewService runner w))) =
      launched (events w) ++ L /\
    (fun c => (Config.ID c, Config.DataDir c)) <$> L.*1 =
      (fun p => (Peer.ID p, Peer.DataDir p)) <$>
        filter (fun p => Peer.ID p <> SetupConfigFile.ID cfg)
          (peers.Peers (SetupConfigFile.Peers cfg)).
Proof.
  intros Hv Hflag Hnew.
  destruct (relaunch_valid_effects runner w cfg Hv) as (_ & Hev & _).
  rewrite Hflag in Hev.
  exists (omap (slave_of NewService (restored cfg (s_ w)))
            (peers.Peers (SetupConfigFile.Peers cfg))).
  split.
  - rewrite Hev, launched_app. f_equal.
    change (StartHTTPServer :: ?l) with ([StartHTTPServer] ++ l).
    rewrite !launched_app, launched_peer_events. simpl.
    apply app_nil_r.
  - rewrite slaves_of_candidates by exact Hnew.
    rewrite <- list_fmap_compose. unfold candidates. reflexivity.
Qed.

(** X7.  Save, then relaunch: after [saveSetup] returned nil, a [relaunch]
    of the same instance returns true exactly when the setup file can be
    opened for reading and [json.Unmarshal] decodes the bytes
    [json.Marshal] gave to a record of the current version.  The instance
    then has the identifier and the peer list of the decoded record and the
    agency size of that peer list, whatever the configured one was, and
    its data directory is untouched.  For a well-formed record these are the
    identifier and the peer list that were saved. *)
Theorem saveSetup_then_relaunch (runner : Runner) (w w' : World) :
  saveSetup w = (None, w') ->
  let r := relaunch NewService runner w' in
  exists b,
    json_Marshal (setup_of (s_ w)) = Ok b /\
    (fst r = true <->
       (setup_mode w).1 = None /\
       exists cfg,
         json_Unmarshal b = Ok cfg /\
         SetupConfigFile.Version cfg = SetupConfigVersion) /\
    (forall cfg,
       fst r = true -> json_Unmarshal b = Ok cfg ->
       Config.ID (Config_ (s_ (snd r))) = SetupConfigFile.ID cfg /\
       myPeers (s_ (snd r)) = SetupConfigFile.Peers cfg /\
       Config.AgencySize (Config_ (s_ (snd r))) =
         peers.AgencySize (SetupConfigFile.Peers cfg) /\
       Config.DataDir (Config_ (s_ (snd r))) =
         Config.DataDir (Config_ (s_ w))) /\
    (fst r = true -> well_formed (setup_of (s_ w)) ->
       Config.ID (Config_ (s_ (snd r))) = Config.ID (Config_ (s_ w)) /\
       myPeers (s_ (snd r)) = myPeers (s_ w)).
Proof.
  intros Hsave. cbv zeta.
  destruct (saveSetup_nil w w' Hsave)
    as (b & Hm & Hs & Hfs & _).
  assert (Hfile : fs w' !! setup_path (s_ w') =
                    Some (File b (setup_mode w).1 (setup_mode w).2))
    by (rewrite Hs, Hfs; apply lookup_insert_eq).
  exists b. split; [exact Hm |].
  destruct (setup_mode w).1 as [e |] eqn:Hrd.
  { (* the file cannot be read *)
    rewrite (relaunch_cannot_read NewService runner w')
      by (right; left; by eexists _, _, _).
    simpl. split; [| split]; try discriminate.
    split; [discriminate | intros [[=] _]]. }
  assert (Hc : setup_content w' b) by (by eexists).
  destruct (json_Unmarshal b) as [cfg | err] eqn:Hu.
  2: { rewrite (relaunch_cannot_parse NewService runner w' b err Hc Hu).
       simpl. split; [| split]; try discriminate.
       split; [discriminate | intros (_ & cfg & [=] & _)]. }
  destruct (decide (SetupConfigFile.Version cfg = SetupConfigVersion))
    as [Hv | Hv].
  2: { rewrite (relaunch_outdated NewService runner w' b cfg Hc Hu Hv).
       simpl. split; [| split]; try discriminate.
       split; [discriminate | intros (_ & cfg' & [= <-] & Hv'); done]. }
  assert (Hvalid : setup_valid w' cfg) by (exists b; done).
  destruct (relaunch_valid_effects runner w' cfg Hvalid)
    as (Ht & _ & Hs' & _).
  rewrite Ht, Hs', Hs. split; [| split].
  - split; [intros _; split; [reflexivity | by exists cfg] | reflexivity].
  - intros cfg' _ [= <-].
    destruct (SetupConfigFile.StartLocalSlaves cfg); repeat split.
  - intros _ (b' & Hm' & Hu'). rewrite Hm in Hm'. injection Hm' as <-.
    rewrite Hu in Hu'. injection Hu' as ->.
    destruct (SetupConfigFile.StartLocalSlaves _); repeat split.
Qed.

(** ** Fresh slaves when some draws fail *)

Lemma createLocalPeer_run (i : nat) (acc : list Peer.t) (w : World) (d : nat) :
  ids_drawn w = (d + i)%nat ->
  let r := createLocalPeer (Z.of_nat i + 2) acc w in
  fst r = acc ++ option_list (drawn_peer (s_ w) d i) /\
  s_ (snd r) = s_ w /\ fs (snd r) = fs w /\ fs_seen (snd r) = fs_seen w /\
  events (snd r) = events w /\ next_write (snd r) = next_write w /\
  ids_drawn (snd r) = (d + S i)%nat /\
  exists new,
    logged (snd r) = logged w ++ new /\
    Forall (fun entry => level entry = LError /\ via entry = log (s_ w)) new /\
    length new = (if draw_failed d i then 1 else 0)%nat.
Proof.
  intros Hd. unfold createLocalPeer, bind, createUniqueID, self, drawn_peer,
    draw_failed. simpl. rewrite Hd.
  destruct (createUniqueID_result (d + i)) as [id | err]; simpl.
  - repeat split; try lia. exists []. rewrite app_nil_r. done.
  - rewrite app_nil_r. repeat split; try lia.
    eexists. split; [reflexivity |]. split; [| reflexivity].
    repeat constructor.
Qed.

Lemma createLocalPeers_any (n : nat) :
  forall (i0 : nat) (acc : list Peer.t) (w : World) (d : nat),
    ids_drawn w = (d + i0)%nat ->
    let r := for_loop createLocalPeer
               ((fun i : nat => Z.of_nat i + 2) <$> seq i0 n) acc w in
    fst r = acc ++ omap (drawn_peer (s_ w) d) (seq i0 n) /\
    s_ (snd r) = s_ w /\ fs (snd r) = fs w /\ fs_seen (snd r) = fs_seen w /\
    events (snd r) = events w /\ next_write (snd r) = next_write w /\
    ids_drawn (snd r) = (d + i0 + n)%nat /\
    exists new,
      logged (snd r) = logged w ++ new /\
      Forall (fun entry => level entry = LError /\ via entry = log (s_ w))
        new /\
      length new = length (List.filter (draw_failed d) (seq i0 n)).
Proof.
  induction n as [| n IH]; intros i0 acc w d Hd.
  - simpl. rewrite app_nil_r. repeat split; try lia.
    exists []. rewrite app_nil_r. done.
  - cbn [seq fmap list_fmap for_loop]. unfold bind.
    pose proof (createLocalPeer_run i0 acc w d Hd) as H1. cbv zeta in H1.
    destruct (createLocalPeer (Z.of_nat i0 + 2) acc w) as [acc1 w1].
    simpl in H1.
    destruct H1 as (Hacc & Hs & Hfs & Hseen & Hev & Hnw & Hid
                    & new1 & Hlog & Hall & Hlen).
    specialize (IH (S i0) acc1 w1 d Hid). cbv zeta in IH.
    destruct IH as (Hacc' & Hs' & Hfs' & Hseen' & Hev' & Hnw' & Hid'
                    & new2 & Hlog' & Hall' & Hlen').
    change (list_fmap nat Z (fun i : nat => Z.of_nat i + 2) (seq (S i0) n))
      with ((fun i : nat => Z.of_nat i + 2) <$> seq (S i0) n).
    rewrite Hacc', Hs', Hfs', Hseen', Hev', Hnw', Hid', Hlog'.
    rewrite Hacc, Hs, Hfs, Hseen, Hev, Hnw, Hlog, <- !app_assoc.
    split.
    { f_equal.
      change (omap (drawn_peer (s_ w) d) (i0 :: seq (S i0) n))
        with (match drawn_peer (s_ w) d i0 with
              | Some y => y :: omap (drawn_peer (s_ w) d) (seq (S i0) n)
              | None => omap (drawn_peer (s_ w) d) (seq (S i0) n)
              end).
      destruct (drawn_peer (s_ w) d i0); reflexivity. }
    repeat split; try lia.
    exists (new1 ++ new2). split; [reflexivity |]. split.
    + apply Forall_app. rewrite Hs in Hall'. done.
    + rewrite length_app, Hlen, Hlen'. simpl.
      destruct (draw_failed d i0); simpl; lia.
Qed.

Lemma seqZ_from_2 (n : Z) :
  seqZ 2 n = (fun i : nat => Z.of_nat i + 2) <$> seq 0 (Z.to_nat n).
Proof. reflexivity. Qed.

(** What [createAndStartLocalSlaves] does for any outcome of the draws. *)
Lemma createAndStartLocalSlaves_effects (wg : Z) (w : World) :
  let s := s_ w in
  let n := Z.to_nat (Config.AgencySize (Config_ s) - 1) in
  let created := omap (drawn_peer s (ids_drawn w)) (seq 0 n) in
  let L := omap (slave_of NewService s) created in
  let l := mustCreateIDLogger (Config.ID (Config_ s)) in
  0 <= Config.AgencySize (Config_ s) <= make_Peers_max ->
  let r := createAndStartLocalSlaves NewService wg w in
  fst r = Returns (wg + Z.of_nat (length L)) /\
  launched (events (snd r)) = launched (events w) ++ L /\
  ids_drawn (snd r) = (ids_drawn w + n)%nat /\
  dirs_added (fs w) (fs (snd r)) /\
  exists new1 new2,
    logged (snd r) =
      logged w ++ new1 ++
      {| via := l; level := LInfo; format := "Starting %d local slaves...";
         args := [AInt (Z.of_nat (length created) - 1)] |} :: new2 /\
    Forall (fun entry => level entry = LError) new1 /\
    length new1 = length (List.filter (draw_failed (ids_drawn w)) (seq 0 n)) /\
    Forall (fun entry => level entry = LError) new2 /\
    length new2 = length (omap (construction_error NewService s) created).
Proof.
  cbv zeta. intros HN.
  unfold createAndStartLocalSlaves, bind, self. simpl.
  destruct (Z.ltb_spec (Config.AgencySize (Config_ (s_ w))) 0) as [? | _];
    [lia |].
  destruct (Z.ltb_spec make_Peers_max (Config.AgencySize (Config_ (s_ w))))
    as [? | _]; [lia |].
  simpl. rewrite seqZ_from_2.
  pose proof (createLocalPeers_any
                (Z.to_nat (Config.AgencySize (Config_ (s_ w)) - 1))
                0%nat [] w (ids_drawn w)) as H1.
  cbv zeta in H1.
  destruct (for_loop createLocalPeer _ [] w) as [peers w1]. simpl in H1.
  destruct H1 as (Hp & Hs & Hfs & _ & Hev & _ & Hid
                  & new1 & Hlog & Hall & Hlen); [lia |].
  pose proof (startLocalSlaves_run NewService wg peers w1) as Hrun.
  pose proof (startLocalSlaves_effects wg peers w1) as Heff.
  cbv zeta in Hrun, Heff.
  destruct (startLocalSlaves NewService wg peers w1) as [wg2 w2].
  simpl in Hrun, Heff |- *.
  destruct Hrun as (_ & [Hfs2 _] & _ & Hid2 & Hl & Hwg).
  destruct Heff as (_ & _ & _ & new2 & Hlog2 & Hall2 & Hlen2).
  rewrite Hs in *. rewrite Hev in Hl. subst peers. rewrite Hfs in Hfs2.
  rewrite Hwg, Hl, Hid2, Hid, Hlog2, Hlog, <- app_assoc.
  split; [reflexivity |]. split; [reflexivity |]. split; [lia |].
  split; [exact Hfs2 |].
  exists new1, new2. split; [reflexivity |].
  split; [eapply Forall_impl; [exact Hall | by intros ? [? _]] |].
  split; [exact Hlen |].
  split; [eapply Forall_impl; [exact Hall2 | by intros ? [? _]] |].
  exact Hlen2.
Qed.

Lemma drawn_or_failed (s : Service) (d : nat) (l : list nat) :
  (length (omap (drawn_peer s d) l) +
   length (List.filter (draw_failed d) l))%nat = length l.
Proof.
  induction l as [| i l IH]; [reflexivity |].
  change (omap (drawn_peer s d) (i :: l))
    with (match drawn_peer s d i with
          | Some y => y :: omap (drawn_peer s d) l
          | None => omap (drawn_peer s d) l
          end).
  cbn [List.filter length].
  set (L1 := omap (drawn_peer s d) l) in *.
  set (L2 := List.filter (draw_failed d) l) in *.
  unfold drawn_peer, draw_failed.
  destruct (createUniqueID_result (d + i)); simpl; lia.
Qed.

Lemma errors_app (l1 l2 : list LogEntry) :
  errors (l1 ++ l2) = errors l1 ++ errors l2.
Proof. apply List.filter_app. Qed.

(** The slaves of the peers created, when no draw gives the parent's
    identifier and the constructor does not fail. *)
Lemma created_all_start (w : World) (n : nat) :
  (forall c, exists slave,
     NewService (mustCreateIDLogger (Config.ID c)) c true = Ok slave) ->
  (forall i id, (i < n)%nat ->
     createUniqueID_result (ids_drawn w + i) = Ok id ->
     id <> Config.ID (Config_ (s_ w))) ->
  let created := omap (drawn_peer (s_ w) (ids_drawn w)) (seq 0 n) in
  (omap (slave_of NewService (s_ w)) created).*1
    = slave_config (s_ w) <$> created /\
  omap (construction_error NewService (s_ w)) created = [].
Proof.
  intros Hnew Hne. cbv zeta.
  assert (Hall : forall p,
            p ∈ omap (drawn_peer (s_ w) (ids_drawn w)) (seq 0 n) ->
            Peer.ID p <> Config.ID (Config_ (s_ w))).
  { intros p Hp. apply list_elem_of_omap in Hp as (i & Hi & Hdp).
    apply elem_of_seq in Hi. unfold drawn_peer in Hdp.
    destruct (createUniqueID_result (ids_drawn w + i)) as [id | err] eqn:Hr;
      [| discriminate].
    injection Hdp as <-. simpl. apply (Hne i id); [lia | exact Hr]. }
  split.
  - rewrite slaves_of_candidates by exact Hnew. f_equal.
    unfold candidates. apply filter_all, Forall_forall. exact Hall.
  - induction (omap (drawn_peer (s_ w) (ids_drawn w)) (seq 0 n))
      as [| p l IH]; [reflexivity |].
    change (omap (construction_error NewService (s_ w)) (p :: l))
      with (match construction_error NewService (s_ w) p with
            | Some y => y :: omap (construction_error NewService (s_ w)) l
            | None => omap (construction_error NewService (s_ w)) l
            end).
    rewrite IH by (intros q Hq; apply Hall; apply elem_of_cons; by right).
    unfold construction_error.
    case_bool_decide; [reflexivity |].
    destruct (Hnew (slave_config (s_ w) p)) as [slave Hs]. simpl in Hs.
    rewrite Hs. reflexivity.
Qed.

(** X8.  A failed draw of [createUniqueID] costs one slave and nothing
    else.  With an agency size [N >= 0] within the capacity [make] grants,
    a constructor that does not fail and draws that never give the parent's
    identifier,
    [createAndStartLocalSlaves] draws [N - 1] times (none for [N <= 1]),
    logs one error per failed draw, and starts one slave per successful
    draw, in order; the slave of the [i]-th draw (from 0) has the identifier
    drawn and the data directory [local-slave-(i+1)] under the parent's,
    whether or not earlier draws failed. *)
Theorem createAndStartLocalSlaves_failed_draws (wg : Z) (w : World) :
  let s := s_ w in
  let d := ids_drawn w in
  let n := Z.to_nat (Config.AgencySize (Config_ s) - 1) in
  0 <= Config.AgencySize (Config_ s) <= make_Peers_max ->
  (forall c, exists slave,
     NewService (mustCreateIDLogger (Config.ID c)) c true = Ok slave) ->
  (forall i id, (i < n)%nat ->
     createUniqueID_result (d + i) = Ok id -> id <> Config.ID (Config_ s)) ->
  let r := createAndStartLocalSlaves NewService wg w in
  exists L new,
    launched (events (snd r)) = launched (events w) ++ L /\
    logged (snd r) = logged w ++ new /\
    fst r = Returns (wg + Z.of_nat (length L)) /\
    ids_drawn (snd r) = (d + n)%nat /\
    (fun c => (Config.ID c, Config.DataDir c)) <$> L.*1 =
      omap (fun i : nat =>
              match createUniqueID_result (d + i) with
              | Ok id =>
                  Some (id,
                        filepath_Join (Config.DataDir (Config_ s))
                          (local_slave_name (Z.of_nat i + 1)))
              | Err _ => None
              end) (seq 0 n) /\
    length (errors new) = length (List.filter (draw_failed d) (seq 0 n)) /\
    (length L + length (errors new))%nat = n.
Proof.
  cbv zeta. intros HN Hnew Hne.
  destruct (createAndStartLocalSlaves_effects wg w HN)
    as (Hret & Hl & Hid & _ & new1 & new2 & Hlog & Hall1 & Hlen1
        & Hall2 & Hlen2).
  destruct (created_all_start w _ Hnew Hne) as (Hcfg & Hnone).
  cbv zeta in Hcfg.
  rewrite Hnone in Hlen2. apply nil_length_inv in Hlen2. subst new2.
  eexists _, _. split; [exact Hl |]. split; [exact Hlog |].
  split; [exact Hret |]. split; [exact Hid |].
  assert (Herr : length (errors (new1 ++
                   [{| via := mustCreateIDLogger (Config.ID (Config_ (s_ w)));
                       level := LInfo;
                       format := "Starting %d local slaves...";
                       args := [AInt (Z.of_nat (length (omap
                                 (drawn_peer (s_ w) (ids_drawn w))
                                 (seq 0 (Z.to_nat (Config.AgencySize
                                    (Config_ (s_ w)) - 1))))) - 1)] |}]))
                 = length (List.filter (draw_failed (ids_drawn w))
                     (seq 0 (Z.to_nat (Config.AgencySize
                                         (Config_ (s_ w)) - 1))))).
  { rewrite errors_app, errors_all by exact Hall1.
    change (errors [_]) with (@nil LogEntry).
    rewrite app_nil_r. exact Hlen1. }
  split; [| split; [exact Herr |]].
  - rewrite Hcfg, <- list_fmap_compose, list_fmap_omap.
    apply list_omap_ext, Forall2_same_length_lookup_2; [reflexivity |].
    intros i x y Hx Hy. rewrite Hx in Hy. injection Hy as <-.
    unfold drawn_peer.
    destruct (createUniqueID_result (ids_drawn w + x)); simpl; [| done].
    replace (Z.of_nat x + 2 - 1) with (Z.of_nat x + 1) by lia. reflexivity.
  - rewrite Herr.
    rewrite <- (length_fmap fst), Hcfg, length_fmap.
    rewrite drawn_or_failed. apply length_seq.
Qed.

(** X9.  The number [createAndStartLocalSlaves] announces is one short.
    With an agency size [N >= 0] within the capacity [make] grants, a
    constructor that does not fail and draws that never give the parent's
    identifier, the log has a single line at info level,
    ["Starting %d local slaves..."], and its number is the number of slaves
    started minus one: the list handed to [startLocalSlaves] holds the new
    peers only, not the parent. *)
Theorem createAndStartLocalSlaves_announces (wg : Z) (w : World) :
  let s := s_ w in
  let n := Z.to_nat (Config.AgencySize (Config_ s) - 1) in
  0 <= Config.AgencySize (Config_ s) <= make_Peers_max ->
  (forall c, exists slave,
     NewService (mustCreateIDLogger (Config.ID c)) c true = Ok slave) ->
  (forall i id, (i < n)%nat ->
     createUniqueID_result (ids_drawn w + i) = Ok id ->
     id <> Config.ID (Config_ s)) ->
  let r := createAndStartLocalSlaves NewService wg w in
  exists L new1 new2,
    launched (events (snd r)) = launched (events w) ++ L /\
    logged (snd r) =
      logged w ++ new1 ++
      {| via := mustCreateIDLogger (Config.ID (Config_ s)); level := LInfo;
         format := "Starting %d local slaves...";
         args := [AInt (Z.of_nat (length L) - 1)] |} :: new2 /\
    Forall (fun entry => level entry = LError) (new1 ++ new2).
Proof.
  cbv zeta. intros HN Hnew Hne.
  destruct (createAndStartLocalSlaves_effects wg w HN)
    as (_ & Hl & _ & _ & new1 & new2 & Hlog & Hall1 & _ & Hall2 & _).
  destruct (created_all_start w _ Hnew Hne) as (Hcfg & _).
  cbv zeta in Hcfg.
  eexists _, new1, new2. split; [exact Hl |]. split.
  - rewrite Hlog. do 5 f_equal.
    rewrite <- (length_fmap fst), Hcfg, length_fmap. reflexivity.
  - apply Forall_app. done.
Qed.

(** ** The capacity of the peer list *)


(** ** The data directories of the slaves *)

Lemma length_skip_while (f : ascii -> bool) (l : list ascii) :
  (length (skip_while f l) <= length l)%nat.
Proof.
  induction l as [| c l IH]; simpl; [lia |].
  destruct (f c); simpl; lia.
Qed.

Lemma length_list_ascii_of_string (str : string) :
  length (String.list_ascii_of_string str) = String.length str.
Proof. induction str as [| c str IH]; simpl; congruence. Qed.

Lemma length_string_of_list_ascii (l : list ascii) :
  String.length (String.string_of_list_ascii l) = length l.
Proof. induction l as [| c l IH]; simpl; congruence. Qed.

(** The parent [os.MkdirAll] makes first is a shorter path, and not the
    empty one. *)
Lemma parent_dir_shorter (path parent : string) :
  parent_dir path = Some parent ->
  (0 < String.length parent < String.length path)%nat.
Proof.
  unfold parent_dir.
  set (r0 := rev (String.list_ascii_of_string path)).
  set (r1 := skip_while IsPathSeparator r0).
  set (r2 := skip_while (fun c => negb (IsPathSeparator c)) r1).
  destruct (decide (1 < length r2)%nat) as [Hlen |]; [| discriminate].
  intros [= <-].
  rewrite length_string_of_list_ascii, length_rev, length_tl.
  pose proof (length_skip_while (fun c => negb (IsPathSeparator c)) r1).
  pose proof (length_skip_while IsPathSeparator r0).
  assert (length r0 = String.length path)
    by (unfold r0; by rewrite length_rev, length_list_ascii_of_string).
  fold r2 in H. fold r1 in H0. lia.
Qed.

Lemma ancestors_parent (fuel : nat) (path parent : string) :
  parent_dir path = Some parent ->
  ancestors (S fuel) path = path :: ancestors fuel parent.
Proof. intros Hp. simpl. by rewrite Hp. Qed.

(** Directories that are there stay, and no file appears. *)
Lemma dirs_added_Dir (m m' : gmap string node) (q : string) :
  dirs_added m m' -> m !! q = Some Dir -> m' !! q = Some Dir.
Proof. intros Hd Hq. destruct (Hd q) as [-> | [? _]]; congruence. Qed.

Lemma dirs_added_no_file (m m' : gmap string node) (q : string) :
  dirs_added m m' ->
  (forall b rd wr, m !! q <> Some (File b rd wr)) ->
  forall b rd wr, m' !! q <> Some (File b rd wr).
Proof.
  intros Hd Hq b rd wr. destruct (Hd q) as [-> | [_ ->]]; [apply Hq | done].
Qed.

Lemma can_make_later (w w' : World) (path : string) :
  dirs_added (fs w) (fs w') -> mkdir_denied w' = mkdir_denied w ->
  can_make w path -> can_make w' path.
Proof.
  intros Hd Hden [Hne Hall]. split; [exact Hne |].
  eapply Forall_impl; [exact Hall |]. intros q [Hq Hfile].
  split; [by rewrite Hden | by eapply dirs_added_no_file].
Qed.

(** [os.MkdirAll] succeeds when nothing is in its way. *)
Lemma MkdirAll_from_makes (fuel : nat) :
  forall (path : string) (w : World),
    (String.length path < fuel)%nat -> path <> "" ->
    Forall (fun q =>
              mkdir_denied w q = false /\
              forall b rd wr, fs w !! q <> Some (File b rd wr))
      (ancestors fuel path) ->
    let r := MkdirAll_from fuel path w in
    fst r = true /\ fs (snd r) !! path = Some Dir.
Proof.
  induction fuel as [| fuel IH]; intros path w Hlen Hne Hall; [lia |].
  cbn [MkdirAll_from].
  destruct (fs w !! path) as [[b rd wr |] |] eqn:Hpath; simpl.
  - cbn [ancestors] in Hall. apply Forall_cons in Hall as [[_ Hfile] _].
    by destruct (Hfile b rd wr).
  - done.
  - unfold bind.
    assert (Hmk : forall w1,
               dirs_added (fs w) (fs w1) ->
               mkdir_denied w1 = mkdir_denied w ->
               let r := (made <- os_Mkdir path ;;
                         if made then ret true else IsDir path) w1 in
               fst r = true /\ fs (snd r) !! path = Some Dir).
    { intros w1 Hd Hden. unfold bind, os_Mkdir, IsDir, ret, fs_step.
      cbn [ancestors] in Hall. apply Forall_cons in Hall as [[Hok _] _].
      destruct (Hd path) as [Heq | [_ Hdir]].
      - rewrite Heq, Hpath. rewrite Hden, Hok.
        rewrite bool_decide_eq_false_2 by done. simpl.
        split; [reflexivity | apply lookup_insert_eq].
      - rewrite Hdir. simpl. by rewrite Hdir. }
    destruct (parent_dir path) as [parent |] eqn:Hparent.
    + pose proof (parent_dir_shorter _ _ Hparent) as Hshort.
      rewrite (ancestors_parent _ _ _ Hparent) in Hall.
      pose proof Hall as Hall'. apply Forall_cons in Hall' as [_ Hrest].
      assert (Hpne : parent <> "") by (intros ->; simpl in Hshort; lia).
      destruct (IH parent w ltac:(lia) Hpne Hrest) as [Hok _].
      pose proof (MkdirAll_from_run fuel parent w) as Hrun.
      cbv zeta in Hrun.
      destruct (MkdirAll_from fuel parent w) as [ok w1].
      simpl in Hok, Hrun. subst ok.
      destruct Hrun as ((_ & _ & _ & _ & Hden) & _ & Hd & _).
      rewrite <- (ancestors_parent fuel _ _ Hparent) in Hall.
      apply (Hmk w1); [exact Hd | exact Hden].
    + apply (Hmk w); [apply dirs_added_refl | reflexivity].
Qed.

Lemma os_MkdirAll_makes (path : string) (perm : Z) (w : World) :
  can_make w path ->
  fs (snd (os_MkdirAll path perm w)) !! path = Some Dir.
Proof.
  intros [Hne Hall]. unfold os_MkdirAll, bind, emit, ret.
  match goal with
  | |- context [MkdirAll_from ?f ?q ?w1] =>
      destruct (MkdirAll_from_makes f q w1 ltac:(lia) Hne Hall) as [_ Hdir];
      destruct (MkdirAll_from f q w1) as [ok w2]
  end.
  exact Hdir.
Qed.

Lemma startLocalSlave_makes (ma : string) (index : nat) (p : Peer.t)
  (wg : Z) (w : World) :
  Peer.ID p <> Config.ID (Config_ (s_ w)) ->
  can_make w (Peer.DataDir p) ->
  fs (snd (startLocalSlave NewService ma index p wg w)) !! Peer.DataDir p
    = Some Dir.
Proof.
  intros Hid Hcan. unfold startLocalSlave, bind, self. simpl.
  rewrite bool_decide_eq_false_2 by done.
  pose proof (os_MkdirAll_makes (Peer.DataDir p) 493 w Hcan) as Hdir.
  destruct (os_MkdirAll (Peer.DataDir p) 493 w) as [[] w1].
  simpl in Hdir.
  destruct (NewService _ _ true) as [slave | err]; simpl; exact Hdir.
Qed.

Lemma startLocalSlaves_loop_makes (ma : string) (l : list Peer.t) :
  forall (index : nat) (wg : Z) (w : World),
    ma = masterAddr_of (s_ w) ->
    (forall p, p ∈ l -> Peer.ID p <> Config.ID (Config_ (s_ w)) ->
       can_make w (Peer.DataDir p)) ->
    let w' := snd (range_loop (startLocalSlave NewService ma) index l wg w) in
    forall p, p ∈ l -> Peer.ID p <> Config.ID (Config_ (s_ w)) ->
      fs w' !! Peer.DataDir p = Some Dir.
Proof.
  induction l as [| p0 l IH]; intros index wg w -> Hcan; simpl;
    intros p Hp Hid; [by apply elem_of_nil in Hp |].
  unfold bind.
  pose proof (startLocalSlave_run NewService index p0 wg w) as Hrun.
  pose proof (startLocalSlave_makes (masterAddr_of (s_ w)) index p0 wg w)
    as Hmade.
  simpl in Hrun.
  destruct (startLocalSlave NewService (masterAddr_of (s_ w)) index p0 wg w)
    as [wg1 w1].
  simpl in Hrun, Hmade. destruct Hrun as (Hs & [Hd _] & Hden & _).
  pose proof (startLocalSlaves_loop NewService (masterAddr_of (s_ w)) l
                (S index) wg1 w1) as Hrest.
  rewrite Hs in Hrest. specialize (Hrest eq_refl). simpl in Hrest.
  destruct Hrest as (_ & [Hd' _] & _).
  specialize (IH (S index) wg1 w1). rewrite Hs in IH.
  specialize (IH eq_refl). simpl in IH.
  apply elem_of_cons in Hp as [-> | Hp].
  - eapply dirs_added_Dir; [exact Hd' |].
    apply Hmade; [exact Hid |]. apply Hcan; [left | exact Hid].
  - apply IH; [| exact Hp | exact Hid].
    intros q Hq Hqid. eapply can_make_later; [exact Hd | exact Hden |].
    apply Hcan; [by right | exact Hqid].
Qed.

(** X21.  [startLocalSlaves] makes the data directories: when, for every
    peer of the list that is not the parent itself, nothing keeps the data
    directory from being made (its path is not empty, no file sits at it or
    above it, and the system refuses to make none of the directories on the
    way), then after the call the data directory of every such peer is
    there, whether the slave could be constructed or not. *)
Theorem slaves_directories_made (wg : Z) (peers : list Peer.t) (w : World) :
  let own := Config.ID (Config_ (s_ w)) in
  let w' := snd (startLocalSlaves NewService wg peers w) in
  (forall p, p ∈ peers -> Peer.ID p <> own -> can_make w (Peer.DataDir p)) ->
  forall p, p ∈ peers -> Peer.ID p <> own ->
    fs w' !! Peer.DataDir p = Some Dir.
Proof.
  cbv zeta. intros Hcan p Hp Hid.
  unfold startLocalSlaves, bind, self, set_self, Infof, logf. simpl.
  match goal with
  | |- context [range_loop _ _ _ _ ?w1] =>
      pose proof (startLocalSlaves_loop_makes (masterAddr_of (s_ w1)) peers
                    0%nat wg w1 eq_refl) as Hl
  end.
  simpl in Hl. apply Hl; [| exact Hp | exact Hid].
  intros q Hq Hqid. destruct (Hcan q Hq Hqid) as [Hne Hall].
  split; [exact Hne | exact Hall].
Qed.

End service_more.

(** * More properties of the gone-detection *)

Section gone_more.
Variable fails : nat -> bool.

(** X10.  A starter that stops answering is declared gone by the third
    query after its last answer, no sooner and no later: if the loop has not
    ended before query [j], query [j - 1] was answered (or [j] is the first
    query) and every query from [j] on fails, then the loop ends right
    after query [j + 2], whatever the fuel beyond that. *)
Theorem gone_third_query_after_last_answer (j fuel : nat) :
  (j = 0%nat \/ fails (j - 1) = false) ->
  (forall i, (i < j)%nat -> ~ three_failures_end_at fails i) ->
  (forall i, (j <= i)%nat -> fails i = true) ->
  (j + 2 < fuel)%nat ->
  WaitUntilStarterGone fails fuel = Some (j + 2)%nat.
Proof.
  intros Hlast Hbefore Hgone Hfuel.
  apply (gone_loop_complete fails fuel 0%nat (j + 2)%nat);
    [simpl; lia | lia | |].
  - unfold three_failures_end_at.
    replace (j + 2 - 2)%nat with j by lia.
    rewrite !Hgone by lia. repeat split. lia.
  - intros i [_ Hi] (Hge & H2 & H1 & H0).
    destruct (decide (i < j)%nat) as [Hlt | Hnlt].
    + apply (Hbefore i Hlt). done.
    + destruct Hlast as [-> | Hans].
      * destruct i as [| [| i]]; lia.
      * assert (Hcase : (i = j \/ i = j + 1)%nat) by lia.
        destruct Hcase as [-> | ->].
        -- destruct j as [| [| j]]; [lia | lia |].
           replace (S (S j) - 1)%nat with (S j) in * by lia.
           congruence.
        -- replace (j + 1 - 2)%nat with (j - 1)%nat in H2 by lia.
           congruence.
Qed.

End gone_more.

(** * Properties of the test helpers *)

Section test_modes.
Import testutil.

Lemma Split_space_not_nil (s : string) : strings_Split_space s <> [].
Proof.
  destruct s as [| c s]; simpl; [done |].
  case_bool_decide; [done |]. destruct (strings_Split_space s); done.
Qed.

Lemma Split_space_empty (s : string) :
  strings_Split_space s = [EmptyString] <-> s = EmptyString.
Proof.
  split; [| intros ->; reflexivity].
  destruct s as [| c s]; [reflexivity |]. simpl.
  case_bool_decide.
  - intros [= Hs]. by apply Split_space_not_nil in Hs.
  - destruct (strings_Split_space s); discriminate.
Qed.

Lemma mode_listed_elem_of (testModes : list string) (testMode : string) :
  mode_listed testModes testMode = true <-> testMode ∈ testModes.
Proof.
  induction testModes as [| x rest IH]; simpl.
  - split; [discriminate | intros H; by apply elem_of_nil in H].
  - rewrite elem_of_cons. case_bool_decide as Hx.
    + split; [intros _; left; done | done].
    + rewrite IH. split; [by right | intros [-> | ?]; done].
Qed.

Lemma init_testModes (Getenv : string -> string) :
  snd (init Getenv) =
    if decide (Getenv "TEST_MODES" = "") then []
    else strings_Split_space (Getenv "TEST_MODES").
Proof.
  unfold init. simpl.
  destruct (decide (Getenv "TEST_MODES" = "")) as [-> | Hne];
    [reflexivity |].
  assert (Hsplit : strings_Split_space (Getenv "TEST_MODES") <> [""])
    by (by rewrite Split_space_empty).
  destruct (strings_Split_space (Getenv "TEST_MODES")) as [| x [| y l]];
    try reflexivity.
  simpl. case_bool_decide as H0; [| reflexivity].
  injection H0 as ->. done.
Qed.

(** X11.  After [init], [needTestMode] skips a test exactly when the
    variable TEST_MODES is set to a non-empty string and the mode of the
    test is none of the pieces of that string between its spaces.  With
    TEST_MODES unset or empty every test runs.  A skip leaves one [Skipped]
    entry and ends the test goroutine; otherwise nothing is recorded. *)
Theorem needTestMode_after_init (Getenv : string -> string)
  (testMode : string) (t : list Entry) :
  let r := needTestMode (snd (init Getenv)) testMode t in
  (fst r = Exited <->
     Getenv "TEST_MODES" <> "" /\
     testMode ∉ strings_Split_space (Getenv "TEST_MODES")) /\
  (fst r = Exited ->
     snd r = t ++ [Skipped "Test mode '%s' not set" [VString testMode]]) /\
  (fst r <> Exited -> r = (Returned tt, t)).
Proof.
  cbv zeta. rewrite init_testModes. unfold needTestMode.
  destruct (decide (Getenv "TEST_MODES" = "")) as [He | Hne]; simpl.
  - split; [split; [discriminate | intros [? _]; done] |].
    split; [discriminate | reflexivity].
  - destruct (mode_listed _ testMode) eqn:Hl.
    + apply mode_listed_elem_of in Hl.
      split; [split; [discriminate | intros [_ ?]; done] |].
      split; [discriminate | reflexivity].
    + assert (Hnl : testMode ∉ strings_Split_space (Getenv "TEST_MODES")).
      { rewrite <- mode_listed_elem_of, Hl. discriminate. }
      pose proof (Split_space_not_nil (Getenv "TEST_MODES")) as Hnn.
      destruct (strings_Split_space (Getenv "TEST_MODES")) as [| x l] eqn:Hs;
        [done |].
      simpl. split; [split; done |]. split; [reflexivity | done].
Qed.

Lemma Split_space_word (word : string) :
  has_space word = false -> strings_Split_space word = [word].
Proof.
  induction word as [| c word IH]; [reflexivity |]. simpl.
  case_bool_decide; [discriminate |]. simpl. intros Hw.
  by rewrite IH.
Qed.

Lemma Split_space_app (word s : string) :
  has_space word = false ->
  strings_Split_space (word +:+ " " +:+ s) = word :: strings_Split_space s.
Proof.
  induction word as [| c word IH]; [reflexivity |]. simpl.
  case_bool_decide; [discriminate |]. simpl. intros Hw.
  by rewrite IH.
Qed.

Lemma Split_Join_space (words : list string) :
  words <> [] ->
  Forall (fun word => has_space word = false) words ->
  strings_Split_space (strings_Join_space words) = words.
Proof.
  intros Hne Hall. induction Hall as [| word rest Hw Hrest IH]; [done |].
  destruct rest as [| word' rest].
  - simpl. by apply Split_space_word.
  - change (strings_Join_space (word :: word' :: rest))
      with (word +:+ " " +:+ strings_Join_space (word' :: rest)).
    rewrite Split_space_app by exact Hw. f_equal. by apply IH.
Qed.

(** X12.  The test modes are the words of TEST_MODES.  When TEST_MODES is
    a non-empty list of words (strings without a space) joined by single
    spaces, [init] sets [testModes] to that list, except that the one empty
    word gives no mode at all; and [needTestMode] then lets a test run
    exactly when there is no mode or its mode is one of the words. *)
Theorem test_modes_are_the_words (Getenv : string -> string)
  (words : list string) (testMode : string) (t : list Entry) :
  words <> [] ->
  Forall (fun word => has_space word = false) words ->
  Getenv "TEST_MODES" = strings_Join_space words ->
  snd (init Getenv) = (if decide (words = [""]) then [] else words) /\
  (needTestMode (snd (init Getenv)) testMode t = (Returned tt, t) <->
     words = [""] \/ testMode ∈ words).
Proof.
  intros Hne Hall Henv.
  assert (Hmodes : snd (init Getenv) =
            if decide (words = [""]) then [] else words).
  { rewrite init_testModes, Henv, Split_Join_space by assumption.
    destruct (decide (strings_Join_space words = "")) as [Hj | Hj];
      destruct (decide (words = [""])) as [Hw | Hw]; try reflexivity.
    - exfalso. apply Hw. rewrite <- (Split_Join_space words) by assumption.
      by rewrite Hj.
    - exfalso. apply Hj. by rewrite Hw. }
  split; [exact Hmodes |].
  rewrite Hmodes. unfold needTestMode.
  destruct (decide (words = [""])) as [Hw | Hw]; simpl.
  - split; [by left | reflexivity].
  - destruct (mode_listed words testMode) eqn:Hl.
    + apply mode_listed_elem_of in Hl. split; [by right | reflexivity].
    + destruct words as [| x l]; [done |]. simpl.
      split; [discriminate |]. intros [? | Hin]; [done |].
      apply mode_listed_elem_of in Hin. congruence.
Qed.

Lemma int_add_inj (IntSize base a b : Z) :
  0 < IntSize ->
  is_int IntSize a -> is_int IntSize b ->
  int_add IntSize base a = int_add IntSize base b -> a = b.
Proof.
  unfold is_int, int_add. intros Hsize Ha Hb Heq.
  assert (Hpow : 2 ^ IntSize = 2 * 2 ^ (IntSize - 1)).
  { rewrite <- Z.pow_succ_r by lia. f_equal. lia. }
  assert (0 < 2 ^ (IntSize - 1)) by (apply Z.pow_pos_nonneg; lia).
  set (h := 2 ^ (IntSize - 1)) in *. rewrite Hpow in Heq.
  assert (Hmod : (base + a + h) mod (2 * h) = (base + b + h) mod (2 * h))
    by lia.
  pose proof (Z.div_mod (base + a + h) (2 * h)) as Hda.
  pose proof (Z.div_mod (base + b + h) (2 * h)) as Hdb.
  rewrite Hmod in Hda.
  set (qa := (base + a + h) / (2 * h)) in *.
  set (qb := (base + b + h) / (2 * h)) in *.
  assert (Hdiff : a - b = 2 * h * (qa - qb)) by lia.
  destruct (Z.lt_trichotomy qa qb) as [Hlt | [Heqq | Hgt]].
  - assert (2 * h * (qa - qb) <= 2 * h * (-1)) by (apply Z.mul_le_mono_nonneg_l; lia).
    lia.
  - rewrite Heqq in Hdiff. lia.
  - assert (2 * h * 1 <= 2 * h * (qa - qb)) by (apply Z.mul_le_mono_nonneg_l; lia).
    lia.
Qed.

(** X13.  Starter endpoints tell the starters apart: two port offsets, as
    values of an [int], give the same insecure endpoint, or the same secure
    endpoint, only when they are equal, also when the sum with the base
    port wraps around; and no insecure endpoint is a secure one. *)
Theorem starter_endpoints_apart (DefaultMasterPort IntSize a b : Z) :
  0 < IntSize ->
  is_int IntSize a -> is_int IntSize b ->
  (insecureStarterEndpoint DefaultMasterPort IntSize a =
     insecureStarterEndpoint DefaultMasterPort IntSize b -> a = b) /\
  (secureStarterEndpoint DefaultMasterPort IntSize a =
     secureStarterEndpoint DefaultMasterPort IntSize b -> a = b) /\
  insecureStarterEndpoint DefaultMasterPort IntSize a <>
    secureStarterEndpoint DefaultMasterPort IntSize b.
Proof.
  intros Hsize Ha Hb.
  unfold insecureStarterEndpoint, secureStarterEndpoint, basePort,
    strconv_Itoa.
  split; [| split].
  - intros Heq. apply (inj (String.app "http://localhost:")) in Heq.
    apply (inj pretty) in Heq. by eapply int_add_inj.
  - intros Heq. apply (inj (String.app "https://localhost:")) in Heq.
    apply (inj pretty) in Heq. by eapply int_add_inj.
  - simpl. discriminate.
Qed.

End test_modes.

Section test_processes.
Import testutil.
Context {H : Harness}.

Lemma failures_app (t1 t2 : list Entry) :
  failures (t1 ++ t2) = failures t1 ++ failures t2.
Proof. apply List.filter_app. Qed.

Lemma requests_app (t1 t2 : list Entry) :
  requests (t1 ++ t2) = requests t1 ++ requests t2.
Proof. apply omap_app. Qed.

Lemma passes_ret : passes (ret tt) True [].
Proof. intros t. exists []. rewrite app_nil_r. done. Qed.

Lemma passes_Errorf (format : string) (args : list Value) :
  passes (t_Errorf format args) False [].
Proof. intros t. eexists. split; [reflexivity |]. done. Qed.

Lemma passes_Logf (format : string) (args : list Value) :
  passes (t_Logf format args) True [].
Proof. intros t. eexists. split; [reflexivity |]. done. Qed.

Lemma passes_iff (m : Test unit) (C C' : Prop) (R R' : list string) :
  passes m C R -> (C <-> C') -> R = R' -> passes m C' R'.
Proof.
  intros Hm HC <- t. destruct (Hm t) as (new & Hrun & Hf & Hr).
  exists new. rewrite <- HC. done.
Qed.

Lemma passes_when (b : bool) (m : Test unit) (C : Prop) (R : list string) :
  passes m C R ->
  passes (when b m) (b = true -> C) (if b then R else []).
Proof.
  intros Hm. destruct b; simpl.
  - eapply passes_iff; [exact Hm | | reflexivity].
    split; [auto | intros HC; by apply HC].
  - eapply passes_iff; [exact passes_ret | | reflexivity].
    intuition discriminate.
Qed.

Lemma passes_when_Errorf (b : bool) (format : string) (args : list Value) :
  passes (when b (t_Errorf format args)) (b = false) [].
Proof.
  eapply passes_iff; [apply passes_when, passes_Errorf | |].
  - destruct b; intuition discriminate.
  - by destruct b.
Qed.

Lemma passes_bind (m k : Test unit) (C1 C2 : Prop) (R1 R2 : list string) :
  passes m C1 R1 -> passes k C2 R2 ->
  passes (bind m (fun _ => k)) (C1 /\ C2) (R1 ++ R2).
Proof.
  intros Hm Hk t. destruct (Hm t) as (new1 & Hrun1 & Hf1 & Hr1).
  destruct (Hk (t ++ new1)) as (new2 & Hrun2 & Hf2 & Hr2).
  exists (new1 ++ new2). unfold bind. rewrite Hrun1, Hrun2, app_assoc.
  split; [reflexivity |]. rewrite failures_app, requests_app, Hr1, Hr2.
  split; [| reflexivity].
  rewrite <- Hf1, <- Hf2. split.
  - intros Happ. by apply app_eq_nil in Happ.
  - intros [-> ->]. reflexivity.
Qed.

Lemma passes_reachable (sp : ServerProcess) :
  passes (testArangodReachable sp)
    (httpClient_Get (arangod_url sp) = None) [arangod_url sp].
Proof.
  intros t. unfold testArangodReachable, bind, t_Errorf, record, ret.
  destruct (httpClient_Get (arangod_url sp)) as [err |]; simpl.
  - exists [HttpGet (arangod_url sp);
            Failed "Failed to reach arangod at %s:%d"
              [VString (IP sp); VInt (Port sp)]].
    rewrite <- app_assoc. split; [reflexivity |]. done.
  - exists [HttpGet (arangod_url sp)]. split; [reflexivity |]. done.
Qed.

(** One of the four checks of [testProcesses]: a server that is found, in
    a mode that may forbid it. *)
Lemma passes_found (o : option ServerProcess) (mode forbidden : string)
  (isSecure : bool) (f1 f2 f3 : string) (none : Test unit) (Cnone : Prop) :
  passes none Cnone [] ->
  passes
    (match o with
     | Some sp =>
         bind (when (negb (Bool.eqb (IsSecure sp) isSecure))
                 (t_Errorf f1 [VBool isSecure; VBool (IsSecure sp)]))
           (fun _ =>
            if bool_decide (mode = forbidden) then t_Errorf f2 []
            else
              bind (when isVerbose
                      (t_Logf f3 [VString (IP sp); VInt (Port sp)]))
                (fun _ => testArangodReachable sp))
     | None => none
     end)
    (match o with
     | Some sp => mode <> forbidden /\ server_ok isSecure sp
     | None => Cnone
     end)
    (match o with
     | Some sp => if bool_decide (mode = forbidden) then [] else [arangod_url sp]
     | None => []
     end).
Proof.
  intros Hnone. destruct o as [sp |]; [| exact Hnone].
  case_bool_decide as Hmode.
  - eapply passes_iff.
    + eapply passes_bind; [apply passes_when_Errorf | apply passes_Errorf].
    + split; [intros [_ []] | intros [Hne _]; done].
    + reflexivity.
  - eapply passes_iff.
    + eapply passes_bind; [apply passes_when_Errorf |].
      eapply passes_bind; [apply passes_when, passes_Logf |
                           apply passes_reachable].
    + unfold server_ok.
      destruct (IsSecure sp), isSecure; simpl; intuition congruence.
    + by destruct isVerbose.
Qed.

Lemma passes_version (c : API) :
  passes
    (match c_Version c with
     | Err err =>
         t_Errorf "Failed to get starter version: %s"
           [VString (describe (Some err))]
     | Ok info =>
         when isVerbose
           (t_Logf "Found starter version %s, %s"
              [VString (Version info); VString (Build info)])
     end)
    (exists info, c_Version c = Ok info) [].
Proof.
  destruct (c_Version c) as [info | err].
  - eapply passes_iff; [apply passes_when, passes_Logf | |].
    + split; [intros _; by eexists | done].
    + by destruct isVerbose.
  - eapply passes_iff; [apply passes_Errorf | | reflexivity].
    split; [done | intros [? ?]; done].
Qed.

(** The checks of [testProcesses] once the processes are known. *)
Lemma testProcesses_passes (c : API) (mode starterEndpoint : string)
  (isSecure : bool) (processes : ProcessList) :
  c_Processes c = Ok processes ->
  let found type_ := ServerByType processes type_ in
  let missing (required : string) :=
    mode <> required in
  passes (testProcesses c mode starterEndpoint isSecure)
    ((exists info, c_Version c = Ok info) /\
     (match found ServerTypeAgent with
      | Some sp => mode <> "single" /\ server_ok isSecure sp
      | None => True
      end) /\
     (match found ServerTypeCoordinator with
      | Some sp => mode <> "single" /\ server_ok isSecure sp
      | None => missing "cluster"
      end) /\
     (match found ServerTypeDBServer with
      | Some sp => mode <> "single" /\ server_ok isSecure sp
      | None => missing "cluster"
      end) /\
     (match found ServerTypeSingle with
      | Some sp => mode <> "cluster" /\ server_ok isSecure sp
      | None => missing "single"
      end))
    ((match found ServerTypeAgent with
      | Some sp => if bool_decide (mode = "single") then [] else [arangod_url sp]
      | None => []
      end) ++
     (match found ServerTypeCoordinator with
      | Some sp => if bool_decide (mode = "single") then [] else [arangod_url sp]
      | None => []
      end) ++
     (match found ServerTypeDBServer with
      | Some sp => if bool_decide (mode = "single") then [] else [arangod_url sp]
      | None => []
      end) ++
     (match found ServerTypeSingle with
      | Some sp => if bool_decide (mode = "cluster") then [] else [arangod_url sp]
      | None => []
      end)).
Proof.
  intros Hp. cbv zeta. unfold testProcesses. rewrite Hp.
  eapply passes_iff.
  - eapply passes_bind; [apply passes_version |].
    eapply passes_bind; [apply passes_found, passes_ret |].
    eapply passes_bind; [apply passes_found, passes_when_Errorf |].
    eapply passes_bind; [apply passes_found, passes_when_Errorf |].
    apply passes_found, passes_when_Errorf.
  - repeat case_match; repeat case_bool_decide; simpl;
      intuition congruence.
  - reflexivity.
Qed.

(** In single mode [testProcesses] lets the test pass exactly when
    the version query is answered, the starter lists no agent, no
    coordinator and no dbserver, and it lists a single server whose
    [IsSecure] is the expected one and whose version URL answers.  It always
    returns, and the single server is the only one it ever requests. *)
Lemma testProcesses_single (c : API) (starterEndpoint : string)
  (isSecure : bool) (processes : ProcessList) (t : list Entry) :
  c_Processes c = Ok processes ->
  exists new,
    testProcesses c "single" starterEndpoint isSecure t
      = (Returned tt, t ++ new) /\
    (failures new = [] <->
       (exists info, c_Version c = Ok info) /\
       ServerByType processes ServerTypeAgent = None /\
       ServerByType processes ServerTypeCoordinator = None /\
       ServerByType processes ServerTypeDBServer = None /\
       exists sp, ServerByType processes ServerTypeSingle = Some sp /\
                  server_ok isSecure sp) /\
    requests new =
      match ServerByType processes ServerTypeSingle with
      | Some sp => [arangod_url sp]
      | None => []
      end.
Proof.
  intros Hp.
  pose proof (testProcesses_passes c "single" starterEndpoint isSecure
                processes Hp) as Hpass.
  cbv zeta in Hpass.
  eapply passes_iff in Hpass; [exact (Hpass t) | |].
  - destruct (ServerByType processes ServerTypeAgent) as [a|];
      destruct (ServerByType processes ServerTypeCoordinator) as [co|];
      destruct (ServerByType processes ServerTypeDBServer) as [d|];
      destruct (ServerByType processes ServerTypeSingle) as [sg|];
      (split;
       [ intros (Hv & Ha & Hco & Hd & Hsg)
       | intros (Hv & Ha & Hco & Hd & sp & Hsp & Hok) ]);
      try discriminate; try (exfalso; tauto);
      try (exfalso; apply Hsg; reflexivity).
    + repeat split; try done. exists sg. tauto.
    + injection Hsp as <-. destruct Hok. repeat split; first [done | tauto].
  - repeat case_bool_decide; try congruence;
      repeat case_match; reflexivity.
Qed.

(** In cluster mode [testProcesses] lets the test pass exactly when
    the version query is answered, the starter lists a coordinator and a
    dbserver, no single server, and every server it lists (the agent too,
    which is not required) has the expected [IsSecure] and answers at its
    version URL.  The requests go to the agent, the coordinator and the
    dbserver that are listed, in this order. *)
Lemma testProcesses_cluster (c : API) (starterEndpoint : string)
  (isSecure : bool) (processes : ProcessList) (t : list Entry) :
  c_Processes c = Ok processes ->
  exists new,
    testProcesses c "cluster" starterEndpoint isSecure t
      = (Returned tt, t ++ new) /\
    (failures new = [] <->
       (exists info, c_Version c = Ok info) /\
       (forall sp, ServerByType processes ServerTypeAgent = Some sp ->
                   server_ok isSecure sp) /\
       (exists sp, ServerByType processes ServerTypeCoordinator = Some sp /\
                   server_ok isSecure sp) /\
       (exists sp, ServerByType processes ServerTypeDBServer = Some sp /\
                   server_ok isSecure sp) /\
       ServerByType processes ServerTypeSingle = None) /\
    requests new =
      (arangod_url <$>
         option_list (ServerByType processes ServerTypeAgent)) ++
      (arangod_url <$>
         option_list (ServerByType processes ServerTypeCoordinator)) ++
      (arangod_url <$>
         option_list (ServerByType processes ServerTypeDBServer)).
Proof.
  intros Hp.
  pose proof (testProcesses_passes c "cluster" starterEndpoint isSecure
                processes Hp) as Hpass.
  cbv zeta in Hpass.
  eapply passes_iff in Hpass; [exact (Hpass t) | |].
  - destruct (ServerByType processes ServerTypeAgent) as [a|];
      destruct (ServerByType processes ServerTypeCoordinator) as [co|];
      destruct (ServerByType processes ServerTypeDBServer) as [d|];
      destruct (ServerByType processes ServerTypeSingle) as [sg|];
      (split;
       [ intros (Hv & Ha & Hco & Hd & Hsg)
       | intros (Hv & Ha & (sp1 & Hsp1 & Hok1) & (sp2 & Hsp2 & Hok2) & Hsg) ]);
      try discriminate; try (exfalso; tauto);
      try (exfalso; apply Hco; reflexivity);
      try (exfalso; apply Hd; reflexivity).
    + split; [done |]. split; [intros sp' [= <-]; tauto |].
      split; [exists co; tauto |]. split; [exists d; tauto | done].
    + injection Hsp1 as <-. injection Hsp2 as <-.
      destruct (Ha a eq_refl), Hok1, Hok2.
      repeat split; first [done | tauto].
    + split; [done |]. split; [intros sp' [=] |].
      split; [exists co; tauto |]. split; [exists d; tauto | done].
    + injection Hsp1 as <-. injection Hsp2 as <-. destruct Hok1, Hok2.
      repeat split; first [done | tauto].
  - repeat case_bool_decide; try congruence;
      repeat case_match; simpl; rewrite ?app_nil_r; reflexivity.
Qed.

Lemma NewStarterClient_some (endpoint : string) (c : API) (t : list Entry) :
  client_of endpoint = Some c ->
  NewStarterClient endpoint t = (Returned c, t).
Proof.
  unfold client_of, NewStarterClient. intros Hc.
  destruct (url_Parse endpoint) as [ep | err]; [| discriminate].
  destruct (NewArangoStarterClient ep) as [c' | err]; [| discriminate].
  by injection Hc as ->.
Qed.

Lemma NewStarterClient_none (endpoint : string) (t : list Entry) :
  client_of endpoint = None ->
  exists format args,
    NewStarterClient endpoint t = (Exited, t ++ [FailedNow format args]).
Proof.
  unfold client_of, NewStarterClient, t_Fatalf. intros Hc.
  destruct (url_Parse endpoint) as [ep | err]; [| by eauto].
  destruct (NewArangoStarterClient ep) as [c' | err]; [discriminate |].
  by eauto.
Qed.

(** X14.  [testSingle] on an endpoint that gives a client whose process
    list can be fetched returns this client, and the test passes exactly
    when the version query is answered, the starter lists no agent, no
    coordinator and no dbserver, and it lists a single server whose
    [IsSecure] is the expected one and whose version URL answers.  The
    single server is the only one that is requested. *)
Theorem testSingle_passes (starterEndpoint : string) (isSecure : bool)
  (c : API) (processes : ProcessList) (t : list Entry) :
  client_of starterEndpoint = Some c ->
  c_Processes c = Ok processes ->
  exists new,
    testSingle starterEndpoint isSecure t = (Returned c, t ++ new) /\
    (failures new = [] <->
       (exists info, c_Version c = Ok info) /\
       ServerByType processes ServerTypeAgent = None /\
       ServerByType processes ServerTypeCoordinator = None /\
       ServerByType processes ServerTypeDBServer = None /\
       exists sp, ServerByType processes ServerTypeSingle = Some sp /\
                  server_ok isSecure sp) /\
    requests new =
      match ServerByType processes ServerTypeSingle with
      | Some sp => [arangod_url sp]
      | None => []
      end.
Proof.
  intros Hc Hp.
  destruct (testProcesses_single c starterEndpoint isSecure processes t Hp)
    as (new & Hrun & Hrest).
  exists new. split; [| exact Hrest].
  unfold testSingle, bind. rewrite (NewStarterClient_some _ _ _ Hc), Hrun.
  reflexivity.
Qed.

(** X15.  [testCluster] on an endpoint that gives a client whose process
    list can be fetched returns this client, and the test passes exactly
    when the version query is answered, the starter lists a coordinator and
    a dbserver, no single server, and every server it lists (the agent too,
    which is not required) has the expected [IsSecure] and answers at its
    version URL.  The requests go to the agent, the coordinator and the
    dbserver that are listed, in this order. *)
Theorem testCluster_passes (starterEndpoint : string) (isSecure : bool)
  (c : API) (processes : ProcessList) (t : list Entry) :
  client_of starterEndpoint = Some c ->
  c_Processes c = Ok processes ->
  exists new,
    testCluster starterEndpoint isSecure t = (Returned c, t ++ new) /\
    (failures new = [] <->
       (exists info, c_Version c = Ok info) /\
       (forall sp, ServerByType processes ServerTypeAgent = Some sp ->
                   server_ok isSecure sp) /\
       (exists sp, ServerByType processes ServerTypeCoordinator = Some sp /\
                   server_ok isSecure sp) /\
       (exists sp, ServerByType processes ServerTypeDBServer = Some sp /\
                   server_ok isSecure sp) /\
       ServerByType processes ServerTypeSingle = None) /\
    requests new =
      (arangod_url <$>
         option_list (ServerByType processes ServerTypeAgent)) ++
      (arangod_url <$>
         option_list (ServerByType processes ServerTypeCoordinator)) ++
      (arangod_url <$>
         option_list (ServerByType processes ServerTypeDBServer)).
Proof.
  intros Hc Hp.
  destruct (testProcesses_cluster c starterEndpoint isSecure processes t Hp)
    as (new & Hrun & Hrest).
  exists new. split; [| exact Hrest].
  unfold testCluster, bind. rewrite (NewStarterClient_some _ _ _ Hc), Hrun.
  reflexivity.
Qed.

(** X16.  When the process list cannot be fetched, [testProcesses] stops
    the test at once, in any mode: the last entry is the fatal one, no
    server is requested, and the only other failure there can be is the one
    of the version query. *)
Theorem testProcesses_no_list (c : API) (mode starterEndpoint : string)
  (isSecure : bool) (err : error) (t : list Entry) :
  c_Processes c = Err err ->
  exists new,
    testProcesses c mode starterEndpoint isSecure t =
      (Exited,
       t ++ new ++
       [FailedNow "Failed to get server processes: %s"
          [VString (describe (Some err))]]) /\
    requests new = [] /\
    (failures new = [] <-> exists info, c_Version c = Ok info).
Proof.
  intros Hp. unfold testProcesses, bind. rewrite Hp.
  destruct (c_Version c) as [info | verr].
  - destruct isVerbose; simpl.
    + eexists [_]. unfold t_Logf, t_Fatalf, record.
      rewrite <- app_assoc. split; [reflexivity |].
      split; [reflexivity |]. split; [by eauto | reflexivity].
    + exists []. unfold ret, t_Fatalf. split; [reflexivity |].
      split; [reflexivity |]. split; [by eauto | reflexivity].
  - eexists [_]. unfold t_Errorf, t_Fatalf, record.
    rewrite <- app_assoc. split; [reflexivity |].
    split; [reflexivity |]. split; [discriminate |].
    intros [info [=]].
Qed.

(** X17.  On an endpoint that gives no client, because it cannot be parsed
    or because the client cannot be created, each of [testSingle],
    [testCluster], [ShutdownStarter] and [WaitUntilStarterGone] stops the
    test with one fatal entry and does nothing else: no shutdown request,
    no query, no request of a server. *)
Theorem no_client_stops_the_test (endpoint : string) (isSecure : bool)
  (fuel : nat) (t : list Entry) :
  client_of endpoint = None ->
  exists format args,
    let t' := t ++ [FailedNow format args] in
    testSingle endpoint isSecure t = (Exited, t') /\
    testCluster endpoint isSecure t = (Exited, t') /\
    ShutdownStarter endpoint fuel t = (Exited, t') /\
    WaitUntilStarterGone endpoint fuel t = (Exited, t').
Proof.
  intros Hc. destruct (NewStarterClient_none endpoint t Hc)
    as (format & args & Hrun).
  exists format, args.
  unfold testSingle, testCluster, ShutdownStarter, WaitUntilStarterGone,
    bind.
  rewrite Hrun. done.
Qed.

Lemma gone_loop_decides (fails : nat -> bool) (fuel : nat) :
  is_Some (test.gone_loop fails fuel 0 0) <->
  exists k, (k < fuel)%nat /\ test.three_failures_end_at fails k.
Proof.
  split.
  - intros [j Hj].
    apply (gone_loop_sound fails fuel 0%nat j) in Hj as (Hlt & Hthree & _);
      [| simpl; lia].
    exists j. split; [lia | exact Hthree].
  - intros (k & Hk & Hthree).
    destruct (first_three_failures_below fails fuel)
      as [(j & Hj & Hj3 & Hfirst) | Hnone].
    + exists j. apply (gone_loop_complete fails fuel 0%nat j);
        [simpl; lia | lia | exact Hj3 |].
      intros i Hi. apply Hfirst. lia.
    + exfalso. by apply (Hnone k).
Qed.

(** X18.  [ShutdownStarter] asks for the shutdown once, without force,
    fails the test when the request fails, and then waits for the starter
    to be gone whatever the request gave: it returns within [fuel] rounds
    exactly when three version queries in a row fail among the first [fuel]
    ones, and is still waiting otherwise, also after a failed shutdown
    request. *)
Theorem ShutdownStarter_waits (endpoint : string) (c : API) (fuel : nat)
  (t : list Entry) :
  client_of endpoint = Some c ->
  exists o new,
    ShutdownStarter endpoint fuel t
      = (o, t ++ ShutdownRequest false :: new) /\
    new = match c_Shutdown c false with
          | Some err =>
              [Failed "Shutdown failed: %s" [VString (describe (Some err))]]
          | None => []
          end /\
    (o = Returned tt <->
       exists k, (k < fuel)%nat /\
                 test.three_failures_end_at (version_fails c) k) /\
    (o = Looping <->
       forall k, (k < fuel)%nat ->
                 ~ test.three_failures_end_at (version_fails c) k).
Proof.
  intros Hc.
  pose proof (gone_loop_decides (version_fails c) fuel) as Hdec.
  unfold ShutdownStarter, WaitUntilStarterGone, bind, record, t_Errorf,
    record, ret.
  rewrite !(NewStarterClient_some _ _ _ Hc).
  destruct (c_Shutdown c false) as [err |];
    rewrite ?(NewStarterClient_some _ _ _ Hc);
    destruct (test.gone_loop (version_fails c) fuel 0 0) as [j |] eqn:Hloop.
  all: eexists _, _; rewrite <- ?app_assoc; simpl.
  all: split; [reflexivity |]; split; [reflexivity |].
  all: split; split; try done.
  all: try (intros _; apply Hdec; by eexists).
  all: try (intros Hex; apply Hdec in Hex as [? [=]]).
  all: try (intros Hnone; assert (is_Some (Some j)) as Hs by (by eexists);
            apply Hdec in Hs as (k & Hk & H3); by destruct (Hnone k Hk)).
  all: try (intros _ k Hk H3;
            assert (is_Some (@None nat)) as [? [=]]
              by (apply Hdec; by exists k)).
Qed.

Lemma ready_loop_compiled (what : string) (starters : list SubProcess)
  (pattern : Regexp) (order : list nat) :
  regexp_MustCompile (ready_pattern what) = Some pattern ->
  forall result t,
    let done_ := omap (fun i => starters !! i) order in
    ready_loop what starters order result t =
      (Returned (result && forallb (ready pattern) done_),
       t ++ omap (not_ready_entry pattern) done_).
Proof.
  intros Hre.
  induction order as [| i order IH]; intros result t.
  - simpl. unfold ret. by rewrite andb_true_r, app_nil_r.
  - cbn [ready_loop]. csimpl.
    destruct (starters !! i) as [starter |]; [| apply IH].
    rewrite Hre. csimpl. unfold ready, not_ready_entry.
    destruct (ExpectTimeout starter time_Minute pattern) as [err |];
      csimpl.
    + unfold bind, t_Errorf, record. rewrite IH.
      rewrite <- app_assoc, andb_false_r. reflexivity.
    + apply IH.
Qed.

Lemma ready_loop_panics (what : string) (starters : list SubProcess)
  (order : list nat) :
  regexp_MustCompile (ready_pattern what) = None ->
  forall result t,
    ready_loop what starters order result t =
      (match omap (fun i => starters !! i) order with
       | [] => Returned result
       | _ :: _ => Panicked
       end, t).
Proof.
  intros Hre.
  induction order as [| i order IH]; intros result t; [reflexivity |].
  cbn [ready_loop]. csimpl.
  destruct (starters !! i) as [starter |]; [| apply IH].
  by rewrite Hre.
Qed.

Lemma lookup_all (starters : list SubProcess) (order : list nat) :
  order ≡ₚ seq 0 (length starters) ->
  omap (fun i => starters !! i) order ≡ₚ starters.
Proof.
  intros ->.
  enough (omap (fun i => starters !! i) (seq 0 (length starters))
          = starters) as -> by done.
  transitivity (omap Some starters).
  - apply list_omap_ext.
    apply Forall2_same_length_lookup_2; [by rewrite length_seq |].
    intros i j starter Hj Hi. by apply lookup_seq in Hj as [-> _].
  - induction starters as [| x l IH]; [done |].
    csimpl. by rewrite IH.
Qed.

(** X19.  [WaitUntilStarterReady] does not depend on the order in which the
    starters get ready or time out.  When the pattern compiles, then
    whatever the order in which the goroutines finish, it returns true
    exactly when every starter showed the pattern in time, and the test log
    gets one failure for each starter that did not, these and nothing else.
    When the pattern does not compile, the call returns true without any
    starter, and with a starter [regexp.MustCompile] panics before anything
    is logged. *)
Theorem WaitUntilStarterReady_any_order (what : string)
  (starters : list SubProcess) (order : list nat) (t : list Entry) :
  order ≡ₚ seq 0 (length starters) ->
  match regexp_MustCompile (ready_pattern what) with
  | Some pattern =>
      exists new,
        WaitUntilStarterReady what starters order t
          = (Returned (forallb (ready pattern) starters), t ++ new) /\
        new ≡ₚ omap (not_ready_entry pattern) starters
  | None =>
      WaitUntilStarterReady what starters order t
        = (match starters with
           | [] => Returned true
           | _ :: _ => Panicked
           end, t)
  end.
Proof.
  intros Hperm. pose proof (lookup_all starters order Hperm) as Hdone.
  unfold WaitUntilStarterReady.
  destruct (regexp_MustCompile (ready_pattern what)) as [pattern |] eqn:Hre.
  - rewrite (ready_loop_compiled what starters pattern order Hre).
    cbv zeta.
    exists (omap (not_ready_entry pattern)
              (omap (fun i => starters !! i) order)).
    split; [| by rewrite Hdone].
    f_equal. f_equal. simpl.
    apply Bool.eq_iff_eq_true. rewrite !forallb_forall.
    split; intros Hall starter Hin; apply Hall;
      apply list_elem_of_In; apply list_elem_of_In in Hin.
    + by rewrite Hdone.
    + by rewrite <- Hdone.
  - rewrite (ready_loop_panics what starters order Hre). f_equal.
    destruct (omap _ order) as [| x l] eqn:Ho.
    + apply Permutation_nil_l in Hdone. by rewrite <- Hdone.
    + destruct starters; [| reflexivity].
      apply Permutation_nil_r in Hdone. discriminate.
Qed.

End test_processes.

(** * The properties on the concrete instance *)

#[local] Existing Instance Demo.types.
#[local] Existing Instance Demo.ext.

Lemma demo_setup_valid :
  setup_valid Demo.w_saved (setup_of Demo.master).
Proof.
  eexists. split; [eexists; vm_compute; reflexivity |].
  split; vm_compute; reflexivity.
Defined.

Lemma demo_restart_valid :
  setup_valid Demo.w_restart (setup_of Demo.master).
Proof.
  eexists. split; [eexists; vm_compute; reflexivity |].
  split; vm_compute; reflexivity.
Defined.

Lemma demo_setup_outdated : setup_outdated Demo.w_outdated.
Proof.
  eexists _, _. split; [eexists; vm_compute; reflexivity |].
  split; [vm_compute; reflexivity |]. vm_compute. discriminate.
Defined.

Lemma demo_setup_unparsable : setup_unparsable Demo.w_garbage.
Proof.
  eexists _, _. split; [eexists; vm_compute; reflexivity |].
  vm_compute. reflexivity.
Defined.

Lemma demo_saved : saveSetup Demo.w_fresh = (None, Demo.w_saved).
Proof. vm_compute. reflexivity. Qed.

Lemma demo_setup_unreadable : setup_unreadable Demo.w_locked.
Proof. left. eexists _, _, _. vm_compute. reflexivity. Defined.

Lemma demo_well_formed : well_formed (setup_of Demo.master).
Proof.
  eexists. split; [vm_compute; reflexivity |]. vm_compute. reflexivity.
Defined.

(** The round trip of the master's record through a file that it creates:
    the file is read back, and the record is well-formed. *)
Lemma setup_round_trip_witness :
  exists b cfg,
    ioutil_ReadFile (setup_path (s_ Demo.w_saved)) Demo.w_saved
      = (Ok b, Demo.w_saved) /\
    json_Unmarshal b = Ok cfg /\
    SetupConfigFile.Peers cfg = Demo.master_peers /\
    SetupConfigFile.ID cfg = "master" /\
    SetupConfigFile.StartLocalSlaves cfg = true /\
    SetupConfigFile.Version cfg = SetupConfigVersion.
Proof.
  destruct (setup_round_trip Demo.master_peers "master" true
              Demo.w_fresh Demo.w_saved eq_refl eq_refl eq_refl demo_saved)
    as (b & _ & _ & Hread & Hiff).
  apply proj2 in Hiff. destruct (Hiff demo_well_formed) as (cfg & Hcfg).
  exists b, cfg. split; [exact Hread | exact Hcfg].
Defined.

(** A setup file of mode 0200 is saved and cannot be read back: the save
    returns nil, the read fails, and [relaunch] starts fresh. *)
Lemma setup_saved_not_read_back :
  let w := Demo.w_write_only in
  let w' := snd (saveSetup w) in
  saveSetup w = (None, w') /\
  ioutil_ReadFile (setup_path (s_ w')) w' = (Err "permission denied", w') /\
  fst (relaunch Demo.NewService tt w') = false.
Proof. cbv zeta. repeat split; vm_compute; reflexivity. Qed.

(** A setup file that is there but cannot be read gives a fresh start, and
    it is none of: absent, unparsable, outdated. *)
Lemma relaunch_fresh_start_unreadable :
  fst (relaunch Demo.NewService tt Demo.w_locked) = false /\
  ~ (setup_absent Demo.w_locked \/ setup_unparsable Demo.w_locked \/
     setup_outdated Demo.w_locked).
Proof.
  split; [vm_compute; reflexivity |].
  intros [Ha | [(b & err & [wr Hf] & _) | (b & cfg & [wr Hf] & _)]];
    vm_compute in *; discriminate.
Qed.

Lemma relaunch_fresh_start_cases_witness :
  fst (relaunch Demo.NewService tt Demo.w_outdated) = false /\
  exists entry,
    level entry = LWarning /\
    logged (snd (relaunch Demo.NewService tt Demo.w_outdated))
      = logged Demo.w_outdated ++ [entry].
Proof.
  destruct (relaunch_fresh_start_cases Demo.NewService tt Demo.w_outdated)
    as (Hiff & Hwarn & _).
  split.
  - apply Hiff. right. right. right. exact demo_setup_outdated.
  - apply Hwarn. right. exact demo_setup_outdated.
Defined.

(** A process that comes up as "fresh", without peers and with an agency
    size of 5, where the master saved its setup: it leaves as the master,
    with the master's peers and their agency size of 3. *)
Lemma relaunch_restores_witness :
  let r := relaunch Demo.NewService tt Demo.w_restart in
  Config.ID (Config_ (s_ Demo.w_restart)) = "fresh" /\
  Config.AgencySize (Config_ (s_ Demo.w_restart)) = 5 /\
  fst r = true /\
  Config.ID (Config_ (s_ (snd r))) = "master" /\
  myPeers (s_ (snd r)) = Demo.master_peers /\
  Config.AgencySize (Config_ (s_ (snd r))) = 3 /\
  ids_drawn (snd r) = ids_drawn Demo.w_restart.
Proof.
  pose proof (relaunch_restores Demo.NewService tt Demo.w_restart
                (setup_of Demo.master) demo_restart_valid) as Hr.
  cbv zeta in Hr. destruct Hr as (Ht & Hid & Hp & Hn & Hd & _).
  cbv zeta. repeat split; assumption.
Defined.

(** While the master overwrites an older setup file, a reader can find the
    file empty: neither the old record nor the new one. *)
Lemma saveSetup_not_atomic :
  let w := Demo.w_outdated in
  let w' := snd (saveSetup w) in
  saveSetup w = (None, w') /\
  ~ replaced_atomically (setup_path (s_ w)) w w'.
Proof.
  cbv zeta. assert (Hsave : saveSetup Demo.w_outdated =
                      (None, snd (saveSetup Demo.w_outdated)))
    by (vm_compute; reflexivity).
  split; [exact Hsave |]. intros Hatomic.
  destruct (saveSetup_observable _ _ Hsave)
    as (b & rd & wr & _ & _ & _ & Hobs).
  specialize (Hatomic (<[setup_path (s_ Demo.w_outdated) := File [] rd wr]>
                         (fs Demo.w_outdated))).
  destruct Hatomic as [Hold | Hnew].
  - rewrite Hobs. apply list_elem_of_further, list_elem_of_here.
  - rewrite lookup_insert_eq in Hold. vm_compute in Hold. discriminate.
  - rewrite lookup_insert_eq in Hnew. vm_compute in Hnew. discriminate.
Qed.

Lemma saveSetup_writes_in_place_witness :
  exists b rd wr,
    fs Demo.w_saved !! "/data/setup.json" = Some (File b rd wr) /\
    length (observable Demo.w_fresh Demo.w_saved) = 3%nat.
Proof.
  destruct (saveSetup_writes_in_place Demo.w_fresh Demo.w_saved demo_saved)
    as (b & rd & wr & _ & Hobs & Hfile & _).
  exists b, rd, wr. split; [exact Hfile |]. rewrite Hobs. reflexivity.
Defined.

Lemma relaunch_fresh_start_frame_witness :
  let w' := snd (relaunch Demo.NewService tt Demo.w_outdated) in
  Config.ID (Config_ (s_ w')) = "master" /\
  myPeers (s_ w') = Demo.master_peers /\
  Config.AgencySize (Config_ (s_ w')) = 3 /\
  fs w' = fs Demo.w_outdated /\
  fst (relaunch Demo.NewService tt w') = false.
Proof.
  pose proof (relaunch_fresh_start_frame Demo.NewService tt Demo.w_outdated
                eq_refl) as Hf.
  cbv zeta in Hf. destruct Hf as (Hid & Hp & Hn & Hfs & _ & _ & Hagain).
  cbv zeta. repeat split; assumption.
Defined.

Lemma relaunch_unreadable_silent_witness :
  relaunch Demo.NewService tt Demo.w_locked = (false, Demo.w_locked).
Proof.
  destruct (relaunch_unreadable_silent Demo.NewService tt Demo.w_locked)
    as [Hsilent _].
  apply Hsilent. exact demo_setup_unreadable.
Defined.


Lemma demo_Join_apart (a b : Z) :
  Demo.Join "/data" (local_slave_name a) =
    Demo.Join "/data" (local_slave_name b) ->
  local_slave_name a = local_slave_name b.
Proof.
  unfold Demo.Join. rewrite bool_decide_eq_false_2 by discriminate.
  intros Heq. by apply (inj (String.app "/data")), (inj (String.app "/")) in Heq.
Qed.

Lemma demo_Join_below (a : Z) :
  Demo.Join "/data" (local_slave_name a) <> "/data".
Proof.
  unfold Demo.Join. rewrite bool_decide_eq_false_2 by discriminate.
  simpl. discriminate.
Qed.

Lemma demo_NewService_total (c : Config.t) :
  exists slave, Demo.NewService (mustCreateIDLogger (Config.ID c)) c true
                = Ok slave.
Proof. eexists. reflexivity. Qed.

(** The master with an agency of three starts two slaves. *)
Lemma createAndStartLocalSlaves_count_witness :
  exists L,
    launched
      (events (snd (createAndStartLocalSlaves Demo.NewService 0 Demo.w_fresh)))
      = L /\
    fst (createAndStartLocalSlaves Demo.NewService 0 Demo.w_fresh)
      = Returns 2 /\
    length L = 2%nat /\
    Config.ID <$> L.*1 = ["slave-0"; "slave-1"] /\
    NoDup (Config.ID <$> L.*1) /\
    NoDup (Config.DataDir <$> L.*1) /\
    Forall (fun c => Config.DataDir c <> "/data") L.*1.
Proof.
  destruct (createAndStartLocalSlaves_count Demo.NewService 0 Demo.w_fresh
              ["slave-0"; "slave-1"]) as [_ Hcount].
  cbv zeta in Hcount.
  destruct Hcount
    as (L & HL & Hret & Hids & Hlen & Hdirs & Hpar & _ & Hnodup).
  - vm_compute. discriminate.
  - vm_compute. discriminate.
  - reflexivity.
  - intros [| [| i]] id Hi; simpl in Hi; try discriminate;
      injection Hi as <-; reflexivity.
  - exact demo_NewService_total.
  - exact demo_Join_apart.
  - exact demo_Join_below.
  - assert (Hfilter :
              filter (fun id => id <> Config.ID (Config_ (s_ Demo.w_fresh)))
                ["slave-0"; "slave-1"] = ["slave-0"; "slave-1"])
      by (vm_compute; reflexivity).
    rewrite Hfilter in Hids, Hnodup.
    assert (Hlen2 : length L = 2%nat).
    { apply (f_equal length) in Hids. rewrite !length_fmap in Hids.
      exact Hids. }
    exists L. split; [exact HL |].
    split; [rewrite Hret, Hlen2; reflexivity |].
    split; [exact Hlen2 |]. split; [exact Hids |].
    split; [apply Hnodup; compute_done |].
    split; [exact Hdirs | exact Hpar].
Defined.

(** When every draw gives the same identifier, every allocation and every
    construction succeeds, and the two slaves of an agency of three have one
    identifier. *)
Lemma colliding_draws_collide :
  let r := createAndStartLocalSlaves (E := Demo.ext_colliding)
             Demo.NewService 0 Demo.w_fresh in
  fst r = Returns 2 /\
  Config.ID <$> (launched (events (snd r))).*1 = ["deadbeef"; "deadbeef"] /\
  ~ NoDup (Config.ID <$> (launched (events (snd r))).*1).
Proof.
  cbv zeta.
  assert (Hids :
    Config.ID <$>
      (launched
         (events (snd (createAndStartLocalSlaves (E := Demo.ext_colliding)
                         Demo.NewService 0 Demo.w_fresh)))).*1
    = ["deadbeef"; "deadbeef"]) by (vm_compute; reflexivity).
  split; [vm_compute; reflexivity |]. split; [exact Hids |].
  rewrite Hids. intros Hnodup. apply NoDup_cons in Hnodup as [Hnotin _].
  apply Hnotin, list_elem_of_here.
Qed.

Lemma slaves_master_address_witness :
  Forall (fun started => Config.MasterAddress started.1 = "127.0.0.1:8528")
    (launched (events (snd (relaunch Demo.NewService tt Demo.w_saved)))).
Proof.
  destruct (slaves_master_address Demo.NewService 0
              (peers.Peers Demo.master_peers) Demo.w_saved)
    as (L & HL & Haddr).
  assert (Hsame :
            launched (events (snd (relaunch Demo.NewService tt Demo.w_saved)))
            = L).
  { vm_compute in HL. vm_compute. exact HL. }
  rewrite Hsame. apply Forall_forall. intros [config slave] Hin.
  destruct (Haddr config slave Hin) as [Hloop _].
  simpl. rewrite Hloop by reflexivity. reflexivity.
Defined.

Lemma demo_keeps_config : keeps_config Demo.NewService.
Proof. intros l config [] slave [= <-]; reflexivity. Qed.

(** The slaves of the master run with the flag off, and a slave that runs
    where no setup file is starts no slave. *)
Lemma slaves_never_spawn_slaves_witness :
  Forall (fun started =>
            Config.StartLocalSlaves started.1 = false /\
            Config.ID started.1 <> "master" /\
            Config.StartLocalSlaves (Config_ started.2) = false /\
            launched
              (events (snd (Run Demo.NewService tt
                              (Demo.world_of started.2 ∅)))) = [])
    (launched (events (snd (relaunch Demo.NewService tt Demo.w_saved)))).
Proof.
  destruct (slaves_never_spawn_slaves Demo.NewService 0
              (peers.Peers Demo.master_peers) Demo.w_saved demo_keeps_config)
    as (L & HL & Hcfg).
  assert (Hsame :
            launched (events (snd (relaunch Demo.NewService tt Demo.w_saved)))
            = L).
  { vm_compute in HL. vm_compute. exact HL. }
  rewrite Hsame. apply Forall_forall. intros [config slave] Hin.
  destruct (Hcfg config slave Hin) as (Hflag & Hid & _ & _ & Hkeep & Hrun).
  split; [exact Hflag |]. split; [exact Hid |].
  split; [simpl; rewrite Hkeep; exact Hflag |].
  simpl. rewrite (Hrun tt (Demo.world_of slave ∅) eq_refl); [reflexivity |].
  intros cfg (b & [wr Hfile] & _). exfalso. revert Hfile.
  unfold setup_path. simpl. rewrite Hkeep.
  destruct (Hcfg config slave Hin) as (_ & _ & _ & (p & Hp & _ & Hdir & _) & _).
  rewrite Hdir. clear -Hp.
  vm_compute in Hp.
  repeat (apply elem_of_cons in Hp as [-> | Hp]); try (vm_compute; discriminate).
  by apply elem_of_nil in Hp.
Defined.

(** The slave that the master starts for its peer s1 has the flag off in
    its configuration, and yet, relaunching in a data directory that holds
    a valid setup record with the flag set, it starts a slave of its own. *)
Lemma slave_with_record_spawns_slaves :
  (Demo.slave1_config, Demo.slave1) ∈
    launched (events (snd (relaunch Demo.NewService tt Demo.w_saved))) /\
  Config.StartLocalSlaves Demo.slave1_config = false /\
  Config.StartLocalSlaves (Config_ Demo.slave1) = false /\
  s_ Demo.w_stale = Demo.slave1 /\
  Config.ID <$>
    (launched (events (snd (relaunch Demo.NewService tt Demo.w_stale)))).*1
    = ["x1"] /\
  Config.ID <$>
    (launched (events (snd (Run Demo.NewService tt Demo.w_stale)))).*1
    = ["x1"].
Proof.
  split.
  { assert (Hl :
      launched (events (snd (relaunch Demo.NewService tt Demo.w_saved))) =
        [(Demo.slave1_config, Demo.slave1);
         (Config.with_DataDir "/data/local-slave-2"
            (Config.with_ID "s2" Demo.slave1_config),
          set_log "s2"
            (set_Config
               (Config.with_DataDir "/data/local-slave-2"
                  (Config.with_ID "s2" Demo.slave1_config)) Demo.slave1))])
      by (vm_compute; reflexivity).
    rewrite Hl. apply list_elem_of_here. }
  repeat split; vm_compute; reflexivity.
Qed.

(** Two failures, a success, then failures only: gone after query 5. *)
Lemma gone_after_three_failures_witness :
  WaitUntilStarterGone Demo.blip 10 = Some 5%nat.
Proof.
  destruct (gone_after_three_failures Demo.blip) as (_ & Hgone & _).
  apply Hgone.
  - repeat split; [lia | reflexivity ..].
  - intros i Hi (Hge & H2 & H1 & H0).
    destruct i as [| [| [| [| [| i]]]]]; try lia; simpl in *; discriminate.
  - lia.
Defined.

(** More properties on the concrete instance. *)

Lemma slaves_directory_first_witness :
  let w' :=
    snd (startLocalSlaves Demo.NewService 0 (peers.Peers Demo.master_peers)
           Demo.w_saved) in
  exists config slave,
    events w' !! 3%nat = Some (GoRun config slave tt) /\
    events w' !! 2%nat = Some (MkdirAll (Config.DataDir config) 493).
Proof.
  cbv zeta.
  pose proof (slaves_directory_first Demo.NewService 0
                (peers.Peers Demo.master_peers) Demo.w_saved) as Hfirst.
  cbv zeta in Hfirst.
  assert (exists config slave,
    events (snd (startLocalSlaves Demo.NewService 0
                   (peers.Peers Demo.master_peers) Demo.w_saved)) !! 3%nat
      = Some (GoRun config slave tt)) as (config & slave & Hrun).
  { eexists _, _. vm_compute. reflexivity. }
  destruct (Hfirst 3%nat config slave tt) as (_ & j & Hj & _ & Hdir).
  - vm_compute. lia.
  - exact Hrun.
  - injection Hj as <-. exists config, slave. split; [exact Hrun | exact Hdir].
Defined.

Lemma relaunch_event_order_witness :
  exists S,
    events (snd (relaunch Demo.NewService tt Demo.w_saved)) =
      events Demo.w_saved ++ StartHTTPServer :: S ++
      [StartRunning tt; WgWait (Z.of_nat (length (launched S)))] /\
    Forall (fun e => match e with
                     | MkdirAll _ _ | GoRun _ _ _ => True
                     | _ => False
                     end) S.
Proof.
  destruct (relaunch_event_order Demo.NewService tt Demo.w_saved
              (setup_of Demo.master) demo_setup_valid) as (S & Hev & Hall & _).
  exists S. split; [exact Hev | exact Hall].
Defined.

Lemma relaunch_starts_stored_peers_witness :
  exists L,
    launched (events (snd (relaunch Demo.NewService tt Demo.w_saved))) = L /\
    (fun c => (Config.ID c, Config.DataDir c)) <$> L.*1 =
      [("s1", "/data/local-slave-1"); ("s2", "/data/local-slave-2")].
Proof.
  destruct (relaunch_starts_stored_peers Demo.NewService tt Demo.w_saved
              (setup_of Demo.master) demo_setup_valid eq_refl)
    as (L & HL & Hpeers).
  - intros c. eexists. reflexivity.
  - exists L. split; [exact HL |]. rewrite Hpeers. vm_compute. reflexivity.
Defined.

(** The file the master creates is read back, and its record is
    well-formed: the relaunch returns true with what was saved. *)
Lemma saveSetup_then_relaunch_witness :
  let r := relaunch Demo.NewService tt Demo.w_saved in
  fst r = true /\
  Config.ID (Config_ (s_ (snd r))) = "master" /\
  myPeers (s_ (snd r)) = Demo.master_peers.
Proof.
  destruct (saveSetup_then_relaunch Demo.NewService tt Demo.w_fresh
              Demo.w_saved demo_saved) as (b & Hm & Hiff & _ & Hwf).
  assert (Ht : fst (relaunch Demo.NewService tt Demo.w_saved) = true).
  { apply Hiff. split; [reflexivity |].
    destruct demo_well_formed as (b' & Hm' & Hu).
    change (s_ Demo.w_fresh) with Demo.master in Hm.
    rewrite Hm in Hm'. injection Hm' as <-.
    eexists. split; [exact Hu | reflexivity]. }
  destruct (Hwf Ht demo_well_formed) as [Hid Hp].
  cbv zeta. split; [exact Ht |]. split; [exact Hid | exact Hp].
Defined.

(** The first draw fails: of the two slaves of an agency of three, the
    second one only is started, in the second directory. *)
Lemma createAndStartLocalSlaves_failed_draws_witness :
  exists L new,
    launched
      (events (snd (createAndStartLocalSlaves (E := Demo.ext_flaky)
                      Demo.NewService 0 Demo.w_fresh))) = L /\
    logged (snd (createAndStartLocalSlaves (E := Demo.ext_flaky)
                   Demo.NewService 0 Demo.w_fresh)) = new /\
    (fun c => (Config.ID c, Config.DataDir c)) <$> L.*1 =
      [("slave-1", "/data/local-slave-2")] /\
    length (errors new) = 1%nat.
Proof.
  pose proof (createAndStartLocalSlaves_failed_draws (E := Demo.ext_flaky)
                Demo.NewService 0 Demo.w_fresh) as Hd.
  cbv zeta in Hd.
  destruct Hd as (L & new & HL & Hnew & _ & _ & Hids & Herr & _).
  - vm_compute. split; discriminate.
  - intros c. eexists. reflexivity.
  - intros [| [| i]] id Hi; simpl in Hi; try discriminate.
    + intros [= <-]. vm_compute. discriminate.
    + vm_compute in Hi. lia.
  - exists L, new. split; [exact HL |]. split; [exact Hnew |].
    split; [rewrite Hids | rewrite Herr]; vm_compute; reflexivity.
Defined.

Lemma createAndStartLocalSlaves_announces_witness :
  exists new1 new2,
    logged (snd (createAndStartLocalSlaves (E := Demo.ext_flaky)
                   Demo.NewService 0 Demo.w_fresh)) =
      new1 ++
      {| via := "master"; level := LInfo;
         format := "Starting %d local slaves..."; args := [AInt 0] |}
      :: new2.
Proof.
  pose proof (createAndStartLocalSlaves_announces (E := Demo.ext_flaky)
                Demo.NewService 0 Demo.w_fresh) as Ha.
  cbv zeta in Ha.
  destruct Ha as (L & new1 & new2 & HL & Hlog & _).
  - vm_compute. split; discriminate.
  - intros c. eexists. reflexivity.
  - intros [| [| i]] id Hi; simpl in Hi; try discriminate.
    + intros [= <-]. vm_compute. discriminate.
    + vm_compute in Hi. lia.
  - exists new1, new2. rewrite Hlog.
    assert (length L = 1%nat) as ->.
    { apply (f_equal length) in HL. vm_compute in HL. exact (eq_sym HL). }
    reflexivity.
Defined.

(** The starter answers query 2 and no query after it: gone after query
    5. *)
Lemma gone_third_query_after_last_answer_witness :
  WaitUntilStarterGone Demo.blip 10 = Some 5%nat.
Proof.
  apply (gone_third_query_after_last_answer Demo.blip 3 10).
  - right. reflexivity.
  - intros i Hi (Hge & _ & _ & H0).
    assert (i = 2%nat) as -> by lia. discriminate.
  - intros i Hi. unfold Demo.blip.
    destruct (Nat.eqb_spec i 2); [lia | reflexivity].
  - lia.
Defined.

Lemma test_modes_are_the_words_witness :
  snd (testutil.init Demo.Getenv) = ["localprocess"; "docker"] /\
  testutil.needTestMode (snd (testutil.init Demo.Getenv)) "docker" []
    = (testutil.Returned tt, []).
Proof.
  destruct (test_modes_are_the_words Demo.Getenv ["localprocess"; "docker"]
              "docker" []) as [Hmodes Hneed].
  - discriminate.
  - repeat constructor.
  - reflexivity.
  - split; [exact Hmodes |]. apply Hneed. right.
    apply list_elem_of_further, list_elem_of_here.
Defined.


(** The starter in single mode passes [testSingle]; its single server is
    the one that is requested. *)
Lemma testSingle_passes_witness :
  exists new,
    testutil.testSingle (H := DemoTest.harness) "http://localhost:8528" false []
      = (testutil.Returned "http://localhost:8528", new) /\
    testutil.failures new = [] /\
    testutil.requests new = ["http://127.0.0.1:8529/_api/version"].
Proof.
  destruct (testSingle_passes (H := DemoTest.harness) "http://localhost:8528" false
              "http://localhost:8528" [DemoTest.single_server] []
              eq_refl eq_refl) as (new & Hrun & Hpass & Hreq).
  exists new. split; [exact Hrun |]. split; [| exact Hreq].
  apply Hpass. split; [by eexists |]. do 3 (split; [reflexivity |]).
  exists DemoTest.single_server. repeat split.
Defined.

(** The starter with a cluster passes [testCluster]; its three servers are
    requested. *)
Lemma testCluster_passes_witness :
  exists new,
    testutil.testCluster (H := DemoTest.harness) "http://localhost:8533" false []
      = (testutil.Returned "http://localhost:8533", new) /\
    testutil.failures new = [] /\
    testutil.requests new =
      ["http://127.0.0.1:8534/_api/version";
       "http://127.0.0.1:8535/_api/version";
       "http://127.0.0.1:8536/_api/version"].
Proof.
  destruct (testCluster_passes (H := DemoTest.harness) "http://localhost:8533" false
              "http://localhost:8533" DemoTest.cluster_servers []
              eq_refl eq_refl) as (new & Hrun & Hpass & Hreq).
  exists new. split; [exact Hrun |]. split; [| exact Hreq].
  apply Hpass. split; [by eexists |].
  split; [intros sp [= <-]; repeat split |].
  split; [eexists; repeat split |].
  split; [eexists; repeat split | reflexivity].
Defined.

(** The starter at port 8538 does not list its processes: the test stops
    after the version was logged. *)
Lemma testProcesses_no_list_witness :
  exists new,
    fst (testutil.testProcesses (H := DemoTest.harness) "http://localhost:8538" "cluster"
           "http://localhost:8538" false []) = testutil.Exited /\
    snd (testutil.testProcesses (H := DemoTest.harness) "http://localhost:8538" "cluster"
           "http://localhost:8538" false []) =
      new ++
      [testutil.FailedNow "Failed to get server processes: %s"
         [testutil.VString "&errors.errorString{s:connection refused} ({})"]] /\
    testutil.failures new = [].
Proof.
  destruct (testProcesses_no_list (H := DemoTest.harness) "http://localhost:8538" "cluster"
              "http://localhost:8538" false "connection refused" []
              eq_refl) as (new & Hrun & _ & Hpass).
  exists new. rewrite Hrun. split; [reflexivity |].
  split; [reflexivity |]. apply Hpass. by eexists.
Defined.

(** An endpoint without scheme gives no client. *)
Lemma no_client_stops_the_test_witness :
  exists format args,
    testutil.testSingle (H := DemoTest.harness) ":8528" false []
      = (testutil.Exited, [testutil.FailedNow format args]) /\
    testutil.ShutdownStarter (H := DemoTest.harness) ":8528" 10 []
      = (testutil.Exited, [testutil.FailedNow format args]).
Proof.
  destruct (no_client_stops_the_test (H := DemoTest.harness) ":8528" false 10 [] eq_refl)
    as (format & args & Hsingle & _ & Hshutdown & _).
  exists format, args. split; [exact Hsingle | exact Hshutdown].
Defined.

(** The shutdown request succeeds, the starter answers two more queries and
    fails the next three: [ShutdownStarter] returns. *)
Lemma ShutdownStarter_waits_witness :
  testutil.ShutdownStarter (H := DemoTest.harness) "http://localhost:8528" 10 []
    = (testutil.Returned tt, [testutil.ShutdownRequest false]).
Proof.
  destruct (ShutdownStarter_waits (H := DemoTest.harness) "http://localhost:8528"
              "http://localhost:8528" 10 [] eq_refl)
    as (o & new & Hrun & Hnew & Hret & _).
  rewrite Hrun, Hnew. f_equal. apply Hret.
  exists 4%nat. split; [lia |]. repeat split. lia.
Defined.

(** Three starters, the second one times out; the third one is the first
    to get there. *)
Lemma WaitUntilStarterReady_any_order_witness :
  exists new,
    testutil.WaitUntilStarterReady (H := DemoTest.harness) "cluster"
      [true; false; true] [2%nat; 0%nat; 1%nat] []
      = (testutil.Returned false, new) /\
    length new = 1%nat.
Proof.
  pose proof (WaitUntilStarterReady_any_order (H := DemoTest.harness)
                "cluster" [true; false; true] [2%nat; 0%nat; 1%nat] []
                (Permutation_cons_append [0%nat; 1%nat] 2%nat)) as Hr.
  change (testutil.regexp_MustCompile (testutil.ready_pattern "cluster"))
    with (Some (testutil.ready_pattern "cluster")) in Hr.
  cbv iota in Hr. destruct Hr as (new & Hrun & Hnew).
  exists new. split; [exact Hrun |].
  apply Permutation_length in Hnew. exact Hnew.
Defined.

(** With 64-bit integers and the base port 8528, the offsets 0 and 5 give
    the endpoints of two starters. *)
Lemma starter_endpoints_apart_witness :
  testutil.insecureStarterEndpoint 8528 64 0 = "http://localhost:8528" /\
  testutil.insecureStarterEndpoint 8528 64 5 = "http://localhost:8533" /\
  testutil.insecureStarterEndpoint 8528 64 0 <>
    testutil.secureStarterEndpoint 8528 64 5.
Proof.
  destruct (starter_endpoints_apart 8528 64 0 5) as (_ & _ & Hne).
  - lia.
  - unfold testutil.is_int. lia.
  - unfold testutil.is_int. lia.
  - split; [reflexivity |]. split; [reflexivity | exact Hne].
Defined.

(** On a fresh data directory the master makes the directories of its two
    slaves, which were not there. *)
Lemma slaves_directories_made_witness :
  let w' :=
    snd (startLocalSlaves Demo.NewService 0 (peers.Peers Demo.master_peers)
           Demo.w_fresh) in
  fs Demo.w_fresh !! "/data/local-slave-1" = None /\
  fs w' !! "/data/local-slave-1" = Some Dir /\
  fs w' !! "/data/local-slave-2" = Some Dir.
Proof.
  cbv zeta.
  pose proof (slaves_directories_made Demo.NewService 0
                (peers.Peers Demo.master_peers) Demo.w_fresh) as Hmade.
  cbv zeta in Hmade.
  assert (Hcan : forall p,
             p ∈ peers.Peers Demo.master_peers ->
             Peer.ID p <> Config.ID (Config_ (s_ Demo.w_fresh)) ->
             can_make Demo.w_fresh (Peer.DataDir p)).
  { intros p Hp Hid. simpl in Hp.
    repeat (apply elem_of_cons in Hp as [-> | Hp]);
      [by destruct Hid | | | by apply elem_of_nil in Hp].
    all: split; [done |].
    all: repeat constructor; intros b rd wr; vm_compute; discriminate. }
  split; [reflexivity |]. split.
  - apply (Hmade Hcan
             {| Peer.ID := "s1"; Peer.Address := "192.168.1.7";
                Peer.Port := 8533; Peer.DataDir := "/data/local-slave-1" |});
      [simpl; set_solver | discriminate].
  - apply (Hmade Hcan
             {| Peer.ID := "s2"; Peer.Address := "192.168.1.7";
                Peer.Port := 8538; Peer.DataDir := "/data/local-slave-2" |});
      [simpl; set_solver | discriminate].
Defined.
